(** * deven: normalisation library, entities and creation pipeline

    A shallow embedding of
      - [app/api/events/route.ts]      (the POST and GET handlers),
      - [database/event.model.ts]      (schema, pre-save hook, generateSlug,
                                        normalizeDate, normalizeTime),
      - [database/booking.model.ts]    (schema, pre-save hook),
      - [lib/actions/booking.actions.ts] (createBooking, and its earlier
                                        form).

    JavaScript strings are sequences of UTF-16 code units; a code unit is an
    [N].  The host functions the source calls (String.prototype.trim,
    toLowerCase, replace, match, parseInt, padStart, Date.prototype.
    toISOString) are written out below with the behaviour ECMA-262 gives
    them; regular expressions are interpreted by a small backtracking
    matcher, so that every pattern of the source appears here as a term. *)

From Stdlib Require Import List NArith ZArith Bool Lia String Ascii.
From Stdlib Require Import Permutation.
Import ListNotations.

Set Implicit Arguments.
Set Warnings "-register-all".

(** ** Strings of code units *)

Module JS.

Definition jsstring := list N.

(** The empty string. *)
Definition emptyString : jsstring := [].

(** A literal of the source, as code units. *)
Definition js (s : string) : jsstring :=
  map N_of_ascii (list_ascii_of_string s).

Definition chr (a : ascii) : N := N_of_ascii a.

Local Open Scope N_scope.

Definition between (lo hi c : N) : bool := (lo <=? c) && (c <=? hi).

(** WhiteSpace and LineTerminator of ECMA-262: what [trim] removes and
    what the class [\s] matches. *)
Definition isWhiteSpace (c : N) : bool :=
  between 9 13 c            (* TAB LF VT FF CR *)
  || (c =? 32)              (* SP *)
  || (c =? 160)             (* NBSP *)
  || (c =? 5760)            (* U+1680 *)
  || between 8192 8202 c    (* U+2000 .. U+200A *)
  || (c =? 8232)            (* LS *)
  || (c =? 8233)            (* PS *)
  || (c =? 8239)            (* U+202F *)
  || (c =? 8287)            (* U+205F *)
  || (c =? 12288)           (* U+3000 *)
  || (c =? 65279).          (* U+FEFF *)

Definition isDigit (c : N) : bool := between 48 57 c.    (* [0-9], \d *)
Definition isLower (c : N) : bool := between 97 122 c.   (* [a-z] *)
Definition isUpper (c : N) : bool := between 65 90 c.    (* [A-Z] *)

Fixpoint dropWhile (p : N -> bool) (s : jsstring) : jsstring :=
  match s with
  | [] => []
  | c :: t => if p c then dropWhile p t else s
  end.

(** The same from the end: a unit goes when it is in [p] and nothing is
    kept after it. *)
Fixpoint dropWhileEnd (p : N -> bool) (s : jsstring) : jsstring :=
  match s with
  | [] => []
  | c :: t =>
      match dropWhileEnd p t with
      | [] => if p c then [] else [c]
      | r => c :: r
      end
  end.

(** String.prototype.trim *)
Definition trim (s : jsstring) : jsstring :=
  dropWhileEnd isWhiteSpace (dropWhile isWhiteSpace s).

(** String.prototype.toLowerCase, code unit by code unit.  The table is
    exact on ASCII and Latin-1 and on the two characters beyond them whose
    lower-case form reaches ASCII: U+0130 (to "i" followed by U+0307) and
    the Kelvin sign U+212A (to "k").  Every other case pair of Unicode lies
    outside ASCII and outside white space on both sides; those code units
    are left as they are. *)
Definition lowerUnit (c : N) : jsstring :=
  if isUpper c then [c + 32]
  else if between 192 222 c && negb (c =? 215) then [c + 32]
  else if c =? 304 then [105; 775]
  else if c =? 8490 then [107]
  else [c].

Definition toLowerCase (s : jsstring) : jsstring := flat_map lowerUnit s.

(** String.prototype.toUpperCase on ASCII.  The source applies it to the
    text captured by (AM|PM) under the flag i only. *)
Definition upperUnit (c : N) : N := if isLower c then c - 32 else c.

Definition toUpperCase (s : jsstring) : jsstring := map upperUnit s.

Fixpoint eqs (a b : jsstring) : bool :=
  match a, b with
  | [], [] => true
  | x :: a', y :: b' => (x =? y) && eqs a' b'
  | _, _ => false
  end.

(** String.prototype.padStart with a one-unit filler. *)
Definition padStart (width : nat) (fill : N) (s : jsstring) : jsstring :=
  repeat fill (width - List.length s) ++ s.

End JS.

Import JS.

(** ** Regular expressions

    The patterns of the source, as terms, and the backtracking matcher of
    ECMA-262 restricted to what they use: classes, sequence, alternation
    (left first), the greedy star, the anchors and capture groups.  A
    matcher returns its successes in the order of preference. *)

Module Regex.

Inductive regex : Type :=
| Eps                                  (* the empty pattern *)
| Class (p : N -> bool)                (* one code unit of a class *)
| Cat (r1 r2 : regex)                  (* r1 r2 *)
| Alt (r1 r2 : regex)                  (* r1|r2 *)
| Star (r : regex)                     (* r*, greedy *)
| Bol                                  (* ^ (no flag m) *)
| Eol                                  (* $ (no flag m) *)
| Group (n : nat) (r : regex).         (* capture group number n *)

Definition Plus (r : regex) : regex := Cat r (Star r).       (* r+ *)
Definition Opt (r : regex) : regex := Alt r Eps.             (* r? *)
Definition Chr (a : ascii) : regex := Class (N.eqb (chr a)). (* a literal *)
Definition Not (p : N -> bool) : N -> bool := fun c => negb (p c).

(** r{0,n}, greedy *)
Fixpoint UpTo (n : nat) (r : regex) : regex :=
  match n with
  | O => Eps
  | S k => Alt (Cat r (UpTo k r)) Eps
  end.

(** Canonicalize of ECMA-262 without the flag u: the upper-case form when
    it is one code unit, except that a code unit from 128 on is never sent
    into ASCII.  A literal under the flag i is compared after Canonicalize;
    the literals of the source are ASCII letters, for which the comparison
    below is exact. *)
Definition canonicalize (c : N) : N := upperUnit c.

Definition ChrI (a : ascii) : regex :=
  Class (fun c => N.eqb (canonicalize c) (canonicalize (chr a))).

Record mstate : Type := MState {
  pos : nat;                       (* index of the next code unit *)
  rest : jsstring;                 (* the input from [pos] on *)
  caps : list (nat * jsstring)     (* captures, latest first *)
}.

Definition capture (n : nat) (s s' : mstate) : mstate :=
  MState (pos s') (rest s') ((n, firstn (pos s' - pos s) (rest s)) :: caps s').

(** The greedy star of a matcher [step]: as many rounds as possible
    first.  A round that consumes nothing is rejected, so the length of
    the input bounds the number of rounds. *)
Fixpoint iterate (step : mstate -> list mstate) (fuel : nat) (s : mstate)
  : list mstate :=
  match fuel with
  | O => [s]
  | S k =>
      flat_map (fun s' => if Nat.ltb (pos s) (pos s') then iterate step k s'
                          else [])
               (step s) ++ [s]
  end.

Fixpoint run (r : regex) (s : mstate) : list mstate :=
  match r with
  | Eps => [s]
  | Class p =>
      match rest s with
      | c :: t => if p c then [MState (S (pos s)) t (caps s)] else []
      | [] => []
      end
  | Cat r1 r2 => flat_map (run r2) (run r1 s)
  | Alt r1 r2 => run r1 s ++ run r2 s
  | Star r1 => iterate (run r1) (List.length (rest s)) s
  | Bol => if Nat.eqb (pos s) 0 then [s] else []
  | Eol => match rest s with [] => [s] | _ :: _ => [] end
  | Group n r1 => map (capture n s) (run r1 s)
  end.

(** The preferred match of [r] starting exactly at index [i]. *)
Definition matchAt (r : regex) (i : nat) (input : jsstring) : option mstate :=
  hd_error (run r (MState i input [])).

(** RegExpBuiltinExec: the first index from [i] on at which [r] matches. *)
Fixpoint exec (r : regex) (i : nat) (input : jsstring) : option mstate :=
  match matchAt r i input with
  | Some m => Some m
  | None =>
      match input with
      | [] => None
      | _ :: t => exec r (S i) t
      end
  end.

Fixpoint lookupCap (n : nat) (cs : list (nat * jsstring)) : option jsstring :=
  match cs with
  | [] => None
  | (k, v) :: t => if Nat.eqb k n then Some v else lookupCap n t
  end.

(** String.prototype.match for a pattern without the flag g: the captures
    of the first match ([None] is the source's null; a group that took no
    part in the match is undefined, here [None]). *)
Definition match_ (r : regex) (s : jsstring) : option (nat -> option jsstring) :=
  match exec r 0 s with
  | Some m => Some (fun n => lookupCap n (caps m))
  | None => None
  end.

(** RegExp.prototype.test *)
Definition test (r : regex) (s : jsstring) : bool :=
  match exec r 0 s with Some _ => true | None => false end.

(** String.prototype.replace for a pattern with the flag g and a
    replacement text without dollar patterns: every match, left to right,
    each search starting where the previous match ended (one unit further
    after an empty match). *)
Fixpoint replaceFrom (r : regex) (by_ : jsstring)
         (fuel i : nat) (input : jsstring) : jsstring :=
  match fuel with
  | O => input
  | S k =>
      let skip := match input with
                  | [] => []
                  | c :: t => c :: replaceFrom r by_ k (S i) t
                  end in
      match matchAt r i input with
      | Some m =>
          if Nat.eqb (pos m) i then by_ ++ skip
          else by_ ++ replaceFrom r by_ k (pos m) (rest m)
      | None => skip
      end
  end.

Definition replace (r : regex) (by_ : jsstring) (s : jsstring) : jsstring :=
  replaceFrom r by_ (S (List.length s)) 0 s.

End Regex.

Import Regex.

(** ** event.model.ts: the normalisation functions *)

(** [^a-z0-9\s-] *)
Definition slugClass (c : N) : bool :=
  isLower c || isDigit c || isWhiteSpace c || N.eqb c (chr "-").

Definition generateSlug (title : jsstring) : jsstring :=
  replace (Alt (Cat Bol (Chr "-")) (Cat (Chr "-") Eol)) emptyString (* /^-|-$/g *)
    (replace (Plus (Chr "-")) (js "-")                           (* /-+/g *)
       (replace (Plus (Class isWhiteSpace)) (js "-")             (* /\s+/g *)
          (replace (Class (Not slugClass)) emptyString (* /[^a-z0-9\s-]/g *)
             (trim (toLowerCase title))))).

(** *** Errors and numbers of the host *)

(** What a throw statement or a rejected promise carries: an instance of
    Error (with the class it belongs to), or a value that is none. *)
Inductive error : Type :=
| Error (message : jsstring)
| TypeError (message : jsstring)
| SyntaxError (message : jsstring)
| ValidationError (message : jsstring)      (* mongoose *)
| MongoServerError (message : jsstring)     (* the driver: E11000 *)
| Thrown (value : jsstring).                (* not an instance of Error *)

(** e instanceof Error *)
Definition instanceofError (e : error) : bool :=
  match e with Thrown _ => false | _ => true end.

Definition message (e : error) : jsstring :=
  match e with
  | Error m | TypeError m | SyntaxError m
  | ValidationError m | MongoServerError m => m
  | Thrown _ => js "undefined"
  end.

(** The outcome of an expression that may throw. *)
Inductive exc (A : Type) : Type :=
| Return (a : A)
| Throw (e : error).
Arguments Return {A} a.
Arguments Throw {A} e.

(** A Number that is NaN or an integer (exact below 2^53; the integers of
    the source have at most two digits). *)
Inductive number : Type := NaN | Int (z : Z).

Definition lt (x : number) (k : Z) : bool :=
  match x with NaN => false | Int z => Z.ltb z k end.
Definition gt (x : number) (k : Z) : bool :=
  match x with NaN => false | Int z => Z.ltb k z end.
Definition seq (x : number) (k : Z) : bool :=          (* x === k *)
  match x with NaN => false | Int z => Z.eqb z k end.
Definition add (x : number) (k : Z) : number :=
  match x with NaN => NaN | Int z => Int (z + k) end.

(** ToString of a value that is a string or undefined. *)
Definition str (v : option jsstring) : jsstring :=
  match v with Some s => s | None => js "undefined" end.

Definition digitVal (radix c : N) : option N :=
  let v := if isDigit c then Some (c - 48)%N
           else if isLower c then Some (c - 87)%N
           else if isUpper c then Some (c - 55)%N
           else None in
  match v with
  | Some d => if N.ltb d radix then Some d else None
  | None => None
  end.

(** The value of the longest prefix of digits; [acc] is [None] until a
    digit has been read. *)
Fixpoint digitsPrefix (radix : N) (s : jsstring) (acc : option N) : option N :=
  match s with
  | [] => acc
  | c :: t =>
      match digitVal radix c with
      | Some d =>
          digitsPrefix radix t
            (Some (radix * match acc with Some a => a | None => 0 end + d)%N)
      | None => acc
      end
  end.

(** parseInt(string) with the radix left out. *)
Definition parseInt (s : jsstring) : number :=
  let s1 := dropWhile isWhiteSpace s in
  let '(neg, s2) :=
    match s1 with
    | c :: t => if N.eqb c (chr "-") then (true, t)
                else if N.eqb c (chr "+") then (false, t)
                else (false, s1)
    | [] => (false, s1)
    end in
  let '(radix, s3) :=
    match s2 with
    | z :: x :: t =>
        if N.eqb z (chr "0") && (N.eqb x (chr "x") || N.eqb x (chr "X"))
        then (16%N, t) else (10%N, s2)
    | _ => (10%N, s2)
    end in
  match digitsPrefix radix s3 None with
  | None => NaN
  | Some v => Int (if neg then - Z.of_N v else Z.of_N v)
  end.

Fixpoint decimal (fuel : nat) (n : N) (acc : jsstring) : jsstring :=
  match fuel with
  | O => acc
  | S k =>
      let acc' := (48 + n mod 10)%N :: acc in
      if N.ltb n 10 then acc' else decimal k (n / 10)%N acc'
  end.

(** The decimal digits of a natural number. *)
Definition digitsOf (n : N) : jsstring := decimal (S (N.to_nat (N.log2 n))) n [].

(** Number.prototype.toString on NaN and the integers. *)
Definition numberToString (x : number) : jsstring :=
  match x with
  | NaN => js "NaN"
  | Int z => if Z.ltb z 0 then chr "-" :: digitsOf (Z.to_N (- z))
             else digitsOf (Z.to_N z)
  end.

(** *** normalizeTime *)

Definition InvalidTimeFormat : error :=
  Error (js "Invalid time format. Use HH:MM or HH:MM AM/PM").
Definition InvalidTimeValues : error := Error (js "Invalid time values").

(** /^(\d{1,2}):(\d{2})(\s*(AM|PM))?$/i *)
Definition timeRegex : regex :=
  Cat Bol
 (Cat (Group 1 (Cat (Class isDigit) (Opt (Class isDigit))))
 (Cat (Chr ":")
 (Cat (Group 2 (Cat (Class isDigit) (Class isDigit)))
 (Cat (Opt (Group 3 (Cat (Star (Class isWhiteSpace))
                         (Group 4 (Alt (Cat (ChrI "A") (ChrI "M"))
                                       (Cat (ChrI "P") (ChrI "M")))))))
      Eol)))).

(** A string or undefined used as a condition. *)
Definition truthy (v : option jsstring) : bool :=
  match v with Some (_ :: _) => true | _ => false end.

(** v === 'lit' *)
Definition equals (v : option jsstring) (lit : string) : bool :=
  match v with Some s => eqs s (js lit) | None => false end.

Definition normalizeTime (timeString : jsstring) : exc jsstring :=
  match match_ timeRegex (trim timeString) with
  | None => Throw InvalidTimeFormat
  | Some m =>
      let hours := parseInt (str (m 1%nat)) in
      let minutes := m 2%nat in
      let period := option_map toUpperCase (m 4%nat) in
      let hours :=
        if truthy period then
          let hours :=
            if equals period "PM" && negb (seq hours 12) then add hours 12 else hours in
          if equals period "AM" && seq hours 12 then Int 0 else hours
        else hours in
      if lt hours 0 || gt hours 23
         || lt (parseInt (str minutes)) 0 || gt (parseInt (str minutes)) 59
      then Throw InvalidTimeValues
      else Return (padStart 2 (chr "0") (numberToString hours)
                     ++ js ":" ++ str minutes)
  end.

(** *** normalizeDate *)

Definition InvalidDateFormat : error := Error (js "Invalid date format").

Local Open Scope Z_scope.

Definition msPerDay : Z := 86400000.

(** Year, month (1 to 12) and day of the month of a day number counted
    from 1970-01-01, in the proleptic Gregorian calendar: YearFromTime,
    MonthFromTime + 1 and DateFromTime of ECMA-262. *)
Definition civil (day : Z) : Z * Z * Z :=
  let z := day + 719468 in
  let era := z / 146097 in
  let doe := z mod 146097 in
  let yoe := (doe - doe / 1460 + doe / 36524 - doe / 146096) / 365 in
  let doy := doe - (365 * yoe + yoe / 4 - yoe / 100) in
  let mp := (5 * doy + 2) / 153 in
  let d := doy - (153 * mp + 2) / 5 + 1 in
  let m := if mp <? 10 then mp + 3 else mp - 9 in
  (yoe + era * 400 + (if m <=? 2 then 1 else 0), m, d).

(** A non-negative integer in at least [width] decimal digits. *)
Definition pad (width : nat) (n : Z) : jsstring :=
  padStart width (chr "0") (digitsOf (Z.to_N n)).

(** Date.prototype.toISOString of a time value (milliseconds since the
    epoch, UTC): YYYY-MM-DDTHH:mm:ss.sssZ, the year in the expanded form
    of sign and six digits outside 0..9999. *)
Definition toISOString (t : Z) : jsstring :=
  let ms := t mod msPerDay in
  let '(y, m, d) := civil (t / msPerDay) in
  let year := if (0 <=? y) && (y <=? 9999) then pad 4 y
              else chr (if y <? 0 then "-" else "+") :: pad 6 (Z.abs y) in
  year ++ js "-" ++ pad 2 m ++ js "-" ++ pad 2 d ++ js "T"
    ++ pad 2 (ms / 3600000) ++ js ":" ++ pad 2 (ms / 60000 mod 60) ++ js ":"
    ++ pad 2 (ms / 1000 mod 60) ++ js "." ++ pad 3 (ms mod 1000) ++ js "Z".

Local Close Scope Z_scope.

(** String.prototype.split at a separator of one code unit. *)
Fixpoint split (sep : N) (s : jsstring) : list jsstring :=
  match s with
  | [] => [[]]
  | c :: t =>
      if N.eqb c sep then [] :: split sep t
      else match split sep t with
           | h :: r => (c :: h) :: r
           | [] => [[c]]
           end
  end.

Section HostDate.

(** The time value of [new Date(s)], [None] when it is NaN.  Which texts
    the parser accepts beyond the ISO format, and the instant it gives
    them, is left to the host by ECMA-262. *)
Variable dateParse : jsstring -> option Z.

Definition normalizeDate (dateString : jsstring) : exc jsstring :=
  match dateParse dateString with
  | None => Throw InvalidDateFormat
  | Some t => Return (hd [] (split (chr "T") (toISOString t)))
  end.

End HostDate.

(** ** The document store and the effects of a request *)

Definition ObjectId : Type := N.

(** A document as stored: the schema's fields, the identifier and the
    time stamps that the option [timestamps] adds. *)
Record stored (F : Type) : Type := Stored {
  _id : ObjectId;
  fields : F;
  createdAt : N;
  updatedAt : N
}.

(** A document in the hands of a pre-save hook. *)
Record document (F : Type) : Type := Document {
  isNew : bool;
  modifiedPaths : list string;
  doc : F
}.

Definition isModified {F : Type} (d : document F) (path : string) : bool :=
  existsb (String.eqb path) (modifiedPaths d).

(** interface IEvent; a field that was never set is undefined, [None]. *)
Record IEvent : Type := mkEvent {
  title : option jsstring;
  slug : option jsstring;
  description : option jsstring;
  overview : option jsstring;
  image : option jsstring;
  venue : option jsstring;
  location : option jsstring;
  date : option jsstring;
  time : option jsstring;
  mode : option jsstring;
  audience : option jsstring;
  agenda : list jsstring;
  organizer : option jsstring;
  tags : list jsstring
}.

(** interface IBooking *)
Record IBooking : Type := mkBooking {
  eventId : ObjectId;
  email : jsstring
}.

(** What a request does to the world outside it, in the order in which it
    happens. *)
Inductive effect : Type :=
| Connected                         (* connectDB() settled *)
| UploadSettled (ok : bool)         (* the upload promise settled *)
| EventSaveCalled                   (* Event.create entered *)
| EventInserted (id : ObjectId)
| EventLookup (id : ObjectId)       (* Event.findById *)
| BookingSaveCalled                 (* Booking.create entered *)
| BookingInserted (id : ObjectId)
| ConsoleError.

Record world : Type := World {
  events : list (stored IEvent);      (* the Event collection *)
  bookings : list (stored IBooking);  (* the Booking collection *)
  assets : list (list N);             (* what the image host holds *)
  clock : N;                          (* source of ids and time stamps *)
  trace : list effect
}.

(** Asynchronous code that is awaited at every step: a function of the
    world that returns or throws. *)
Definition M (A : Type) : Type := world -> exc A * world.

Definition ret {A : Type} (a : A) : M A := fun w => (Return a, w).
Definition throw {A : Type} (e : error) : M A := fun w => (Throw e, w).

Definition bind {A B : Type} (m : M A) (k : A -> M B) : M B :=
  fun w => match m w with
           | (Return a, w') => k a w'
           | (Throw e, w') => (Throw e, w')
           end.

(** try { m } catch (e) { handler e } *)
Definition tryCatch {A : Type} (m : M A) (handler : error -> M A) : M A :=
  fun w => match m w with
           | (Return a, w') => (Return a, w')
           | (Throw e, w') => handler e w'
           end.

Definition lift {A : Type} (r : exc A) : M A := fun w => (r, w).

Definition emit (e : effect) : M unit :=
  fun w => (Return tt,
            World (events w) (bookings w) (assets w) (clock w) (trace w ++ [e])).

Declare Scope js_scope.
Delimit Scope js_scope with M.
Notation "x <- m ;; k" := (bind m (fun x => k))
  (at level 61, m at next level, right associativity) : js_scope.
Notation "m ;; k" := (bind m (fun _ => k))
  (at level 61, right associativity) : js_scope.
Local Open Scope js_scope.

(** The same for code that only returns or throws. *)
Definition andThen {A B : Type} (r : exc A) (k : A -> exc B) : exc B :=
  match r with Return a => k a | Throw e => Throw e end.

(** ** What the host decides *)

(** The values of JSON.parse. *)
Inductive json : Type :=
| JNull
| JBool (b : bool)
| JNumber (literal : jsstring)
| JString (s : jsstring)
| JArray (items : list json)
| JObject (members : list (jsstring * json)).

(** The result object of the image host's upload. *)
Record UploadResult : Type := { secure_url : option jsstring }.

Record Host : Type := {
  dateParse : jsstring -> option Z;           (* new Date(s).getTime() *)
  jsonParse : jsstring -> exc json;           (* JSON.parse(s) *)
  castStrings : json -> exc (list jsstring);  (* mongoose: cast to [String] *)
  castObjectId : jsstring -> option ObjectId; (* mongoose: cast to ObjectId *)
  connecting : exc unit;                      (* how connectDB() settles *)
  uploading : list N -> exc UploadResult      (* how upload_stream settles *)
}.

(** ** event.model.ts: the schema and its pre-save hook *)

Definition withSlug (v : option jsstring) (e : IEvent) : IEvent :=
  mkEvent (title e) v (description e) (overview e) (image e) (venue e)
          (location e) (date e) (time e) (mode e) (audience e) (agenda e)
          (organizer e) (tags e).

Definition withDate (v : option jsstring) (e : IEvent) : IEvent :=
  mkEvent (title e) (slug e) (description e) (overview e) (image e) (venue e)
          (location e) v (time e) (mode e) (audience e) (agenda e)
          (organizer e) (tags e).

Definition withTime (v : option jsstring) (e : IEvent) : IEvent :=
  mkEvent (title e) (slug e) (description e) (overview e) (image e) (venue e)
          (location e) (date e) v (mode e) (audience e) (agenda e)
          (organizer e) (tags e).

(** The setters of the path slug (lowercase: true, trim: true), which an
    assignment to it goes through. *)
Definition slugSetter (v : jsstring) : jsstring := trim (toLowerCase v).

(** The setters that the schema puts on its paths (trim: true). *)
Definition eventSetters (e : IEvent) : IEvent :=
  mkEvent (option_map trim (title e)) (option_map slugSetter (slug e))
          (option_map trim (description e)) (option_map trim (overview e))
          (option_map trim (image e)) (option_map trim (venue e))
          (option_map trim (location e)) (date e) (time e) (mode e)
          (option_map trim (audience e)) (agenda e)
          (option_map trim (organizer e)) (tags e).

Definition failure : Type := (string * string)%type.   (* path, message *)

(** required: [true, msg] on a String path *)
Definition required (path msg : string) (v : option jsstring) : list failure :=
  match v with Some (_ :: _) => [] | _ => [(path, msg)] end.

(** maxlength: [n, msg] *)
Definition maxlength (n : nat) (path msg : string) (v : option jsstring)
  : list failure :=
  match v with
  | Some s => if Nat.ltb n (List.length s) then [(path, msg)] else []
  | None => []
  end.

(** enum: { values, message } *)
Definition enum (values : list string) (path msg : string)
           (v : option jsstring) : list failure :=
  match v with
  | Some s => if existsb (fun x => eqs s (js x)) values then [] else [(path, msg)]
  | None => []
  end.

(** validate: { validator: v => v.length > 0, message } *)
Definition nonEmpty (path msg : string) (v : list jsstring) : list failure :=
  match v with [] => [(path, msg)] | _ :: _ => [] end.

(** The validators of EventSchema, path by path, required first; of the
    validators of one path the first that fails is reported.  The path
    slug has none. *)
Definition validateEvent (e : IEvent) : list failure :=
  required "title" "Title is required" (title e)
  ++ maxlength 100 "title" "Title cannot exceed 100 characters" (title e)
  ++ required "description" "Description is required" (description e)
  ++ maxlength 1000 "description" "Description cannot exceed 1000 characters"
       (description e)
  ++ required "overview" "Overview is required" (overview e)
  ++ maxlength 500 "overview" "Overview cannot exceed 500 characters" (overview e)
  ++ required "image" "Image URL is required" (image e)
  ++ required "venue" "Venue is required" (venue e)
  ++ required "location" "Location is required" (location e)
  ++ required "date" "Date is required" (date e)
  ++ required "time" "Time is required" (time e)
  ++ match required "mode" "Mode is required" (mode e) with
     | [] => enum ["online"; "offline"; "hybrid"]%string "mode"
               "Mode must be either online, offline, or hybrid" (mode e)
     | fs => fs           (* the first validator that fails speaks *)
     end
  ++ required "audience" "Audience is required" (audience e)
  ++ nonEmpty "agenda" "At least one agenda item is required" (agenda e)
  ++ required "organizer" "Organizer is required" (organizer e)
  ++ nonEmpty "tags" "At least one tag is required" (tags e).

(** The message of mongoose's ValidationError. *)
Definition validationMessage (model : string) (fs : list failure) : jsstring :=
  js (model ++ " validation failed: "
      ++ String.concat ", " (map (fun f => fst f ++ ": " ++ snd f) fs))%string.

(** Reading a property of undefined. *)
Definition undefinedReceiver (property : string) : error :=
  TypeError (js ("Cannot read properties of undefined (reading '"
                 ++ property ++ "')")%string).

Section Entities.

Variable host : Host.

(** EventSchema.pre('save', ...) *)
Definition eventPreSave (event : document IEvent) : exc IEvent :=
  let e := doc event in
  andThen
    (if isModified event "title" || isNew event then
       match title e with
       | Some t => Return (withSlug (Some (slugSetter (generateSlug t))) e)
       | None => Throw (undefinedReceiver "toLowerCase")
       end
     else Return e)
    (fun e =>
  andThen
    (if isModified event "date" then
       match date e with
       | Some d => andThen (normalizeDate (dateParse host) d)
                           (fun d' => Return (withDate (Some d') e))
       | None => Throw InvalidDateFormat    (* new Date(undefined) is NaN *)
       end
     else Return e)
    (fun e =>
     if isModified event "time" then
       match time e with
       | Some t => andThen (normalizeTime t)
                           (fun t' => Return (withTime (Some t') e))
       | None => Throw (undefinedReceiver "trim")
       end
     else Return e)).

Definition sameSlug (a b : option jsstring) : bool :=
  match a, b with
  | Some x, Some y => eqs x y
  | None, None => true
  | _, _ => false
  end.

(** The insert, under EventSchema.index({ slug: 1 }, { unique: true }).
    The identifier and the time stamps are those that mongoose gives a
    document that comes without them: new ones, here the value of the
    clock. *)
Definition insertEvent (e : IEvent) : M (stored IEvent) :=
  fun w =>
    if existsb (fun d => sameSlug (slug (fields d)) (slug e)) (events w)
    then (Throw (MongoServerError (js "E11000 duplicate key error index: slug_1")), w)
    else
      let d := Stored (clock w) e (clock w) (clock w) in
      (Return d,
       World (events w ++ [d]) (bookings w) (assets w) (N.succ (clock w))
             (trace w ++ [EventInserted (clock w)])).

Definition isSet (v : option jsstring) (path : string) : list string :=
  match v with Some _ => [path] | None => [] end.

(** The paths that the constructor of a new document has set. *)
Definition eventPaths (e : IEvent) : list string :=
  isSet (title e) "title" ++ isSet (slug e) "slug"
  ++ isSet (description e) "description" ++ isSet (overview e) "overview"
  ++ isSet (image e) "image" ++ isSet (venue e) "venue"
  ++ isSet (location e) "location" ++ isSet (date e) "date"
  ++ isSet (time e) "time" ++ isSet (mode e) "mode"
  ++ isSet (audience e) "audience" ++ ["agenda"%string]
  ++ isSet (organizer e) "organizer" ++ ["tags"%string].

(** Event.create(o), for [o] cast to the types of the schema's paths (a
    cast that fails rejects the save): a new document, its setters, the
    validation (mongoose registers it as the first pre-save hook), then
    the hook of the schema, then the insert. *)
Definition Event_create (cast : exc IEvent) : M (stored IEvent) :=
  emit EventSaveCalled ;;
  input <- lift cast ;;
  let e := eventSetters input in
  match validateEvent e with
  | (_ :: _) as fs => throw (ValidationError (validationMessage "Event" fs))
  | [] =>
      e' <- lift (eventPreSave (Document true (eventPaths e) e)) ;;
      insertEvent e'
  end.

End Entities.

(** ** booking.model.ts: the schema and its pre-save hook *)

Definition isAlnum (c : N) : bool := isLower c || isUpper c || isDigit c.

Definition oneOf (set : string) (c : N) : bool := existsb (N.eqb c) (js set).

(** (?:[a-zA-Z0-9-]{0,61}[a-zA-Z0-9])? *)
Definition labelTail : regex :=
  Opt (Cat (UpTo 61 (Class (fun c => isAlnum c || N.eqb c (chr "-"))))
           (Class isAlnum)).

(** The pattern of the email validator. *)
Definition emailRegex : regex :=
  Cat Bol
 (Cat (Plus (Class (fun c => isAlnum c || oneOf ".!#$%&'*+/=?^_`{|}~-" c)))
 (Cat (Chr "@")
 (Cat (Class isAlnum)
 (Cat labelTail
 (Cat (Star (Cat (Chr ".") (Cat (Class isAlnum) labelTail)))
      Eol))))).

(** What createBooking hands to Booking.create. *)
Record BookingInput : Type := {
  eventIdArg : jsstring;
  slugArg : jsstring;       (* no path of the schema: dropped *)
  emailArg : jsstring
}.

(** ObjectId.prototype.toString: 24 hexadecimal digits. *)
Fixpoint hexOf (k : nat) (n : N) (acc : jsstring) : jsstring :=
  match k with
  | O => acc
  | S k' =>
      let d := (n mod 16)%N in
      hexOf k' (n / 16)%N ((if N.ltb d 10 then 48 + d else 87 + d)%N :: acc)
  end.

Definition hex24 (id : ObjectId) : jsstring := hexOf 24 id [].

Definition EventNotFound (id : ObjectId) : error :=
  Error (js "Event with ID " ++ hex24 id ++ js " does not exist").

Section Bookings.

Variable host : Host.

(** Event.findById(id).select('_id').lean() *)
Definition findEventById (id : ObjectId) : M (option ObjectId) :=
  emit (EventLookup id) ;;
  fun w => (Return (option_map (@_id IEvent)
                      (find (fun d => N.eqb (_id d) id) (events w))), w).

(** BookingSchema.pre('save', ...) *)
Definition bookingPreSave (booking : document IBooking) : M unit :=
  if negb (isNew booking) && negb (isModified booking "eventId") then ret tt
  else
    eventExists <- findEventById (eventId (doc booking)) ;;
    match eventExists with
    | None => throw (EventNotFound (eventId (doc booking)))
    | Some _ => ret tt
    end.

(** The setters of the path email (trim: true, lowercase: true). *)
Definition emailSetter (v : jsstring) : jsstring := trim (toLowerCase v).

(** The validators of BookingSchema on the values of a new document. *)
Definition validateBooking (input : BookingInput) : list failure :=
  (match castObjectId host (eventIdArg input) with
   | Some _ => []
   | None => [("eventId", "Cast to ObjectId failed")%string]
   end)
  ++ match required "email" "Email is required"
             (Some (emailSetter (emailArg input))) with
     | [] => if test emailRegex (emailSetter (emailArg input)) then []
             else [("email", "Please provide a valid email address")%string]
     | fs => fs
     end.

(** The insert, under the unique index uniq_event_email. *)
Definition insertBooking (b : IBooking) : M (stored IBooking) :=
  fun w =>
    if existsb (fun d => N.eqb (eventId (fields d)) (eventId b)
                         && eqs (email (fields d)) (email b)) (bookings w)
    then (Throw (MongoServerError
                   (js "E11000 duplicate key error index: uniq_event_email")), w)
    else
      let d := Stored (clock w) b (clock w) (clock w) in
      (Return d,
       World (events w) (bookings w ++ [d]) (assets w) (N.succ (clock w))
             (trace w ++ [BookingInserted (clock w)])).

(** Booking.create(input): validation, the hook, the insert. *)
Definition Booking_create (input : BookingInput) : M (stored IBooking) :=
  emit BookingSaveCalled ;;
  match validateBooking input, castObjectId host (eventIdArg input) with
  | [], Some id =>
      let b := mkBooking id (emailSetter (emailArg input)) in
      bookingPreSave (Document true ["eventId"; "email"]%string b) ;;
      insertBooking b
  | fs, _ => throw (ValidationError (validationMessage "Booking" fs))
  end.

End Bookings.

(** ** app/api/events/route.ts: POST *)

Record File : Type := { fileName : jsstring; content : list N }.

(** An entry of a multipart form: a string or a file. *)
Inductive entry : Type :=
| Text (s : jsstring)
| Blob (f : File).

Definition FormData : Type := list (jsstring * entry).

(** The request, as far as the handler reads it: how req.formData()
    settles. *)
Record NextRequest : Type := { formData : exc FormData }.

(** The values of the properties of the object [event]. *)
Inductive value : Type :=
| VString (s : jsstring)
| VFile (f : File)
| VJson (j : json)
| VUndefined.

Definition object : Type := list (jsstring * value).

(** o[key] = v *)
Fixpoint setProp (key : jsstring) (v : value) (o : object) : object :=
  match o with
  | [] => [(key, v)]
  | (k, x) :: t => if eqs k key then (k, v) :: t else (k, x) :: setProp key v t
  end.

Fixpoint getProp (key : jsstring) (o : object) : option value :=
  match o with
  | [] => None
  | (k, x) :: t => if eqs k key then Some x else getProp key t
  end.

Definition entryValue (e : entry) : value :=
  match e with Text s => VString s | Blob f => VFile f end.

(** Object.fromEntries(formData.entries()): a later entry of the same
    name replaces an earlier one. *)
Definition fromEntries (fd : FormData) : exc object :=
  Return (fold_left (fun o kv => setProp (fst kv) (entryValue (snd kv)) o) fd []).

(** formData.get(name): the first entry of that name, or null. *)
Fixpoint get (name : string) (fd : FormData) : option entry :=
  match fd with
  | [] => None
  | (k, e) :: t => if eqs k (js name) then Some e else get name t
  end.

(** !file *)
Definition falsy (e : option entry) : bool :=
  match e with
  | None | Some (Text []) => true
  | Some (Text (_ :: _)) | Some (Blob _) => false
  end.

(** ToString of an entry or null, as JSON.parse applies it. *)
Definition entryString (e : option entry) : jsstring :=
  match e with
  | None => js "null"
  | Some (Text s) => s
  | Some (Blob _) => js "[object File]"
  end.

(** file.arrayBuffer() *)
Definition arrayBuffer (e : option entry) : exc (list N) :=
  match e with
  | Some (Blob f) => Return (content f)
  | _ => Throw (TypeError (js "file.arrayBuffer is not a function"))
  end.

Inductive payload : Type :=
| PString (s : jsstring)
| PEvent (e : stored IEvent).

(** NextResponse.json(body, { status }) *)
Record NextResponse : Type := {
  body : list (string * payload);
  status : N
}.

Definition NextResponse_json (b : list (string * payload)) (st : N)
  : NextResponse := {| body := b; status := st |}.

Section Route.

Variable host : Host.

Definition connectDB : M unit :=
  emit Connected ;; lift (connecting host).

(** await new Promise((resolve, reject) => upload_stream(..., callback)
    .end(buffer)): the promise settles when the callback runs. *)
Definition upload (buffer : list N) : M UploadResult :=
  fun w =>
    match uploading host buffer with
    | Return r =>
        (Return r, World (events w) (bookings w) (assets w ++ [buffer])
                         (clock w) (trace w ++ [UploadSettled true]))
    | Throw e =>
        (Throw e, World (events w) (bookings w) (assets w)
                        (clock w) (trace w ++ [UploadSettled false]))
    end.

(** The cast of a property to a String path of the schema. *)
Definition castString (path : string) (o : object) : exc (option jsstring) :=
  match getProp (js path) o with
  | None | Some VUndefined => Return None
  | Some (VString s) => Return (Some s)
  | Some (VFile _) | Some (VJson _) =>
      Throw (ValidationError (js ("Cast to string failed at path " ++ path)%string))
  end.

(** The cast of a property to a [String] path of the schema. *)
Definition castArray (path : string) (o : object) : exc (list jsstring) :=
  match getProp (js path) o with
  | Some (VJson j) => castStrings host j
  | _ => Throw (ValidationError (js ("Cast to Array failed at path " ++ path)%string))
  end.

(** new Event(o): the paths of the schema that the form of an event
    fills, cast to their types.  The object that POST builds holds every
    entry of the form; the paths _id, createdAt and updatedAt, which a
    caller could send as well, are not read here: [insertEvent] gives the
    document its identifier and its time stamps. *)
Definition castEvent (o : object) : exc IEvent :=
  andThen (castString "title" o) (fun title =>
  andThen (castString "slug" o) (fun slug =>
  andThen (castString "description" o) (fun description =>
  andThen (castString "overview" o) (fun overview =>
  andThen (castString "image" o) (fun image =>
  andThen (castString "venue" o) (fun venue =>
  andThen (castString "location" o) (fun location =>
  andThen (castString "date" o) (fun date =>
  andThen (castString "time" o) (fun time =>
  andThen (castString "mode" o) (fun mode =>
  andThen (castString "audience" o) (fun audience =>
  andThen (castArray "agenda" o) (fun agenda =>
  andThen (castString "organizer" o) (fun organizer =>
  andThen (castArray "tags" o) (fun tags =>
  Return (mkEvent title slug description overview image venue location date
                  time mode audience agenda organizer tags))))))))))))))).

Definition ofOption (v : option jsstring) : value :=
  match v with Some s => VString s | None => VUndefined end.

Definition POST (req : NextRequest) : M NextResponse :=
  tryCatch
    (connectDB ;;
     formData <- lift (formData req) ;;
     match fromEntries formData with
     | Throw _ =>
         ret (NextResponse_json
                [("message", PString (js "Invalid JSON data format"))]%string 400)
     | Return event =>
         let file := get "image" formData in
         if falsy file then
           ret (NextResponse_json
                  [("message", PString (js "Image file is required"))]%string 400)
         else
           tags <- lift (jsonParse host (entryString (get "tags" formData))) ;;
           agenda <- lift (jsonParse host (entryString (get "agenda" formData))) ;;
           buffer <- lift (arrayBuffer file) ;;
           uploadResult <- upload buffer ;;
           let event := setProp (js "image") (ofOption (secure_url uploadResult))
                                event in
           createdEvent <- Event_create host
                             (castEvent
                                (setProp (js "agenda") (VJson agenda)
                                   (setProp (js "tags") (VJson tags) event))) ;;
           ret (NextResponse_json
                  [("message", PString (js "Event Created Successfully"));
                   ("event", PEvent createdEvent)]%string 201)
     end)
    (fun e =>
       emit ConsoleError ;;
       ret (NextResponse_json
              [("message", PString (js "Event Creation Failed"));
               ("error", PString (if instanceofError e then message e
                                  else js "Unknown"))]%string 500)).

End Route.

(** ** lib/actions/booking.actions.ts: createBooking *)

(** What the action returns: { success: true, booking } or
    { success: false, error }. *)
Inductive ActionResult : Type :=
| Success (booking : stored IBooking)
| Failure (error : error).

(** d.lean() on the document that Booking.create resolves to.  lean is a
    method of mongoose's Query; neither Document nor Model.prototype has
    a property of that name and BookingSchema declares no method, so the
    member is undefined and the call throws. *)
Definition Document_lean (d : stored IBooking) : exc (stored IBooking) :=
  Throw (TypeError (js "(intermediate value).lean is not a function")).

Section Actions.

Variable host : Host.

Definition createBooking (input : BookingInput) : M ActionResult :=
  tryCatch
    (connectDB host ;;
     created <- Booking_create host input ;;
     booking <- lift (Document_lean created) ;;
     ret (Success booking))
    (fun error =>
       emit ConsoleError ;;
       ret (Failure error)).

End Actions.

(** ** generateSlug as the specification words it

    "lowercase; trim; strip every character not in [a-z0-9\s-]; collapse
    whitespace runs to a single hyphen; collapse repeated hyphens to one;
    strip leading/trailing hyphens", each step a function on lists. *)

Definition isHyphen : N -> bool := N.eqb (chr "-").

(** Every maximal run of units of [p] becomes the one unit [by_];
    [inRun] tells that the unit before was of [p]. *)
Fixpoint squeeze (p : N -> bool) (by_ : N) (inRun : bool) (s : jsstring)
  : jsstring :=
  match s with
  | [] => []
  | c :: t =>
      if p c then (if inRun then squeeze p by_ true t
                   else by_ :: squeeze p by_ true t)
      else c :: squeeze p by_ false t
  end.

Definition stripHyphens (s : jsstring) : jsstring :=
  dropWhileEnd isHyphen (dropWhile isHyphen s).

Definition slugSpec (title : jsstring) : jsstring :=
  stripHyphens
    (squeeze isHyphen (chr "-") false
       (squeeze isWhiteSpace (chr "-") false
          (filter slugClass (trim (toLowerCase title))))).

(** ** Auxiliary functions of the proofs *)

(** The successes of a starred class, longest first. *)
Fixpoint starStates (p : N -> bool) (i : nat) (s : jsstring)
         (cs : list (nat * jsstring)) : list mstate :=
  match s with
  | c :: t => if p c then starStates p (S i) t cs ++ [MState i s cs]
              else [MState i s cs]
  | [] => [MState i s cs]
  end.

(** /^c|c$/g for a class c *)
Definition edge (p : N -> bool) : regex :=
  Alt (Cat Bol (Class p)) (Cat (Class p) Eol).

(** A unit of [p] that ends the string goes. *)
Fixpoint chopEnd (p : N -> bool) (s : jsstring) : jsstring :=
  match s with
  | [] => []
  | c :: t => match t with
              | [] => if p c then [] else [c]
              | _ :: _ => c :: chopEnd p t
              end
  end.

(** No two units of [p] in a row. *)
Fixpoint noAdjacent (p : N -> bool) (s : jsstring) : bool :=
  match s with
  | c :: t => negb (p c && match t with d :: _ => p d | [] => false end)
              && noAdjacent p t
  | [] => true
  end.

Definition startsWith (p : N -> bool) (s : jsstring) : bool :=
  match s with c :: _ => p c | [] => false end.

(** [a-z0-9-] *)
Definition slugChar (c : N) : bool := isLower c || isDigit c || isHyphen c.

(** The slug, before its ends are stripped. *)
Definition slugBody (title : jsstring) : jsstring :=
  squeeze isHyphen (chr "-") false
    (squeeze isWhiteSpace (chr "-") false
       (filter slugClass (trim (toLowerCase title)))).

(** Units that are no ASCII letter or digit and do not become one in
    lower case. *)
Definition plain (c : N) : bool :=
  negb (isAlnum c) && negb (N.eqb c 304) && negb (N.eqb c 8490).

Definition noAlnum (c : N) : bool := negb (isLower c || isDigit c).

(** ** normalizeTime: the accepted pattern, as the specification words it *)

Definition isColon : N -> bool := N.eqb (chr ":").

(** A or a, P or p, M or m *)
Definition isA (c : N) : bool := N.eqb c 65 || N.eqb c 97.
Definition isP (c : N) : bool := N.eqb c 80 || N.eqb c 112.
Definition isM (c : N) : bool := N.eqb c 77 || N.eqb c 109.

Inductive period : Type := AM | PM.

(** The two letters of a period, in either case. *)
Definition periodOf (ap : jsstring) : option period :=
  match ap with
  | [a; m] => if isA a && isM m then Some AM
              else if isP a && isM m then Some PM
              else None
  | _ => None
  end.

(** "H:MM, HH:MM, or either suffixed with case-insensitive AM/PM": the
    text [s] is the hour [hs] of one or two digits, a colon, the minute
    [ms] of two digits and then nothing ([per] is [None]) or white space
    and a period. *)
Definition accepted (s hs ms : jsstring) (per : option period) : Prop :=
  (List.length hs = 1 \/ List.length hs = 2)
  /\ forallb isDigit hs = true
  /\ List.length ms = 2
  /\ forallb isDigit ms = true
  /\ match per with
     | None => s = hs ++ js ":" ++ ms
     | Some x => exists w ap,
         forallb isWhiteSpace w = true /\ periodOf ap = Some x
         /\ s = hs ++ js ":" ++ ms ++ w ++ ap
     end.

(** The number that a string of digits denotes. *)
Definition valueOf (ds : jsstring) : Z :=
  Z.of_N (fold_left (fun a c => 10 * a + (c - 48))%N ds 0%N).

(** "12 AM to 00, 12 PM to 12, h PM to h+12": the hour on the 24-hour
    clock. *)
Definition hour24 (h : Z) (per : option period) : Z :=
  match per with
  | Some AM => if Z.eqb h 12 then 0 else h
  | Some PM => if Z.eqb h 12 then 12 else h + 12
  | None => h
  end%Z.

(** An hour in two digits. *)
Definition twoDigits (h : Z) : jsstring :=
  [Z.to_N (48 + h / 10); Z.to_N (48 + h mod 10)]%Z.

(** The parts that timeRegex finds in a text: hour, minute and the
    letters of the period. *)
Definition timeTail (hs ms s4 : jsstring)
  : option (jsstring * jsstring * option jsstring) :=
  match s4 with
  | [] => Some (hs, ms, None)
  | _ :: _ =>
      match dropWhile isWhiteSpace s4 with
      | [a; m] => if (isA a || isP a) && isM m then Some (hs, ms, Some [a; m])
                  else None
      | _ => None
      end
  end.

Definition timeMinute (hs rest : jsstring)
  : option (jsstring * jsstring * option jsstring) :=
  match rest with
  | c :: d1 :: d2 :: s4 =>
      if isColon c && isDigit d1 && isDigit d2 then timeTail hs [d1; d2] s4
      else None
  | _ => None
  end.

Definition timeParts (s : jsstring)
  : option (jsstring * jsstring * option jsstring) :=
  match s with
  | c1 :: s1 =>
      if isDigit c1 then
        match s1 with
        | c2 :: s2 => if isDigit c2 then timeMinute [c1; c2] s2
                      else timeMinute [c1] s1
        | [] => None
        end
      else None
  | [] => None
  end.

(** (AM|PM) under the flag i *)
Definition ampm : regex :=
  Alt (Cat (ChrI "A") (ChrI "M")) (Cat (ChrI "P") (ChrI "M")).

(** (\s*(AM|PM))?$ *)
Definition timeTailRe : regex :=
  Cat (Opt (Group 3 (Cat (Star (Class isWhiteSpace)) (Group 4 ampm)))) Eol.

(** :(\d{2})(\s*(AM|PM))?$ *)
Definition timeMinuteRe : regex :=
  Cat (Chr ":") (Cat (Group 2 (Cat (Class isDigit) (Class isDigit))) timeTailRe).

(** The body of normalizeTime after the match, on the captures. *)
Definition timeOf (hs ms : jsstring) (ap : option jsstring) : exc jsstring :=
  let hours := parseInt hs in
  let period := option_map toUpperCase ap in
  let hours :=
    if truthy period then
      let hours :=
        if equals period "PM" && negb (seq hours 12) then add hours 12
        else hours in
      if equals period "AM" && seq hours 12 then Int 0 else hours
    else hours in
  if lt hours 0 || gt hours 23 || lt (parseInt ms) 0 || gt (parseInt ms) 59
  then Throw InvalidTimeValues
  else Return (padStart 2 (chr "0") (numberToString hours) ++ js ":" ++ ms).

(** How the letters captured by group 4 stand for a period. *)
Definition denotes (ap : option jsstring) (per : option period) : Prop :=
  match per with
  | None => ap = None
  | Some x => exists a, ap = Some a /\ periodOf a = Some x
  end.

(** ** normalizeDate: the date of an instant, as the specification words it *)

(** The year of Date.prototype.toISOString. *)
Definition isoYear (y : Z) : jsstring :=
  if ((0 <=? y) && (y <=? 9999))%Z then pad 4 y
  else chr (if (y <? 0)%Z then "-" else "+") :: pad 6 (Z.abs y).

(** "only the date portion in ISO form": year, month and day of the
    month, joined by hyphens. *)
Definition isoDate (ymd : Z * Z * Z) : jsstring :=
  let '(y, m, d) := ymd in
  isoYear y ++ js "-" ++ pad 2 m ++ js "-" ++ pad 2 d.

(** The UTC calendar date of a time value. *)
Definition utcDate (t : Z) : Z * Z * Z := civil (t / msPerDay).

(** Ten units of the form YYYY-MM-DD. *)
Definition isYMD (s : jsstring) : bool :=
  match s with
  | [y1; y2; y3; y4; h1; m1; m2; h2; d1; d2] =>
      forallb isDigit [y1; y2; y3; y4; m1; m2; d1; d2]
      && isHyphen h1 && isHyphen h2
  | _ => false
  end.

Fixpoint pow10 (k : nat) : N :=
  match k with
  | O => 1
  | S k' => 10 * pow10 k'
  end.

(** Date.parse as V8 computes it in a zone [offset] minutes east of UTC,
    tabulated on the two texts of the specification's examples: the
    legacy form "March 5, 2024" is read as midnight of that day in local
    time, and "not a date" is rejected. *)
Definition v8Parse (offset : Z) (s : jsstring) : option Z :=
  if eqs s (js "March 5, 2024") then Some (1709596800000 - offset * 60000)%Z
  else None.

Definition notT (c : N) : bool := negb (N.eqb c (chr "T")).

(** The day number of a civil date, counted from 1970-01-01. *)
Definition daysFromCivil (ymd : Z * Z * Z) : Z :=
  let '(y, m, d) := ymd in
  let y' := (if m <=? 2 then y - 1 else y)%Z in
  let era := (y' / 400)%Z in
  let yoe := (y' mod 400)%Z in
  let doy := ((153 * (if 2 <? m then m - 3 else m + 9) + 2) / 5 + d - 1)%Z in
  (era * 146097 + (yoe * 365 + yoe / 4 - yoe / 100 + doy) - 719468)%Z.

(** ** A host: Node with mongoose and the image host

    The functions of the host, concretely, for the scenarios below:
    JSON.parse by the grammar of ECMA-404, the cast of a JSON array of
    strings, ObjectIds of 24 hexadecimal digits, a database that
    connects. *)

Module Node.

Definition isJsonSpace (c : N) : bool :=
  N.eqb c 32 || N.eqb c 9 || N.eqb c 10 || N.eqb c 13.

Definition skipWs (s : jsstring) : jsstring := dropWhile isJsonSpace s.

Definition hexVal (c : N) : option N := digitVal 16 c.

(** The characters of a string after its opening quote. *)
Fixpoint parseChars (s acc : jsstring) : option (jsstring * jsstring) :=
  match s with
  | [] => None
  | c :: t =>
      if N.eqb c 34 then Some (rev acc, t)
      else if N.eqb c (chr "\") then
        match t with
        | e :: t' =>
            if N.eqb e (chr "u") then
              match t' with
              | h1 :: h2 :: h3 :: h4 :: t'' =>
                  match hexVal h1, hexVal h2, hexVal h3, hexVal h4 with
                  | Some a, Some b, Some c', Some d =>
                      parseChars t'' ((((a * 16 + b) * 16 + c') * 16 + d)%N :: acc)
                  | _, _, _, _ => None
                  end
              | _ => None
              end
            else
              match (if N.eqb e 34 then Some e
                     else if N.eqb e (chr "\") then Some e
                     else if N.eqb e (chr "/") then Some e
                     else if N.eqb e (chr "b") then Some 8%N
                     else if N.eqb e (chr "f") then Some 12%N
                     else if N.eqb e (chr "n") then Some 10%N
                     else if N.eqb e (chr "r") then Some 13%N
                     else if N.eqb e (chr "t") then Some 9%N
                     else None) with
              | Some u => parseChars t' (u :: acc)
              | None => None
              end
        | [] => None
        end
      else if N.ltb c 32 then None
      else parseChars t (c :: acc)
  end.

Fixpoint takeWhile (p : N -> bool) (s : jsstring) : jsstring :=
  match s with
  | c :: t => if p c then c :: takeWhile p t else []
  | [] => []
  end.

(** One or more digits, or nothing. *)
Definition digits1 (s : jsstring) : option (jsstring * jsstring) :=
  match takeWhile isDigit s with
  | [] => None
  | ds => Some (ds, dropWhile isDigit s)
  end.

(** A number of JSON: an optional minus, zero or digits that do not
    start with zero, an optional fraction, an optional exponent. *)
Definition parseNumber (s : jsstring) : option (jsstring * jsstring) :=
  let '(sign, s1) := match s with
                     | c :: t => if N.eqb c (chr "-") then ([c], t) else ([], s)
                     | [] => ([], s)
                     end in
  match (match s1 with
         | c :: t => if N.eqb c (chr "0") then Some ([c], t) else digits1 s1
         | [] => None
         end) with
  | None => None
  | Some (int, s2) =>
      match (match s2 with
             | c :: t => if N.eqb c (chr ".")
                         then option_map (fun r => (c :: fst r, snd r)) (digits1 t)
                         else Some ([], s2)
             | [] => Some ([], s2)
             end) with
      | None => None
      | Some (frac, s3) =>
          match (match s3 with
                 | c :: t =>
                     if N.eqb c (chr "e") || N.eqb c (chr "E") then
                       let '(sg, t') :=
                         match t with
                         | x :: u => if N.eqb x (chr "+") || N.eqb x (chr "-")
                                     then ([x], u) else ([], t)
                         | [] => ([], t)
                         end in
                       option_map (fun r => (c :: sg ++ fst r, snd r)) (digits1 t')
                     else Some ([], s3)
                 | [] => Some ([], s3)
                 end) with
          | None => None
          | Some (ex, s4) => Some (sign ++ int ++ frac ++ ex, s4)
          end
      end
  end.

(** [lit] at the head of [s]. *)
Fixpoint literal (lit s : jsstring) : option jsstring :=
  match lit, s with
  | [], _ => Some s
  | a :: l, c :: t => if N.eqb a c then literal l t else None
  | _ :: _, [] => None
  end.

Fixpoint parseValue (fuel : nat) (s : jsstring) : option (json * jsstring) :=
  match fuel with
  | O => None
  | S f =>
      match skipWs s with
      | [] => None
      | c :: t =>
          if N.eqb c 34 then
            option_map (fun r => (JString (fst r), snd r)) (parseChars t [])
          else if N.eqb c (chr "[") then
            match skipWs t with
            | x :: r =>
                if N.eqb x (chr "]") then Some (JArray [], r)
                else
                  (fix items (g : nat) (s : jsstring) (acc : list json)
                     : option (json * jsstring) :=
                     match g with
                     | O => None
                     | S g' =>
                         match parseValue f s with
                         | Some (v, r) =>
                             match skipWs r with
                             | y :: r' =>
                                 if N.eqb y (chr ",") then items g' r' (v :: acc)
                                 else if N.eqb y (chr "]")
                                      then Some (JArray (rev (v :: acc)), r')
                                      else None
                             | [] => None
                             end
                         | None => None
                         end
                     end) f t []
            | [] => None
            end
          else if N.eqb c (chr "{") then
            match skipWs t with
            | x :: r =>
                if N.eqb x (chr "}") then Some (JObject [], r)
                else
                  (fix members (g : nat) (s : jsstring)
                       (acc : list (jsstring * json)) : option (json * jsstring) :=
                     match g with
                     | O => None
                     | S g' =>
                         match skipWs s with
                         | q :: s1 =>
                             if N.eqb q 34 then
                               match parseChars s1 [] with
                               | Some (k, s2) =>
                                   match skipWs s2 with
                                   | col :: s3 =>
                                       if N.eqb col (chr ":") then
                                         match parseValue f s3 with
                                         | Some (v, r) =>
                                             match skipWs r with
                                             | y :: r' =>
                                                 if N.eqb y (chr ",")
                                                 then members g' r' ((k, v) :: acc)
                                                 else if N.eqb y (chr "}")
                                                 then Some (JObject (rev ((k, v) :: acc)), r')
                                                 else None
                                             | [] => None
                                             end
                                         | None => None
                                         end
                                       else None
                                   | [] => None
                                   end
                               | None => None
                               end
                             else None
                         | [] => None
                         end
                     end) f t []
            | [] => None
            end
          else
            match literal (js "null") (c :: t), literal (js "true") (c :: t),
                  literal (js "false") (c :: t) with
            | Some r, _, _ => Some (JNull, r)
            | _, Some r, _ => Some (JBool true, r)
            | _, _, Some r => Some (JBool false, r)
            | _, _, _ =>
                option_map (fun r => (JNumber (fst r), snd r)) (parseNumber (c :: t))
            end
      end
  end.

(** JSON.parse(text) *)
Definition JSON_parse (text : jsstring) : exc json :=
  match parseValue (S (List.length text)) text with
  | Some (v, r) =>
      match skipWs r with
      | [] => Return v
      | _ :: _ => Throw (SyntaxError (text ++ js " is not valid JSON"))
      end
  | None => Throw (SyntaxError (text ++ js " is not valid JSON"))
  end.

(** The cast of a JSON array of strings to [String]; mongoose's casts of
    other values are not needed below and are refused here. *)
Definition castStringArray (j : json) : exc (list jsstring) :=
  match j with
  | JArray items =>
      fold_right (fun v acc =>
                    match v, acc with
                    | JString s, Return l => Return (s :: l)
                    | _, Throw e => Throw e
                    | _, _ => Throw (ValidationError (js "Cast to [string] failed"))
                    end) (Return []) items
  | _ => Throw (ValidationError (js "Cast to [string] failed"))
  end.

(** An ObjectId from its 24 hexadecimal digits. *)
Definition objectIdOfHex (s : jsstring) : option ObjectId :=
  if Nat.eqb (List.length s) 24
     && forallb (fun c => match hexVal c with Some _ => true | None => false end) s
  then digitsPrefix 16 s None
  else None.

(** The image host accepts the payload and answers with its URL. *)
Definition accepts (payload : list N) : exc UploadResult :=
  Return {| secure_url :=
              Some (js "https://res.cloudinary.com/demo/image/upload/DevEvent/a.png") |}.

(** The image host rejects the payload; its error is a plain object. *)
Definition rejects (payload : list N) : exc UploadResult :=
  Throw (Thrown (js "{ message: 'Invalid image file', http_code: 400 }")).

(** Node in a zone [offset] minutes east of UTC. *)
Definition host (offset : Z) (assetHost : list N -> exc UploadResult) : Host :=
  {| dateParse := v8Parse offset;
     jsonParse := JSON_parse;
     castStrings := castStringArray;
     castObjectId := objectIdOfHex;
     connecting := Return tt;
     uploading := assetHost |}.

End Node.

(** ** The responses of POST and the worlds it leaves *)

Definition created (d : stored IEvent) : NextResponse :=
  NextResponse_json
    [("message", PString (js "Event Created Successfully"));
     ("event", PEvent d)]%string 201.

Definition badRequest (msg : string) : NextResponse :=
  NextResponse_json [("message", PString (js msg))]%string 400.

Definition failed (e : error) : NextResponse :=
  NextResponse_json
    [("message", PString (js "Event Creation Failed"));
     ("error", PString (if instanceofError e then message e else js "Unknown"))]%string
    500.

(** The world [w] after the effects [tr], the stores as they were. *)
Definition logged (w : world) (tr : list effect) : world :=
  World (events w) (bookings w) (assets w) (clock w) (trace w ++ tr).

(** The object that POST hands to Event.create. *)
Definition eventObject (host : Host) (fd : FormData) (tags agenda : json)
           (r : UploadResult) : exc IEvent :=
  match fromEntries fd with
  | Return event =>
      castEvent host
        (setProp (js "agenda") (VJson agenda)
           (setProp (js "tags") (VJson tags)
              (setProp (js "image") (ofOption (secure_url r)) event)))
  | Throw e => Throw e
  end.

(** The world when the upload has settled with success. *)
Definition uploaded (w : world) (buffer : list N) : world :=
  World (events w) (bookings w) (assets w ++ [buffer]) (clock w)
        (trace w ++ [Connected; UploadSettled true]).

(** The steps between the image check and the upload: the two
    JSON.parse and file.arrayBuffer(). *)
Definition prepared (host : Host) (fd : FormData)
  : exc (json * json * list N) :=
  andThen (jsonParse host (entryString (get "tags" fd))) (fun tags =>
  andThen (jsonParse host (entryString (get "agenda" fd))) (fun agenda =>
  andThen (arrayBuffer (get "image" fd)) (fun buffer =>
  Return (tags, agenda, buffer)))).

(** An Event of this identifier is in the collection. *)
Definition eventExists (id : ObjectId) (w : world) : bool :=
  existsb (fun d => N.eqb (_id d) id) (events w).

(** ** Scenarios *)

Module Scenario.

(** A JSON string: the text between quotation marks. *)
Definition quoted (s : string) : jsstring := 34%N :: js s ++ [34%N].

Definition poster : File :=
  {| fileName := js "poster.png"; content := [137; 80; 78; 71]%N |}.

(** The form of a new event, with the given title, tags and image. *)
Definition form (title : string) (tags : jsstring) (image : list (jsstring * entry))
  : FormData :=
  [(js "title", Text (js title));
   (js "description", Text (js "A day of talks on the web platform"));
   (js "overview", Text (js "Talks and workshops"));
   (js "venue", Text (js "Main hall"));
   (js "location", Text (js "Lisbon"));
   (js "date", Text (js "March 5, 2024"));
   (js "time", Text (js "2:30 PM"));
   (js "mode", Text (js "online"));
   (js "audience", Text (js "Developers"));
   (js "organizer", Text (js "The web guild"));
   (js "tags", Text tags);
   (js "agenda", Text (js "[" ++ quoted "Keynote" ++ js "]"))]
  ++ image.

Definition goodTags : jsstring :=
  js "[" ++ quoted "cloud" ++ js "," ++ quoted "web" ++ js "]".

Definition withPoster : list (jsstring * entry) := [(js "image", Blob poster)].

Definition request (fd : FormData) : NextRequest := {| formData := Return fd |}.

(** An empty store. *)
Definition empty : world := World [] [] [] 1 [].

(** The fields of a valid event with the given title. *)
Definition fieldsOf (title : jsstring) : IEvent :=
  mkEvent (Some title) None (Some (js "A day of talks")) (Some (js "Talks"))
          (Some (js "https://res.cloudinary.com/demo/a.png"))
          (Some (js "Main hall")) (Some (js "Lisbon"))
          (Some (js "March 5, 2024")) (Some (js "2:30 PM"))
          (Some (js "online")) (Some (js "Developers")) [js "Keynote"]
          (Some (js "The web guild")) [js "web"].

(** The store after one event has been created in the empty store. *)
Definition oneEvent : world :=
  snd (Event_create (Node.host 0 Node.accepts)
                    (Return (fieldsOf (js "Launch day"))) empty).

Definition booking (eventId : jsstring) : BookingInput :=
  {| eventIdArg := eventId; slugArg := js "launch-day";
     emailArg := js " Ada@Example.org " |}.

End Scenario.


(** ** Further notions *)

(** [a-z0-9] *)
Definition lowerAlnum (c : N) : bool := isLower c || isDigit c.

(** A time of the 24-hour clock in the form HH:MM: two digits up to 23, a
    colon, two digits up to 59. *)
Definition isHHMM (s : jsstring) : bool :=
  match s with
  | [h1; h2; c; m1; m2] =>
      forallb isDigit [h1; h2; m1; m2] && isColon c
      && (valueOf [h1; h2] <=? 23)%Z && (valueOf [m1; m2] <=? 59)%Z
  | _ => false
  end.

(** ** What a pattern matches

    [matches r i u v]: the pattern [r] matches the text [u] where [u]
    starts at index [i] of the input and is followed there by [v].  A
    round of a star that matches the empty text is left out, as the
    matcher rejects it. *)
Inductive matches : regex -> nat -> jsstring -> jsstring -> Prop :=
| MEps (i : nat) (v : jsstring) : matches Eps i [] v
| MClass (p : N -> bool) (c : N) (i : nat) (v : jsstring) :
    p c = true -> matches (Class p) i [c] v
| MCat (r1 r2 : regex) (i : nat) (u1 u2 v : jsstring) :
    matches r1 i u1 (u2 ++ v) ->
    matches r2 (i + List.length u1) u2 v ->
    matches (Cat r1 r2) i (u1 ++ u2) v
| MAltL (r1 r2 : regex) (i : nat) (u v : jsstring) :
    matches r1 i u v -> matches (Alt r1 r2) i u v
| MAltR (r1 r2 : regex) (i : nat) (u v : jsstring) :
    matches r2 i u v -> matches (Alt r1 r2) i u v
| MStar0 (r : regex) (i : nat) (v : jsstring) : matches (Star r) i [] v
| MStarS (r : regex) (i : nat) (u1 u2 v : jsstring) :
    u1 <> [] ->
    matches r i u1 (u2 ++ v) ->
    matches (Star r) (i + List.length u1) u2 v ->
    matches (Star r) i (u1 ++ u2) v
| MBol (v : jsstring) : matches Bol 0 [] v
| MEol (i : nat) : matches Eol i [] []
| MGroup (n : nat) (r : regex) (i : nat) (u v : jsstring) :
    matches r i u v -> matches (Group n r) i u v.

(** A success [m'] of the matcher from [m], as a match of the pattern. *)
Definition extends (r : regex) (m m' : mstate) : Prop :=
  exists u, rest m = u ++ rest m'
            /\ pos m' = pos m + List.length u
            /\ matches r (pos m) u (rest m').

(** ** The addresses that the pattern of the email validator describes *)

(** [a-zA-Z0-9.!#$%&'*+/=?^_`{|}~-] *)
Definition localChar (c : N) : bool :=
  isAlnum c || oneOf ".!#$%&'*+/=?^_`{|}~-" c.

(** [a-zA-Z0-9-] *)
Definition labelChar (c : N) : bool := isAlnum c || N.eqb c (chr "-").

(** A label of a domain name: 1 to 63 letters, digits and hyphens, the
    first and the last of them no hyphen. *)
Definition isLabel (l : jsstring) : bool :=
  (1 <=? List.length l)%nat && (List.length l <=? 63)%nat
  && forallb labelChar l && isAlnum (hd 0%N l) && isAlnum (last l 0%N).

(** Labels joined by dots. *)
Definition dotted (l : jsstring) (ls : list jsstring) : jsstring :=
  l ++ flat_map (fun x => chr "." :: x) ls.

(** A non-empty local part, an at sign and one or more labels joined by
    dots. *)
Definition emailShape (s : jsstring) : Prop :=
  exists (local l : jsstring) (ls : list jsstring),
    s = local ++ js "@" ++ dotted l ls
    /\ local <> [] /\ forallb localChar local = true
    /\ forallb isLabel (l :: ls) = true.

(** The text after the first unit of a label. *)
Definition isLabelTail (t : jsstring) : Prop :=
  t = [] \/ exists x c, t = x ++ [c] /\ List.length x <= 61
                        /\ forallb labelChar x = true /\ isAlnum c = true.

(** (?:\.label)* *)
Definition moreLabels : regex :=
  Star (Cat (Chr ".") (Cat (Class isAlnum) labelTail)).

(** ** Dates of the form YYYY-MM-DD as Date.parse must read them *)

Definition sameDate (a b : Z * Z * Z) : bool :=
  let '(y, m, d) := a in
  let '(y', m', d') := b in
  ((y =? y') && (m =? m') && (d =? d'))%Z.

(** The date-only form of the Date Time String Format of ECMA-262: the
    UTC midnight of the date, when the calendar has that date. *)
Definition isoParse (s : jsstring) : option Z :=
  match s with
  | [y1; y2; y3; y4; _; m1; m2; _; d1; d2] =>
      let ymd := (valueOf [y1; y2; y3; y4], valueOf [m1; m2], valueOf [d1; d2]) in
      if isYMD s && sameDate (civil (daysFromCivil ymd)) ymd
      then Some (daysFromCivil ymd * msPerDay)%Z
      else None
  | _ => None
  end.

(** A host whose Date.parse reads the date-only form as ECMA-262
    requires; what it makes of any other text is its own affair. *)
Definition readsIsoDates (dateParse : jsstring -> option Z) : Prop :=
  forall s t, isoParse s = Some t -> dateParse s = Some t.

(** Date.parse of V8 in a zone [offset] minutes east of UTC: the
    date-only form first, then the legacy forms. *)
Definition v8DateParse (offset : Z) (s : jsstring) : option Z :=
  match isoParse s with
  | Some t => Some t
  | None => v8Parse offset s
  end.

(** ** Further notions on the entities *)

(** The fields of an event that the pre-save hook does not assign. *)
Definition untouched (e : IEvent) :=
  (title e, description e, overview e, image e, venue e, location e, mode e,
   audience e, agenda e, organizer e, tags e).

(** The three assignments of the hook, each made or left out. *)
Definition slugStep (host : Host) (d : document IEvent) (sl : option jsstring)
  : Prop :=
  if isModified d "title" || isNew d
  then exists t, title (doc d) = Some t
                 /\ sl = Some (slugSetter (generateSlug t))
  else sl = slug (doc d).

Definition dateStep (host : Host) (d : document IEvent) (da : option jsstring)
  : Prop :=
  if isModified d "date"
  then exists s r, date (doc d) = Some s
                   /\ normalizeDate (dateParse host) s = Return r
                   /\ da = Some r
  else da = date (doc d).

Definition timeStep (host : Host) (d : document IEvent) (ti : option jsstring)
  : Prop :=
  if isModified d "time"
  then exists s r, time (doc d) = Some s /\ normalizeTime s = Return r
                   /\ ti = Some r
  else ti = time (doc d).

(** The hook run once more on the document it has left, the same paths
    counting as modified. *)
Definition savedAgain (d : document IEvent) (e' : IEvent) : document IEvent :=
  Document (isNew d) (modifiedPaths d) e'.

(** Node in a zone [offset] minutes east of UTC, Date.parse reading the
    date-only form as well. *)
Definition isoHost (offset : Z) : Host :=
  {| dateParse := v8DateParse offset;
     jsonParse := Node.JSON_parse;
     castStrings := Node.castStringArray;
     castObjectId := Node.objectIdOfHex;
     connecting := Return tt;
     uploading := Node.accepts |}.

(** A new document of a valid event, as Event.create hands it to the
    hook. *)
Definition launch : document IEvent :=
  Document true (eventPaths (Scenario.fieldsOf (js "Launch day")))
           (Scenario.fieldsOf (js "Launch day")).

(** The same document when the hook has run, one hour east of UTC. *)
Definition launched : IEvent :=
  match eventPreSave (isoHost 60) launch with
  | Return e => e
  | Throw _ => doc launch
  end.

(** ** app/api/events/route.ts: GET *)

(** What GET puts into its answers: a text, the documents found, or the
    value that was caught, as it is. *)
Inductive listed : Type :=
| LString (s : jsstring)
| LEvents (found : list (stored IEvent))
| LError (e : error).

(** NextResponse.json(body, { status }) for the bodies of GET. *)
Record ListResponse : Type := {
  listBody : list (string * listed);
  listStatus : N
}.

(** sort({ createdAt: -1 }): a document goes before the first one that is
    not later than it. *)
Fixpoint insertLatestFirst (d : stored IEvent) (l : list (stored IEvent))
  : list (stored IEvent) :=
  match l with
  | [] => [d]
  | x :: t => if N.ltb (createdAt d) (createdAt x)
              then x :: insertLatestFirst d t
              else d :: x :: t
  end.

Definition sortLatestFirst (l : list (stored IEvent)) : list (stored IEvent) :=
  fold_right insertLatestFirst [] l.

(** A list in the order of sort({ createdAt: -1 }): no document is
    later than one before it. *)
Fixpoint latestFirst (l : list (stored IEvent)) : Prop :=
  match l with
  | [] => True
  | a :: t => (forall b, In b t -> (createdAt b <= createdAt a)%N)
              /\ latestFirst t
  end.

(** Event.find().sort({ createdAt: -1 }), awaited; [finding] is how the
    query settles on the side of the database: it resolves with the
    documents of the collection in that order, or rejects. *)
Definition Event_find_sorted (finding : exc unit)
  : M (list (stored IEvent)) :=
  fun w => match finding with
           | Return _ => (Return (sortLatestFirst (events w)), w)
           | Throw e => (Throw e, w)
           end.

Definition fetched (found : list (stored IEvent)) : ListResponse :=
  {| listBody := [("message", LString (js "Event fetched successfully"));
                  ("events", LEvents found)]%string;
     listStatus := 200 |}.

Definition fetchingFailed (e : error) : ListResponse :=
  {| listBody := [("message", LString (js "Event Fetching Failed"));
                  ("error", LError e)]%string;
     listStatus := 500 |}.

Definition GET (host : Host) (finding : exc unit) : M ListResponse :=
  tryCatch
    (connectDB host ;;
     found <- Event_find_sorted finding ;;
     ret (fetched found))
    (fun e => ret (fetchingFailed e)).

(** ** createBooking as it stands beside components/EventCard.tsx

    The earlier form of the action: no slug is passed, the document that
    Booking.create resolves to is not used, and the answer is the flag
    alone. *)

Module Earlier.

Record Answer : Type := { success : bool }.

Definition createBooking (host : Host) (eventId email : jsstring) : M Answer :=
  tryCatch
    (connectDB host ;;
     _ <- Booking_create host
            {| eventIdArg := eventId; slugArg := emptyString;
               emailArg := email |} ;;
     ret {| success := true |})
    (fun error =>
       emit ConsoleError ;;
       ret {| success := false |}).

End Earlier.

(** ** The requests that the code serves, one after the other *)

Inductive request : Type :=
| Post (req : NextRequest)                (* POST /api/events *)
| Get (finding : exc unit)                (* GET /api/events *)
| Book (input : BookingInput)             (* createBooking *)
| BookEarlier (eventId email : jsstring). (* its earlier form *)

(** The world after a request, served on a host in the state it is in at
    that moment. *)
Definition serve (hr : Host * request) (w : world) : world :=
  match snd hr with
  | Post req => snd (POST (fst hr) req w)
  | Get finding => snd (GET (fst hr) finding w)
  | Book input => snd (createBooking (fst hr) input w)
  | BookEarlier eventId email =>
      snd (Earlier.createBooking (fst hr) eventId email w)
  end.

Definition after (rs : list (Host * request)) (w : world) : world :=
  fold_left (fun w hr => serve hr w) rs w.

(** A database without documents. *)
Definition initial : world := World [] [] [] 0 [].

(** The collections and the clock. *)
Definition store (w : world)
  : list (stored IEvent) * list (stored IBooking) * N :=
  (events w, bookings w, clock w).

(** The keys of the two unique indexes. *)
Definition slugKey (d : stored IEvent) : option jsstring := slug (fields d).

Definition bookingKey (b : stored IBooking) : ObjectId * jsstring :=
  (eventId (fields b), email (fields b)).

(** An event in the form that the schema and its hook give it. *)
Definition canonicalEvent (e : IEvent) : Prop :=
  validateEvent e = []
  /\ (exists t, title e = Some t /\ t <> [] /\ slug e = Some (generateSlug t))
  /\ (exists t, date e = Some (isoDate (utcDate t)))
  /\ (exists r, time e = Some r /\ isHHMM r = true).

(** What holds of every store that the requests can build. *)
Record wellFormed (w : world) : Prop := {
  eventIds : forall d, In d (events w) -> (_id d < clock w)%N;
  slugsUnique : NoDup (map slugKey (events w));
  bookingsUnique : NoDup (map bookingKey (bookings w));
  references : forall b, In b (bookings w) ->
                         eventExists (eventId (fields b)) w = true;
  eventsCanonical : forall d, In d (events w) -> canonicalEvent (fields d);
  emailsValid : forall b, In b (bookings w) -> emailShape (email (fields b))
}.

(** What a request can do to the store: nothing, or the one insert of
    Event.create, or the one insert of Booking.create. *)
Inductive storeStep (w w' : world) : Prop :=
| Unchanged : store w' = store w -> storeStep w w'
| EventStored (host : Host) (c : exc IEvent) (w0 w1 : world)
              (d : stored IEvent) :
    store w0 = store w -> Event_create host c w0 = (Return d, w1) ->
    store w' = store w1 -> storeStep w w'
| BookingStored (host : Host) (input : BookingInput) (w0 w1 : world)
                (d : stored IBooking) :
    store w0 = store w -> Booking_create host input w0 = (Return d, w1) ->
    store w' = store w1 -> storeStep w w'.

(** ** A session

    An event is created, the same form is sent once more, the event is
    booked through each form of the action, and the list is fetched. *)

Definition node : Host := Node.host 0 Node.accepts.

Definition launchRequest : NextRequest :=
  Scenario.request
    (Scenario.form "Launch day" Scenario.goodTags Scenario.withPoster).

Definition firstId : jsstring := js "000000000000000000000000".

Definition session : list (Host * request) :=
  [(node, Post launchRequest);
   (node, Post launchRequest);
   (node, BookEarlier firstId (js " Ada@Example.org "));
   (node, Book {| eventIdArg := firstId; slugArg := js "launch-day";
                  emailArg := js "grace@example.org" |});
   (node, Get (Return tt))].

(** The event and the two bookings that the session leaves. *)
Definition launchDay : stored IEvent :=
  Stored 0%N (withTime (Some (js "14:30"))
                (withDate (Some (js "2024-03-05"))
                   (withSlug (Some (js "launch-day"))
                      (eventSetters
                         (mkEvent (Some (js "Launch day")) None
                            (Some (js "A day of talks on the web platform"))
                            (Some (js "Talks and workshops"))
                            (Some (js "https://res.cloudinary.com/demo/image/upload/DevEvent/a.png"))
                            (Some (js "Main hall")) (Some (js "Lisbon"))
                            (Some (js "March 5, 2024")) (Some (js "2:30 PM"))
                            (Some (js "online")) (Some (js "Developers"))
                            [js "Keynote"] (Some (js "The web guild"))
                            [js "cloud"; js "web"])))))
         0%N 0%N.

Definition adasBooking : stored IBooking :=
  Stored 1%N (mkBooking 0%N (js "ada@example.org")) 1%N 1%N.

(** A second form, and the event that it leaves after the first. *)
Definition helloRequest : NextRequest :=
  Scenario.request
    (Scenario.form "Hello, World!!! 2024" Scenario.goodTags
                   Scenario.withPoster).

Definition helloWorld : stored IEvent :=
  Stored 1%N
    (mkEvent (Some (js "Hello, World!!! 2024")) (Some (js "hello-world-2024"))
       (description (fields launchDay)) (overview (fields launchDay))
       (image (fields launchDay)) (venue (fields launchDay))
       (location (fields launchDay)) (date (fields launchDay))
       (time (fields launchDay)) (mode (fields launchDay))
       (audience (fields launchDay)) (agenda (fields launchDay))
       (organizer (fields launchDay)) (tags (fields launchDay)))
    1%N 1%N.

(** * Properties *)

(** ** The matcher on the patterns of generateSlug *)

Lemma length_dropWhile (p : N -> bool) (s : jsstring) :
  List.length (dropWhile p s) <= List.length s.
Proof.
  induction s as [|c t IH]; simpl; [lia|].
  destruct (p c); simpl; lia.
Qed.

Lemma replaceFrom_S (r : regex) (by_ : jsstring) (k i : nat) (s : jsstring) :
  replaceFrom r by_ (S k) i s =
  match matchAt r i s with
  | Some m => if Nat.eqb (pos m) i
              then by_ ++ match s with
                          | [] => []
                          | c :: t => c :: replaceFrom r by_ k (S i) t
                          end
              else by_ ++ replaceFrom r by_ k (pos m) (rest m)
  | None => match s with
            | [] => []
            | c :: t => c :: replaceFrom r by_ k (S i) t
            end
  end.
Proof. reflexivity. Qed.

Lemma matchAt_Class (p : N -> bool) (i : nat) (s : jsstring) :
  matchAt (Class p) i s =
  match s with
  | c :: t => if p c then Some (MState (S i) t []) else None
  | [] => None
  end.
Proof.
  unfold matchAt; simpl. destruct s as [|c t]; [reflexivity|].
  destruct (p c); reflexivity.
Qed.

(** A pattern of one class, replaced by nothing, is a filter. *)
Lemma replaceFrom_Class (p : N -> bool) :
  forall (fuel i : nat) (s : jsstring),
    List.length s < fuel ->
    replaceFrom (Class p) [] fuel i s = filter (Not p) s.
Proof.
  induction fuel as [|k IH]; intros i s Hlen; [lia|].
  rewrite replaceFrom_S, matchAt_Class.
  destruct s as [|c t]; [reflexivity|].
  simpl in Hlen. cbn [filter]. unfold Not at 1.
  destruct (p c) eqn:Hp; cbn [pos rest app negb].
  - replace (Nat.eqb (S i) i) with false
      by (symmetry; apply Nat.eqb_neq; lia).
    apply IH. lia.
  - f_equal. apply IH. lia.
Qed.

Lemma iterate_Class (p : N -> bool) (cs : list (nat * jsstring)) :
  forall (fuel i : nat) (s : jsstring),
    List.length s <= fuel ->
    iterate (run (Class p)) fuel (MState i s cs) = starStates p i s cs.
Proof.
  induction fuel as [|k IH]; intros i s Hlen.
  - destruct s; [reflexivity | simpl in Hlen; lia].
  - destruct s as [|c t]; [reflexivity|].
    simpl in Hlen. simpl. destruct (p c); [|reflexivity].
    cbn [flat_map pos rest caps].
    replace (Nat.ltb i (S i)) with true by (symmetry; apply Nat.ltb_lt; lia).
    rewrite app_nil_r, IH by lia. reflexivity.
Qed.

Lemma run_Star_Class (p : N -> bool) (i : nat) (s : jsstring)
      (cs : list (nat * jsstring)) :
  run (Star (Class p)) (MState i s cs) = starStates p i s cs.
Proof. simpl. apply iterate_Class. lia. Qed.

Lemma starStates_hd (p : N -> bool) (cs : list (nat * jsstring)) :
  forall (s : jsstring) (i : nat),
  exists l,
    starStates p i s cs =
    MState (i + (List.length s - List.length (dropWhile p s)))
           (dropWhile p s) cs :: l.
Proof.
  induction s as [|c t IH]; intros i; cbn [starStates dropWhile].
  - exists []. rewrite Nat.sub_diag, Nat.add_0_r. reflexivity.
  - destruct (p c).
    + destruct (IH (S i)) as [l Hl]. rewrite Hl.
      exists (l ++ [MState i (c :: t) cs]).
      pose proof (length_dropWhile p t) as Hd. cbn [List.length app].
      replace (i + (S (List.length t) - List.length (dropWhile p t)))
        with (S i + (List.length t - List.length (dropWhile p t))) by lia.
      reflexivity.
    + exists []. rewrite Nat.sub_diag, Nat.add_0_r. reflexivity.
Qed.

Lemma matchAt_Plus_Class (p : N -> bool) (i : nat) (s : jsstring) :
  matchAt (Plus (Class p)) i s =
  match s with
  | c :: t =>
      if p c
      then Some (MState (S i + (List.length t - List.length (dropWhile p t)))
                        (dropWhile p t) [])
      else None
  | [] => None
  end.
Proof.
  unfold matchAt, Plus.
  change (run (Cat (Class p) (Star (Class p))) (MState i s []))
    with (flat_map (run (Star (Class p))) (run (Class p) (MState i s []))).
  destruct s as [|c t]; [reflexivity|].
  simpl run at 2. destruct (p c); [|reflexivity].
  cbn [flat_map rest caps pos]. rewrite app_nil_r, run_Star_Class.
  destruct (starStates_hd p [] t (S i)) as [l Hl]. rewrite Hl. reflexivity.
Qed.

Lemma squeeze_inRun (p : N -> bool) (b : N) (s : jsstring) :
  squeeze p b true s = squeeze p b false (dropWhile p s).
Proof.
  induction s as [|c t IH]; simpl; [reflexivity|].
  destruct (p c) eqn:Hp; [exact IH|].
  simpl. rewrite Hp. reflexivity.
Qed.

(** A starred-class pattern r+, replaced by one unit, squeezes runs. *)
Lemma replaceFrom_Plus_Class (p : N -> bool) (b : N) :
  forall (fuel i : nat) (s : jsstring),
    List.length s < fuel ->
    replaceFrom (Plus (Class p)) [b] fuel i s = squeeze p b false s.
Proof.
  induction fuel as [|k IH]; intros i s Hlen; [lia|].
  rewrite replaceFrom_S, matchAt_Plus_Class.
  destruct s as [|c t]; [reflexivity|].
  simpl in Hlen. simpl squeeze.
  destruct (p c) eqn:Hp.
  - cbn [pos rest].
    replace (Nat.eqb (S i + (List.length t - List.length (dropWhile p t))) i)
      with false by (symmetry; apply Nat.eqb_neq; lia).
    rewrite IH by (pose proof (length_dropWhile p t); lia).
    rewrite squeeze_inRun. reflexivity.
  - f_equal. apply IH. lia.
Qed.

Section Edge.

Variable p : N -> bool.

Lemma matchAt_edge_start (s : jsstring) :
  matchAt (edge p) 0 s =
  match s with
  | c :: t => if p c then Some (MState 1 t []) else None
  | [] => None
  end.
Proof.
  unfold matchAt, edge. simpl.
  destruct s as [|c t]; [reflexivity|].
  destruct (p c); reflexivity.
Qed.

Lemma matchAt_edge_later (i : nat) (s : jsstring) :
  matchAt (edge p) (S i) s =
  match s with
  | [c] => if p c then Some (MState (S (S i)) [] []) else None
  | _ => None
  end.
Proof.
  unfold matchAt, edge. simpl.
  destruct s as [|c t]; [reflexivity|].
  destruct (p c); destruct t; reflexivity.
Qed.

Lemma replaceFrom_edge_later :
  forall (fuel i : nat) (s : jsstring),
    List.length s < fuel ->
    replaceFrom (edge p) [] fuel (S i) s = chopEnd p s.
Proof.
  induction fuel as [|k IH]; intros i s Hlen; [lia|].
  rewrite replaceFrom_S, matchAt_edge_later.
  destruct s as [|c t]; [reflexivity|].
  simpl in Hlen.
  destruct t as [|d t'].
  - cbn [chopEnd]. destruct (p c).
    + cbn [pos rest app].
      replace (Nat.eqb (S (S i)) (S i)) with false
        by (symmetry; apply Nat.eqb_neq; lia).
      destruct k; reflexivity.
    + f_equal. rewrite IH by (simpl; lia). reflexivity.
  - change (chopEnd p (c :: d :: t')) with (c :: chopEnd p (d :: t')).
    f_equal. apply IH. simpl in *; lia.
Qed.

Lemma replace_edge (s : jsstring) :
  replace (edge p) [] s =
  match s with
  | c :: t => if p c then chopEnd p t else c :: chopEnd p t
  | [] => []
  end.
Proof.
  unfold replace. rewrite replaceFrom_S, matchAt_edge_start.
  destruct s as [|c t]; [reflexivity|].
  destruct (p c); cbn [pos rest app Nat.eqb].
  - apply replaceFrom_edge_later. simpl; lia.
  - f_equal. apply replaceFrom_edge_later. simpl; lia.
Qed.

End Edge.

(** ** Strings without two hyphens in a row *)

Section Runs.

Variable p : N -> bool.

Lemma dropWhileEnd_nil_inv (s : jsstring) :
  dropWhileEnd p s = [] -> forallb p s = true.
Proof.
  induction s as [|c t IH]; simpl; [reflexivity|].
  destruct (dropWhileEnd p t) eqn:E.
  - destruct (p c); [intros _; apply IH; reflexivity | discriminate].
  - discriminate.
Qed.

Lemma squeeze_false_noAdjacent (b : N) (Hb : p b = true) :
  forall (s : jsstring) (inRun : bool),
    noAdjacent p (squeeze p b inRun s) = true
    /\ (inRun = true -> startsWith p (squeeze p b inRun s) = false).
Proof.
  induction s as [|c t IH]; intros inRun; simpl; [split; reflexivity|].
  destruct (p c) eqn:Hp.
  - destruct (IH true) as [Hn Hs]. destruct inRun.
    + split; [exact Hn | intros _; apply Hs; reflexivity].
    + split; [|discriminate].
      cbn [noAdjacent]. rewrite Hn, Hb.
      specialize (Hs eq_refl). unfold startsWith in Hs.
      destruct (squeeze p b true t); [reflexivity|]. rewrite Hs. reflexivity.
  - destruct (IH false) as [Hn _].
    split; [|intros _; simpl; exact Hp].
    cbn [noAdjacent]. rewrite Hn, Hp. reflexivity.
Qed.

Lemma squeeze_none (b : N) :
  forall (s : jsstring) (inRun : bool),
    forallb (Not p) s = true -> squeeze p b inRun s = s.
Proof.
  induction s as [|c t IH]; intros inRun; simpl; [reflexivity|].
  unfold Not at 1. destruct (p c); simpl; [discriminate|].
  intros H. f_equal. apply IH. exact H.
Qed.

Lemma squeeze_single (b : N) (Hb : forall c, p c = true -> c = b) :
  forall s : jsstring,
    noAdjacent p s = true -> squeeze p b false s = s.
Proof.
  induction s as [|c t IH]; simpl; [reflexivity|].
  intros H. apply andb_prop in H. destruct H as [H1 H2].
  destruct (p c) eqn:Hp.
  - rewrite (Hb c Hp). f_equal.
    rewrite squeeze_inRun.
    destruct t as [|d t']; [reflexivity|].
    simpl in H1. cbn [dropWhile].
    destruct (p d); [discriminate|]. apply IH. exact H2.
  - f_equal. apply IH. exact H2.
Qed.

End Runs.

(** ** Classes of code units *)

Ltac ncase :=
  match goal with
  | |- context [N.leb ?a ?b] => destruct (N.leb_spec a b)
  | |- context [N.eqb ?a ?b] => destruct (N.eqb_spec a b)
  | H : context [N.leb ?a ?b] |- _ => destruct (N.leb_spec a b)
  | H : context [N.eqb ?a ?b] |- _ => destruct (N.eqb_spec a b)
  end;
  cbn [andb orb negb] in *; try discriminate; try (exfalso; lia).

Ltac units :=
  unfold slugClass, isHyphen, isAlnum, isLower, isUpper, isDigit,
    isWhiteSpace, between, Not in *;
  change (chr "-") with 45%N in *;
  repeat ncase; try reflexivity; try lia.

Lemma slugChar_slugClass (c : N) : slugChar c = true -> slugClass c = true.
Proof. unfold slugChar. units. Qed.

Lemma slugChar_not_space (c : N) :
  slugChar c = true -> Not isWhiteSpace c = true.
Proof. unfold slugChar. units. Qed.

Lemma slugClass_not_space (c : N) :
  slugClass c = true -> isWhiteSpace c = false -> slugChar c = true.
Proof. unfold slugChar. units. Qed.

Lemma slugChar_lower (c : N) : slugChar c = true -> lowerUnit c = [c].
Proof. unfold slugChar, lowerUnit. units. Qed.

Lemma isHyphen_eq (c : N) : isHyphen c = true -> c = chr "-".
Proof. units. Qed.

(** ** Lists: prefixes, suffixes and runs *)

Section Lists.

Variable p : N -> bool.

Lemma dropWhile_suffix (s : jsstring) : exists l, s = l ++ dropWhile p s.
Proof.
  induction s as [|c t [l Hl]]; simpl; [exists []; reflexivity|].
  destruct (p c).
  - exists (c :: l). simpl. f_equal. exact Hl.
  - exists []. reflexivity.
Qed.

Lemma dropWhileEnd_prefix (s : jsstring) : exists r, s = dropWhileEnd p s ++ r.
Proof.
  induction s as [|c t [r Hr]]; simpl; [exists []; reflexivity|].
  destruct (dropWhileEnd p t) as [|d u] eqn:E.
  - destruct (p c); [exists (c :: t) | exists t]; reflexivity.
  - exists r. simpl in *. f_equal. exact Hr.
Qed.

Lemma dropWhileEnd_cons (c : N) (t : jsstring) :
  dropWhileEnd p (c :: t) =
  match dropWhileEnd p t with
  | [] => if p c then [] else [c]
  | d :: u => c :: d :: u
  end.
Proof. reflexivity. Qed.

Lemma dropWhile_all (s : jsstring) : forallb p s = true -> dropWhile p s = [].
Proof.
  induction s as [|c t IH]; simpl; [reflexivity|].
  destruct (p c); [exact IH | discriminate].
Qed.

Lemma dropWhile_start (s : jsstring) :
  startsWith p s = false -> dropWhile p s = s.
Proof. destruct s as [|c t]; simpl; [reflexivity|]. intros ->. reflexivity. Qed.

Lemma startsWith_dropWhile (s : jsstring) : startsWith p (dropWhile p s) = false.
Proof.
  induction s as [|c t IH]; simpl; [reflexivity|].
  destruct (p c) eqn:Hp; [exact IH | simpl; exact Hp].
Qed.

Lemma startsWith_dropWhileEnd (s : jsstring) :
  startsWith p s = false -> startsWith p (dropWhileEnd p s) = false.
Proof.
  destruct s as [|c t]; simpl; [reflexivity|].
  intros Hp. destruct (dropWhileEnd p t); [rewrite Hp|]; simpl; auto.
Qed.

Lemma dropWhileEnd_idem (s : jsstring) :
  dropWhileEnd p (dropWhileEnd p s) = dropWhileEnd p s.
Proof.
  induction s as [|c t IH]; simpl; [reflexivity|].
  destruct (dropWhileEnd p t) as [|d u] eqn:E.
  - destruct (p c) eqn:Hp; simpl; [reflexivity|]. rewrite Hp. reflexivity.
  - simpl in *. rewrite IH. reflexivity.
Qed.

Lemma dropWhileEnd_none (s : jsstring) :
  forallb (Not p) s = true -> dropWhileEnd p s = s.
Proof.
  induction s as [|c t IH]; simpl; [reflexivity|].
  unfold Not at 1. intros H. apply andb_prop in H. destruct H as [Hc Ht].
  rewrite (IH Ht). destruct t; [|reflexivity].
  destruct (p c); [discriminate | reflexivity].
Qed.

Lemma noAdjacent_app (a b : jsstring) :
  noAdjacent p (a ++ b) = true ->
  noAdjacent p a = true /\ noAdjacent p b = true.
Proof.
  induction a as [|c t IH]; simpl; [auto|].
  intros H. apply andb_prop in H. destruct H as [H1 H2].
  destruct (IH H2) as [Ha Hb]. split; [|exact Hb].
  rewrite Ha, andb_true_r.
  destruct t; simpl in *; [rewrite andb_false_r; reflexivity | exact H1].
Qed.

(** Without two units of [p] in a row, removing one at the end removes
    all of them. *)
Lemma chopEnd_dropWhileEnd (s : jsstring) :
  noAdjacent p s = true -> chopEnd p s = dropWhileEnd p s.
Proof.
  induction s as [|c t IH]; [reflexivity|].
  intros H. cbn [noAdjacent] in H. apply andb_prop in H. destruct H as [H1 H2].
  destruct t as [|d u]; [reflexivity|].
  change (chopEnd p (c :: d :: u)) with (c :: chopEnd p (d :: u)).
  rewrite (IH H2), (dropWhileEnd_cons c (d :: u)).
  destruct (dropWhileEnd p (d :: u)) eqn:E; [|reflexivity].
  apply dropWhileEnd_nil_inv in E.
  simpl in E. apply andb_prop in E. destruct E as [Hd _].
  rewrite Hd, andb_true_r in H1. destruct (p c); [discriminate | reflexivity].
Qed.

Lemma strip_once (s : jsstring) :
  noAdjacent p s = true ->
  match s with
  | c :: t => if p c then chopEnd p t else c :: chopEnd p t
  | [] => []
  end = dropWhileEnd p (dropWhile p s).
Proof.
  destruct s as [|c t]; [reflexivity|].
  intros H. cbn [noAdjacent] in H. apply andb_prop in H. destruct H as [H1 H2].
  cbn [dropWhile]. destruct (p c) eqn:Hp.
  - rewrite dropWhile_start.
    + apply chopEnd_dropWhileEnd. exact H2.
    + destruct t as [|d u]; [reflexivity|]. simpl in *.
      destruct (p d); [discriminate | reflexivity].
  - rewrite dropWhileEnd_cons, <- chopEnd_dropWhileEnd by exact H2.
    destruct (chopEnd p t); [rewrite Hp|]; reflexivity.
Qed.

(** What squeezing keeps, and the unit it puts in. *)
Lemma forallb_squeeze (P Q : N -> bool) (b : N) :
  (forall c, P c = true -> p c = false -> Q c = true) -> Q b = true ->
  forall (s : jsstring) (inRun : bool),
    forallb P s = true -> forallb Q (squeeze p b inRun s) = true.
Proof.
  intros HPQ Hb. induction s as [|c t IH]; intros inRun; simpl; [reflexivity|].
  intros H. apply andb_prop in H. destruct H as [Hc Ht].
  destruct (p c) eqn:Hp.
  - destruct inRun; simpl; [|rewrite Hb; simpl]; apply IH; exact Ht.
  - simpl. rewrite (HPQ c Hc Hp). simpl. apply IH. exact Ht.
Qed.

End Lists.

Lemma forallb_filter_self (P : N -> bool) (s : jsstring) :
  forallb P (filter P s) = true.
Proof.
  induction s as [|c t IH]; simpl; [reflexivity|].
  destruct (P c) eqn:E; simpl; [rewrite E|]; exact IH.
Qed.

Lemma filter_all (P : N -> bool) (s : jsstring) :
  forallb P s = true -> filter P s = s.
Proof.
  induction s as [|c t IH]; simpl; [reflexivity|].
  intros H. apply andb_prop in H. destruct H as [Hc Ht].
  rewrite Hc, (IH Ht). reflexivity.
Qed.

Lemma forallb_impl (P Q : N -> bool) (s : jsstring) :
  (forall c, P c = true -> Q c = true) ->
  forallb P s = true -> forallb Q s = true.
Proof.
  intros HPQ. induction s as [|c t IH]; simpl; [reflexivity|].
  intros H. apply andb_prop in H. destruct H as [Hc Ht].
  rewrite (HPQ c Hc), (IH Ht). reflexivity.
Qed.

Lemma forallb_filter (P Q : N -> bool) (s : jsstring) :
  forallb P s = true -> forallb P (filter Q s) = true.
Proof.
  induction s as [|c t IH]; simpl; [reflexivity|].
  intros H. apply andb_prop in H. destruct H as [Hc Ht].
  destruct (Q c); simpl; [rewrite Hc|]; auto.
Qed.

Lemma forallb_trim (P : N -> bool) (s : jsstring) :
  forallb P s = true -> forallb P (trim s) = true.
Proof.
  intros H. unfold trim.
  destruct (dropWhile_suffix isWhiteSpace s) as [l Hl].
  rewrite Hl, forallb_app in H. apply andb_prop in H. destruct H as [_ H].
  destruct (dropWhileEnd_prefix isWhiteSpace (dropWhile isWhiteSpace s))
    as [r Hr].
  rewrite Hr, forallb_app in H. apply andb_prop in H. apply H.
Qed.

(** ** generateSlug *)

Lemma filter_Not_Not (P : N -> bool) (s : jsstring) :
  filter (Not (Not P)) s = filter P s.
Proof.
  apply filter_ext. intros c. unfold Not. apply negb_involutive.
Qed.

(** The four replacements, read off the matcher. *)
Lemma generateSlug_steps (title : jsstring) :
  generateSlug title =
  replace (edge isHyphen) []
    (squeeze isHyphen (chr "-") false
       (squeeze isWhiteSpace (chr "-") false
          (filter slugClass (trim (toLowerCase title))))).
Proof.
  unfold generateSlug.
  unfold emptyString. change (js "-") with [chr "-"].
  change (Alt (Cat Bol (Chr "-")) (Cat (Chr "-") Eol)) with (edge isHyphen).
  change (Chr "-") with (Class isHyphen).
  unfold replace at 4. rewrite replaceFrom_Class, filter_Not_Not by lia.
  unfold replace at 3. rewrite replaceFrom_Plus_Class by lia.
  unfold replace at 2. rewrite replaceFrom_Plus_Class by lia.
  reflexivity.
Qed.

Lemma generateSlug_slugSpec (title : jsstring) :
  generateSlug title = slugSpec title.
Proof.
  rewrite generateSlug_steps, replace_edge. unfold slugSpec, stripHyphens.
  apply strip_once.
  apply (squeeze_false_noAdjacent isHyphen (chr "-") eq_refl).
Qed.

Lemma stripHyphens_idem (s : jsstring) :
  stripHyphens (stripHyphens s) = stripHyphens s.
Proof.
  unfold stripHyphens.
  rewrite (dropWhile_start isHyphen (dropWhileEnd isHyphen (dropWhile isHyphen s))).
  - apply dropWhileEnd_idem.
  - apply startsWith_dropWhileEnd, startsWith_dropWhile.
Qed.

Lemma stripHyphens_part (s : jsstring) :
  exists l r, s = l ++ stripHyphens s ++ r.
Proof.
  unfold stripHyphens.
  destruct (dropWhile_suffix isHyphen s) as [l Hl].
  destruct (dropWhileEnd_prefix isHyphen (dropWhile isHyphen s)) as [r Hr].
  exists l, r. rewrite <- Hr. exact Hl.
Qed.

Lemma slugBody_chars (title : jsstring) :
  forallb slugChar (slugBody title) = true.
Proof.
  unfold slugBody.
  apply (forallb_squeeze isHyphen slugChar slugChar); [auto | reflexivity |].
  apply (forallb_squeeze isWhiteSpace slugClass slugChar);
    [apply slugClass_not_space | reflexivity |].
  apply forallb_filter_self.
Qed.

(** A slug consists of [a-z0-9-], has no two hyphens in a row and no
    hyphen at either end. *)
Lemma slugSpec_shape (title : jsstring) :
  forallb slugChar (slugSpec title) = true
  /\ noAdjacent isHyphen (slugSpec title) = true
  /\ stripHyphens (slugSpec title) = slugSpec title.
Proof.
  change (slugSpec title) with (stripHyphens (slugBody title)).
  destruct (stripHyphens_part (slugBody title)) as [l [r Hlr]].
  pose proof (slugBody_chars title) as Hc.
  pose proof (proj1 (squeeze_false_noAdjacent isHyphen (chr "-") eq_refl
                       (squeeze isWhiteSpace (chr "-") false
                          (filter slugClass (trim (toLowerCase title))))
                       false)) as Hn.
  fold (slugBody title) in Hn.
  rewrite Hlr in Hc, Hn.
  rewrite !forallb_app in Hc.
  apply andb_prop in Hc. destruct Hc as [_ Hc].
  apply andb_prop in Hc. destruct Hc as [Hc _].
  apply noAdjacent_app in Hn. destruct Hn as [_ Hn].
  apply noAdjacent_app in Hn. destruct Hn as [Hn _].
  split; [exact Hc | split; [exact Hn | apply stripHyphens_idem]].
Qed.

Lemma toLowerCase_slugChars (s : jsstring) :
  forallb slugChar s = true -> toLowerCase s = s.
Proof.
  induction s as [|c t IH]; simpl; [reflexivity|].
  intros H. apply andb_prop in H. destruct H as [Hc Ht].
  rewrite (slugChar_lower c Hc), (IH Ht). reflexivity.
Qed.

Lemma trim_no_space (s : jsstring) :
  forallb (Not isWhiteSpace) s = true -> trim s = s.
Proof.
  intros H. unfold trim. rewrite dropWhile_start.
  - apply dropWhileEnd_none. exact H.
  - destruct s as [|c t]; [reflexivity|]. simpl in *.
    apply andb_prop in H. destruct H as [Hc _]. unfold Not in Hc.
    destruct (isWhiteSpace c); [discriminate | reflexivity].
Qed.

(** A string of the shape of a slug is its own slug. *)
Lemma slugSpec_fixed (s : jsstring) :
  forallb slugChar s = true ->
  noAdjacent isHyphen s = true ->
  stripHyphens s = s ->
  slugSpec s = s.
Proof.
  intros Hc Hn Hs. unfold slugSpec.
  pose proof (forallb_impl slugChar (Not isWhiteSpace) s slugChar_not_space Hc)
    as Hw.
  rewrite (toLowerCase_slugChars s Hc), (trim_no_space s Hw).
  rewrite (filter_all slugClass s (forallb_impl _ _ s slugChar_slugClass Hc)).
  rewrite (squeeze_none isWhiteSpace (chr "-") s false Hw).
  rewrite (@squeeze_single isHyphen (chr "-") isHyphen_eq s Hn).
  exact Hs.
Qed.

Lemma generateSlug_fixed (title : jsstring) :
  generateSlug (generateSlug title) = generateSlug title.
Proof.
  rewrite !generateSlug_slugSpec.
  destruct (slugSpec_shape title) as [Hc [Hn Hs]].
  apply slugSpec_fixed; assumption.
Qed.

Lemma plain_lower (s : jsstring) :
  forallb plain s = true -> forallb noAlnum (toLowerCase s) = true.
Proof.
  induction s as [|c t IH]; simpl; [reflexivity|].
  intros H. apply andb_prop in H. destruct H as [Hc Ht].
  rewrite forallb_app, (IH Ht), andb_true_r.
  clear - Hc. unfold plain, noAlnum, lowerUnit in *.
  units; cbn [forallb]; units.
Qed.

Lemma noAlnum_only_hyphen (c : N) :
  (noAlnum c && slugClass c)%bool = true -> isWhiteSpace c = false ->
  isHyphen c = true.
Proof. unfold noAlnum. units. Qed.

Lemma generateSlug_empty (title : jsstring) :
  forallb noAlnum (toLowerCase title) = true -> generateSlug title = [].
Proof.
  intros H. rewrite generateSlug_slugSpec. unfold slugSpec, stripHyphens.
  rewrite dropWhile_all; [reflexivity|].
  apply (forallb_squeeze isHyphen isHyphen isHyphen); [auto | reflexivity |].
  apply (forallb_squeeze isWhiteSpace (fun c => noAlnum c && slugClass c)%bool
                         isHyphen);
    [apply noAlnum_only_hyphen | reflexivity |].
  apply forallb_trim in H.
  set (x := trim (toLowerCase title)) in *. clearbody x.
  induction x as [|c t IH]; simpl in *; [reflexivity|].
  apply andb_prop in H. destruct H as [Hc Ht].
  destruct (slugClass c) eqn:E; simpl; [rewrite Hc, E; simpl|]; auto.
Qed.

(** ** The matcher on timeRegex *)

Lemma ci_A (c : N) : N.eqb (canonicalize c) (canonicalize (chr "A")) = isA c.
Proof.
  unfold canonicalize, upperUnit, isA, isLower, between.
  change (chr "A") with 65%N. cbn [N.leb N.compare Pos.compare Pos.compare_cont].
  repeat ncase; try reflexivity; try lia.
Qed.

Lemma ci_P (c : N) : N.eqb (canonicalize c) (canonicalize (chr "P")) = isP c.
Proof.
  unfold canonicalize, upperUnit, isP, isLower, between.
  change (chr "P") with 80%N.
  repeat ncase; try reflexivity; try lia.
Qed.

Lemma ci_M (c : N) : N.eqb (canonicalize c) (canonicalize (chr "M")) = isM c.
Proof.
  unfold canonicalize, upperUnit, isM, isLower, between.
  change (chr "M") with 77%N.
  repeat ncase; try reflexivity; try lia.
Qed.

Lemma isA_isP (c : N) : isA c = true -> isP c = false.
Proof. unfold isA, isP. repeat ncase; try reflexivity; try lia. Qed.

Lemma run_ampm (i : nat) (s : jsstring) (cs : list (nat * jsstring)) :
  run ampm (MState i s cs) =
  match s with
  | a :: m :: r => if (isA a || isP a) && isM m then [MState (S (S i)) r cs]
                   else []
  | _ => []
  end.
Proof.
  unfold ampm, ChrI. cbn [run flat_map app pos rest caps].
  destruct s as [|a [|m r]].
  - reflexivity.
  - rewrite ci_A, ci_P. destruct (isA a), (isP a); reflexivity.
  - rewrite ci_A, ci_P. destruct (isA a) eqn:EA.
    + rewrite (isA_isP a EA). cbn [flat_map app pos rest caps orb andb].
      rewrite ci_M. destruct (isM m); reflexivity.
    + destruct (isP a); cbn [flat_map app pos rest caps orb andb];
        [rewrite ci_M; destruct (isM m)|]; reflexivity.
Qed.

Lemma flat_map_starStates (p : N -> bool) (f : mstate -> list mstate)
      (cs : list (nat * jsstring)) :
  (forall j c t, p c = true -> f (MState j (c :: t) cs) = []) ->
  forall (s : jsstring) (i : nat),
    flat_map f (starStates p i s cs) =
    f (MState (i + (List.length s - List.length (dropWhile p s)))
              (dropWhile p s) cs).
Proof.
  intros Hf. induction s as [|c t IH]; intros i; cbn [starStates dropWhile].
  - cbn [flat_map]. rewrite app_nil_r, Nat.sub_diag, Nat.add_0_r. reflexivity.
  - destruct (p c) eqn:Hp.
    + rewrite flat_map_app, IH. cbn [flat_map]. rewrite (Hf i c t Hp), !app_nil_r.
      pose proof (length_dropWhile p t) as Hd. cbn [List.length].
      replace (i + (S (List.length t) - List.length (dropWhile p t)))
        with (S i + (List.length t - List.length (dropWhile p t))) by lia.
      reflexivity.
    + cbn [flat_map]. rewrite app_nil_r, Nat.sub_diag, Nat.add_0_r. reflexivity.
Qed.

Lemma space_not_period (c : N) :
  isWhiteSpace c = true -> (isA c || isP c)%bool = false.
Proof. unfold isA, isP. units. Qed.

Lemma run_period (i : nat) (s : jsstring) (cs : list (nat * jsstring)) :
  run (Cat (Star (Class isWhiteSpace)) (Group 4 ampm)) (MState i s cs) =
  match dropWhile isWhiteSpace s with
  | a :: m :: r =>
      if (isA a || isP a) && isM m
      then [MState (S (S (i + (List.length s
                               - List.length (dropWhile isWhiteSpace s)))))
                   r ((4, [a; m]) :: cs)]
      else []
  | _ => []
  end.
Proof.
  change (run (Cat (Star (Class isWhiteSpace)) (Group 4 ampm)) (MState i s cs))
    with (flat_map (run (Group 4 ampm))
                   (run (Star (Class isWhiteSpace)) (MState i s cs))).
  rewrite run_Star_Class, flat_map_starStates.
  - set (j := i + (List.length s - List.length (dropWhile isWhiteSpace s))).
    cbn [run]. rewrite run_ampm.
    destruct (dropWhile isWhiteSpace s) as [|a [|m r]]; try reflexivity.
    destruct ((isA a || isP a) && isM m); [|reflexivity].
    cbn [map]. unfold capture. cbn [pos rest caps].
    replace (S (S j) - j) with 2 by lia. reflexivity.
  - intros j c t Hc. cbn [run]. rewrite run_ampm.
    destruct t; [reflexivity|].
    rewrite (space_not_period c Hc). reflexivity.
Qed.

(** The tail of the pattern finds what [timeTail] finds. *)
Lemma run_timeTail (i : nat) (hs ms s4 : jsstring) (cs : list (nat * jsstring)) :
  match timeTail hs ms s4 with
  | Some (_, _, per) =>
      exists m l,
        run timeTailRe (MState i s4 cs) = m :: l
        /\ lookupCap 4 (caps m)
           = match per with Some ap => Some ap | None => lookupCap 4 cs end
        /\ lookupCap 1 (caps m) = lookupCap 1 cs
        /\ lookupCap 2 (caps m) = lookupCap 2 cs
  | None => run timeTailRe (MState i s4 cs) = []
  end.
Proof.
  unfold timeTailRe, Opt, timeTail.
  change (run (Cat (Alt (Group 3 (Cat (Star (Class isWhiteSpace)) (Group 4 ampm)))
                        Eps) Eol) (MState i s4 cs))
    with (flat_map (run Eol)
            (map (capture 3 (MState i s4 cs))
                 (run (Cat (Star (Class isWhiteSpace)) (Group 4 ampm))
                      (MState i s4 cs))
             ++ [MState i s4 cs])).
  rewrite run_period.
  destruct s4 as [|c4 t4].
  - cbn. exists (MState i [] cs), []. repeat split; reflexivity.
  - destruct (dropWhile isWhiteSpace (c4 :: t4)) as [|a [|m r]];
      try reflexivity.
    destruct ((isA a || isP a) && isM m); [|destruct r; reflexivity].
    destruct r as [|x r]; [|reflexivity].
    cbn [map app flat_map run]. unfold capture. cbn [pos rest caps].
    eexists. eexists. split; [reflexivity|]. repeat split; reflexivity.
Qed.

Lemma run_timeMinute (i : nat) (s : jsstring) (cs : list (nat * jsstring)) :
  run timeMinuteRe (MState i s cs) =
  match s with
  | c :: d1 :: d2 :: s4 =>
      if isColon c && isDigit d1 && isDigit d2
      then run timeTailRe (MState (S (S (S i))) s4 ((2, [d1; d2]) :: cs))
      else []
  | _ => []
  end.
Proof.
  unfold timeMinuteRe.
  change (Chr ":") with (Class isColon).
  set (W := timeTailRe).
  cbn [run flat_map map app pos rest caps].
  destruct s as [|c [|d1 [|d2 s4]]]; try reflexivity;
    destruct (isColon c); try reflexivity;
    cbn [flat_map map app pos rest caps andb].
  - destruct (isDigit d1); reflexivity.
  - destruct (isDigit d1); [|reflexivity].
    cbn [flat_map map app pos rest caps andb].
    destruct (isDigit d2); [|reflexivity].
    cbn [flat_map map app pos rest caps andb]. unfold capture.
    cbn [pos rest caps].
    replace (S (S (S i)) - S i) with 2 by lia.
    rewrite !app_nil_r. reflexivity.
Qed.

Lemma run_timeMinute_parts (i : nat) (hs s : jsstring) :
  match timeMinute hs s with
  | Some (h, ms, per) =>
      exists m l,
        run timeMinuteRe (MState i s [(1, hs)]) = m :: l
        /\ lookupCap 1 (caps m) = Some h
        /\ lookupCap 2 (caps m) = Some ms
        /\ lookupCap 4 (caps m) = per
  | None => run timeMinuteRe (MState i s [(1, hs)]) = []
  end.
Proof.
  rewrite run_timeMinute. unfold timeMinute.
  destruct s as [|c [|d1 [|d2 s4]]]; try reflexivity.
  destruct (isColon c && isDigit d1 && isDigit d2); [|reflexivity].
  pose proof (run_timeTail (S (S (S i))) hs [d1; d2] s4 [(2, [d1; d2]); (1, hs)])
    as H.
  destruct (timeTail hs [d1; d2] s4) as [[[h ms] per]|] eqn:E; [|exact H].
  destruct H as [m [l [Hr [H4 [H1 H2]]]]].
  exists m, l. split; [exact Hr|].
  unfold timeTail in E.
  destruct s4 as [|c4 t4].
  - injection E as <- <- <-. auto.
  - destruct (dropWhile isWhiteSpace (c4 :: t4)) as [|a [|x [|y r]]];
      try discriminate.
    destruct ((isA a || isP a) && isM x); [|discriminate].
    injection E as <- <- <-. auto.
Qed.

Lemma digit_not_colon (c : N) : isDigit c = true -> isColon c = false.
Proof. unfold isColon. change (chr ":") with 58%N. units. Qed.

Lemma digit_not_colon' (c : N) : isColon c = true -> isDigit c = false.
Proof. unfold isColon. change (chr ":") with 58%N. units. Qed.

Lemma run_timeRegex (s : jsstring) :
  match timeParts s with
  | Some (hs, ms, per) =>
      exists m l,
        run timeRegex (MState 0 s []) = m :: l
        /\ lookupCap 1 (caps m) = Some hs
        /\ lookupCap 2 (caps m) = Some ms
        /\ lookupCap 4 (caps m) = per
  | None => run timeRegex (MState 0 s []) = []
  end.
Proof.
  change timeRegex
    with (Cat Bol (Cat (Group 1 (Cat (Class isDigit) (Opt (Class isDigit))))
                       timeMinuteRe)).
  set (Y := timeMinuteRe). unfold Opt.
  cbn [run flat_map map app pos rest caps Nat.eqb]. unfold timeParts.
  destruct s as [|c1 s1]; [reflexivity|].
  destruct (isDigit c1); [|reflexivity].
  cbn [flat_map map app pos rest caps].
  destruct s1 as [|c2 s2]; cbn [flat_map map app pos rest caps].
  - unfold capture. cbn [pos rest caps firstn Nat.sub]. subst Y.
    rewrite run_timeMinute. reflexivity.
  - destruct (isDigit c2) eqn:E2; cbn [flat_map map app pos rest caps];
      unfold capture; cbn [pos rest caps firstn Nat.sub]; subst Y;
      rewrite ?app_nil_r.
    + match goal with
      | |- context [_ ++ run timeMinuteRe ?st] =>
          assert (E : run timeMinuteRe st = [])
      end.
      { rewrite run_timeMinute, (digit_not_colon c2 E2).
        destruct s2 as [|? [|? ?]]; reflexivity. }
      rewrite E, app_nil_r. apply run_timeMinute_parts.
    + apply run_timeMinute_parts.
Qed.

Lemma exec_Bol (r : regex) :
  forall (s : jsstring) (i : nat), exec (Cat Bol r) (S i) s = None.
Proof.
  induction s as [|c t IH]; intros i; cbn [exec]; unfold matchAt;
    cbn [run pos Nat.eqb flat_map hd_error]; [reflexivity | apply IH].
Qed.

(** String.prototype.match on timeRegex finds the parts. *)
Lemma match_timeRegex (s : jsstring) :
  match timeParts s with
  | Some (hs, ms, per) =>
      exists m, match_ timeRegex s = Some m
                /\ m 1 = Some hs /\ m 2 = Some ms /\ m 4 = per
  | None => match_ timeRegex s = None
  end.
Proof.
  pose proof (run_timeRegex s) as H. unfold match_.
  destruct (timeParts s) as [[[hs ms] per]|].
  - destruct H as [m [l [Hr [H1 [H2 H4]]]]].
    assert (E : exec timeRegex 0 s = Some m).
    { destruct s; cbn [exec]; unfold matchAt; rewrite Hr; reflexivity. }
    rewrite E. eexists. split; [reflexivity|]. auto.
  - assert (E : exec timeRegex 0 s = None).
    { destruct s as [|c t]; cbn [exec]; unfold matchAt; rewrite H;
        cbn [hd_error]; [reflexivity|].
      apply (exec_Bol _ t 0). }
    rewrite E. reflexivity.
Qed.

(** ** normalizeTime *)

Lemma normalizeTime_parts (input : jsstring) :
  normalizeTime input =
  match timeParts (trim input) with
  | Some (hs, ms, ap) => timeOf hs ms ap
  | None => Throw InvalidTimeFormat
  end.
Proof.
  unfold normalizeTime. pose proof (match_timeRegex (trim input)) as H.
  destruct (timeParts (trim input)) as [[[hs ms] ap]|].
  - destruct H as [m [-> [H1 [H2 H4]]]]. rewrite H1, H2, H4. reflexivity.
  - rewrite H. reflexivity.
Qed.

Lemma digitVal_digit (c : N) :
  isDigit c = true -> digitVal 10 c = Some (c - 48)%N.
Proof.
  intros H. unfold digitVal. rewrite H.
  replace (N.ltb (c - 48) 10) with true; [reflexivity|].
  symmetry. apply N.ltb_lt. revert H. units.
Qed.

Lemma digitsPrefix_digits :
  forall (s : jsstring) (acc : N),
    forallb isDigit s = true ->
    digitsPrefix 10 s (Some acc)
    = Some (fold_left (fun a c => 10 * a + (c - 48))%N s acc).
Proof.
  induction s as [|c t IH]; intros acc H; [reflexivity|].
  simpl in H. apply andb_prop in H. destruct H as [Hc Ht].
  cbn [digitsPrefix fold_left]. rewrite (digitVal_digit c Hc). apply IH, Ht.
Qed.

Lemma digit_plain (c : N) :
  isDigit c = true ->
  isWhiteSpace c = false /\ N.eqb c (chr "-") = false
  /\ N.eqb c (chr "+") = false /\ N.eqb c (chr "x") = false
  /\ N.eqb c (chr "X") = false.
Proof.
  change (chr "+") with 43%N. change (chr "x") with 120%N.
  change (chr "X") with 88%N. intros H. repeat split; revert H; units.
Qed.

(** parseInt reads a text of digits as its decimal value. *)
Lemma parseInt_digits (s : jsstring) :
  s <> [] -> forallb isDigit s = true -> parseInt s = Int (valueOf s).
Proof.
  intros Hne H. destruct s as [|c t]; [contradiction|].
  pose proof H as H'. simpl in H'. apply andb_prop in H'.
  destruct H' as [Hc Ht].
  destruct (digit_plain c Hc) as [Hw [Hm [Hp _]]].
  unfold parseInt. cbn [dropWhile]. rewrite Hw, Hm, Hp. cbv beta iota.
  assert (E : digitsPrefix 10 (c :: t) None
              = Some (Z.to_N (valueOf (c :: t)))).
  { cbn [digitsPrefix]. rewrite (digitVal_digit c Hc).
    rewrite digitsPrefix_digits by exact Ht.
    unfold valueOf. rewrite N2Z.id. reflexivity. }
  destruct t as [|x u].
  - rewrite E. unfold valueOf. rewrite N2Z.id. reflexivity.
  - simpl in Ht. apply andb_prop in Ht. destruct Ht as [Hx _].
    destruct (digit_plain x Hx) as [_ [_ [_ [H1 H2]]]].
    rewrite H1, H2, andb_false_r. rewrite E.
    unfold valueOf. rewrite N2Z.id. reflexivity.
Qed.

Lemma twoDigits_hours (h : Z) :
  (0 <= h <= 23)%Z ->
  padStart 2 (chr "0") (numberToString (Int h)) = twoDigits h.
Proof.
  intros [H0 H23]. destruct h as [|q|q]; [reflexivity | | lia].
  do 5 (try destruct q as [q|q|]); try lia; reflexivity.
Qed.

Lemma periodOf_upper (ap : jsstring) (x : period) :
  periodOf ap = Some x ->
  toUpperCase ap = match x with AM => js "AM" | PM => js "PM" end.
Proof.
  destruct ap as [|a [|m [|? ?]]]; try discriminate. unfold periodOf.
  assert (HA : isA a = true -> upperUnit a = 65%N)
    by (unfold isA, upperUnit, isLower, between;
        intros; repeat ncase; subst; try reflexivity; try lia).
  assert (HP : isP a = true -> upperUnit a = 80%N)
    by (unfold isP, upperUnit, isLower, between;
        intros; repeat ncase; subst; try reflexivity; try lia).
  assert (HM : isM m = true -> upperUnit m = 77%N)
    by (unfold isM, upperUnit, isLower, between;
        intros; repeat ncase; subst; try reflexivity; try lia).
  destruct (isA a) eqn:EA, (isM m) eqn:EM; cbn [andb];
    try (destruct (isP a); discriminate).
  - intros [= <-]. cbn [toUpperCase map]. rewrite HA, HM by reflexivity.
    reflexivity.
  - destruct (isP a) eqn:EP; [|discriminate].
    intros [= <-]. cbn [toUpperCase map]. rewrite HP, HM by reflexivity.
    reflexivity.
Qed.

Lemma timeOf_value (hs ms : jsstring) (ap : option jsstring)
      (per : option period) :
  hs <> [] -> forallb isDigit hs = true ->
  ms <> [] -> forallb isDigit ms = true ->
  denotes ap per ->
  timeOf hs ms ap =
  if (hour24 (valueOf hs) per <=? 23)%Z && (valueOf ms <=? 59)%Z
  then Return (twoDigits (hour24 (valueOf hs) per) ++ js ":" ++ ms)
  else Throw InvalidTimeValues.
Proof.
  intros Hh Hhd Hm Hmd Hap. unfold timeOf.
  rewrite (parseInt_digits Hh Hhd), (parseInt_digits Hm Hmd).
  assert (H0 : (0 <= valueOf hs)%Z) by (unfold valueOf; lia).
  assert (M0 : (0 <= valueOf ms)%Z) by (unfold valueOf; lia).
  set (h := valueOf hs) in *. set (mi := valueOf ms) in *.
  assert (Hfin : forall k : Z, (0 <= k)%Z ->
            (if lt (Int k) 0 || gt (Int k) 23 || lt (Int mi) 0 || gt (Int mi) 59
             then Throw InvalidTimeValues
             else Return (padStart 2 (chr "0") (numberToString (Int k))
                            ++ js ":" ++ ms))
            = if (k <=? 23)%Z && (mi <=? 59)%Z
              then Return (twoDigits k ++ js ":" ++ ms)
              else Throw InvalidTimeValues).
  { intros k Hk. cbn [lt gt].
    destruct (Z.ltb_spec k 0); [lia|].
    destruct (Z.ltb_spec mi 0); [lia|].
    destruct (Z.ltb_spec 23 k), (Z.leb_spec k 23); try lia;
      cbn [orb andb]; [reflexivity|].
    destruct (Z.ltb_spec 59 mi), (Z.leb_spec mi 59); try lia;
      [reflexivity|].
    rewrite twoDigits_hours by lia. reflexivity. }
  destruct per as [[|]|]; cbn [denotes] in Hap.
  - destruct Hap as [a [-> Ha]]. cbn [option_map].
    rewrite (periodOf_upper a Ha). cbn [hour24].
    change (truthy (Some (js "AM"))) with true.
    change (equals (Some (js "AM")) "PM") with false.
    change (equals (Some (js "AM")) "AM") with true. cbn [andb].
    unfold seq. destruct (Z.eqb_spec h 12); apply Hfin; lia.
  - destruct Hap as [a [-> Ha]]. cbn [option_map].
    rewrite (periodOf_upper a Ha). cbn [hour24].
    change (truthy (Some (js "PM"))) with true.
    change (equals (Some (js "PM")) "PM") with true.
    change (equals (Some (js "PM")) "AM") with false. cbn [andb negb].
    unfold seq, add. clearbody h.
    destruct (Z.eqb_spec h 12) as [e|e]; [rewrite e|]; cbn [negb];
      apply Hfin; lia.
  - subst ap. cbn [option_map truthy hour24]. apply Hfin; lia.
Qed.

Lemma dropWhile_suffix_all (p : N -> bool) (s : jsstring) :
  exists l, s = l ++ dropWhile p s /\ forallb p l = true.
Proof.
  induction s as [|c t [l [Hl Hp]]]; simpl; [exists []; split; reflexivity|].
  destruct (p c) eqn:E.
  - exists (c :: l). simpl. rewrite E, Hp. split; [f_equal; exact Hl | reflexivity].
  - exists []. split; reflexivity.
Qed.

Lemma dropWhile_app_stop (p : N -> bool) (w : jsstring) (a : N) (r : jsstring) :
  forallb p w = true -> p a = false -> dropWhile p (w ++ a :: r) = a :: r.
Proof.
  intros Hw Ha. induction w as [|c t IH]; simpl in *; [rewrite Ha; reflexivity|].
  apply andb_prop in Hw. destruct Hw as [Hc Ht]. rewrite Hc. apply IH, Ht.
Qed.

Lemma periodOf_letters (ap : jsstring) (x : period) :
  periodOf ap = Some x ->
  exists a m, ap = [a; m] /\ ((isA a || isP a) && isM m)%bool = true
              /\ isWhiteSpace a = false.
Proof.
  destruct ap as [|a [|m [|? ?]]]; try discriminate. unfold periodOf.
  intros H. exists a, m. split; [reflexivity|].
  assert (Hw : (isA a || isP a)%bool = true -> isWhiteSpace a = false).
  { destruct (isWhiteSpace a) eqn:E; [|reflexivity].
    rewrite (space_not_period a E). discriminate. }
  destruct (isA a), (isP a), (isM m); cbn [andb orb] in *;
    try discriminate; split; auto.
Qed.

Lemma letters_periodOf (a m : N) :
  ((isA a || isP a) && isM m)%bool = true -> exists x, periodOf [a; m] = Some x.
Proof.
  unfold periodOf. destruct (isA a), (isP a), (isM m); cbn [andb orb];
    try discriminate; eauto.
Qed.

Lemma accepted_timeParts (s hs ms : jsstring) (per : option period) :
  accepted s hs ms per ->
  exists ap, timeParts s = Some (hs, ms, ap) /\ denotes ap per.
Proof.
  intros [Hlen [Hd [Hlm [Hdm Hs]]]].
  destruct ms as [|d1 [|d2 [|? ?]]]; try discriminate.
  cbn [forallb] in Hdm. apply andb_prop in Hdm. destruct Hdm as [Hd1 Hd2].
  rewrite andb_true_r in Hd2.
  assert (Htail : forall h : jsstring,
            match per with
            | None => exists ap, timeTail h [d1; d2] [] = Some (h, [d1; d2], ap)
                                 /\ denotes ap per
            | Some x => forall w a,
                forallb isWhiteSpace w = true -> periodOf a = Some x ->
                exists ap, timeTail h [d1; d2] (w ++ a) = Some (h, [d1; d2], ap)
                           /\ denotes ap per
            end).
  { intros h. destruct per as [x|].
    - intros w a Hw Ha.
      destruct (periodOf_letters a Ha) as [l [m [-> [Hlm' Hl]]]].
      unfold timeTail. rewrite (dropWhile_app_stop isWhiteSpace w l [m] Hw Hl).
      rewrite Hlm'. destruct (w ++ [l; m]) eqn:E.
      + destruct w; discriminate.
      + exists (Some [l; m]). split; [reflexivity|].
        exists [l; m]. split; [reflexivity | exact Ha].
    - exists None. split; reflexivity. }
  assert (Hcol : isColon (chr ":") = true) by reflexivity.
  destruct hs as [|c1 [|c2 [|? ?]]]; cbn [List.length] in Hlen;
    try (destruct Hlen; discriminate); cbn [forallb] in Hd.
  - rewrite andb_true_r in Hd. specialize (Htail [c1]).
    destruct per as [x|].
    + destruct Hs as [w [a [Hw [Ha ->]]]].
      destruct (Htail w a Hw Ha) as [ap [Ht Hden]].
      exists ap. split; [|exact Hden].
      change ([c1] ++ js ":" ++ [d1; d2] ++ w ++ a)
        with (c1 :: chr ":" :: d1 :: d2 :: w ++ a).
      unfold timeParts, timeMinute.
      rewrite Hd, (digit_not_colon' (chr ":") Hcol), Hcol, Hd1, Hd2. exact Ht.
    + destruct Htail as [ap [Ht Hden]]. subst s.
      exists ap. split; [|exact Hden].
      change ([c1] ++ js ":" ++ [d1; d2]) with [c1; chr ":"; d1; d2].
      unfold timeParts, timeMinute.
      rewrite Hd, (digit_not_colon' (chr ":") Hcol), Hcol, Hd1, Hd2. exact Ht.
  - apply andb_prop in Hd. destruct Hd as [Hc1 Hc2].
    rewrite andb_true_r in Hc2. specialize (Htail [c1; c2]).
    destruct per as [x|].
    + destruct Hs as [w [a [Hw [Ha ->]]]].
      destruct (Htail w a Hw Ha) as [ap [Ht Hden]].
      exists ap. split; [|exact Hden].
      change ([c1; c2] ++ js ":" ++ [d1; d2] ++ w ++ a)
        with (c1 :: c2 :: chr ":" :: d1 :: d2 :: w ++ a).
      unfold timeParts, timeMinute.
      rewrite Hc1, Hc2, Hcol, Hd1, Hd2. exact Ht.
    + destruct Htail as [ap [Ht Hden]]. subst s.
      exists ap. split; [|exact Hden].
      change ([c1; c2] ++ js ":" ++ [d1; d2]) with [c1; c2; chr ":"; d1; d2].
      unfold timeParts, timeMinute.
      rewrite Hc1, Hc2, Hcol, Hd1, Hd2. exact Ht.
Qed.

Lemma isColon_eq (c : N) : isColon c = true -> c = chr ":".
Proof. unfold isColon. intros H. apply N.eqb_eq in H. congruence. Qed.

Lemma timeTail_accepted (hs ms s4 h m : jsstring) (ap : option jsstring) :
  timeTail hs ms s4 = Some (h, m, ap) ->
  h = hs /\ m = ms
  /\ exists per,
       match per with
       | None => s4 = []
       | Some x => exists w a, forallb isWhiteSpace w = true
                               /\ periodOf a = Some x /\ s4 = w ++ a
       end.
Proof.
  unfold timeTail. destruct s4 as [|c4 t4].
  - intros [= <- <- <-]. repeat split. exists None. reflexivity.
  - destruct (dropWhile_suffix_all isWhiteSpace (c4 :: t4)) as [w [Hw Hp]].
    destruct (dropWhile isWhiteSpace (c4 :: t4)) as [|a [|x [|? ?]]];
      try discriminate.
    destruct ((isA a || isP a) && isM x) eqn:E; [|discriminate].
    intros [= <- <- <-]. repeat split.
    destruct (letters_periodOf a x E) as [per Hper].
    exists (Some per), w, [a; x]. auto.
Qed.

Lemma timeMinute_accepted (hs s h m : jsstring) (ap : option jsstring) :
  timeMinute hs s = Some (h, m, ap) ->
  h = hs /\ List.length m = 2 /\ forallb isDigit m = true
  /\ exists per,
       match per with
       | None => s = js ":" ++ m
       | Some x => exists w a, forallb isWhiteSpace w = true
                               /\ periodOf a = Some x
                               /\ s = js ":" ++ m ++ w ++ a
       end.
Proof.
  unfold timeMinute. destruct s as [|c [|d1 [|d2 s4]]]; try discriminate.
  destruct (isColon c) eqn:Ec; [|discriminate].
  destruct (isDigit d1) eqn:E1; [|discriminate].
  destruct (isDigit d2) eqn:E2; [|discriminate].
  cbn [andb]. intros H. apply timeTail_accepted in H.
  destruct H as [-> [-> [per Hper]]].
  rewrite (isColon_eq c Ec).
  split; [reflexivity|]. split; [reflexivity|].
  split; [cbn [forallb]; rewrite E1, E2; reflexivity|].
  exists per. destruct per as [x|].
  - destruct Hper as [w [a [Hw [Ha ->]]]]. exists w, a. auto.
  - subst s4. reflexivity.
Qed.

(** What the pattern finds is of the accepted form. *)
Lemma timeParts_accepted (s hs ms : jsstring) (ap : option jsstring) :
  timeParts s = Some (hs, ms, ap) -> exists per, accepted s hs ms per.
Proof.
  unfold timeParts. destruct s as [|c1 s1]; [discriminate|].
  destruct (isDigit c1) eqn:E1; [|discriminate].
  destruct s1 as [|c2 s2]; [discriminate|].
  destruct (isDigit c2) eqn:E2; intros H; apply timeMinute_accepted in H;
    destruct H as [-> [Hl [Hd [per Hper]]]]; exists per; unfold accepted;
    cbn [List.length forallb]; rewrite E1, ?E2.
  - split; [right; reflexivity|]. split; [reflexivity|].
    split; [exact Hl|]. split; [exact Hd|].
    destruct per as [x|].
    + destruct Hper as [w [a [Hw [Ha ->]]]]. exists w, a. auto.
    + subst s2. reflexivity.
  - split; [left; reflexivity|]. split; [reflexivity|].
    split; [exact Hl|]. split; [exact Hd|].
    destruct per as [x|].
    + destruct Hper as [w [a [Hw [Ha ->]]]]. exists w, a. auto.
    + rewrite Hper. reflexivity.
Qed.

Lemma accepted_digits (s hs ms : jsstring) (per : option period) :
  accepted s hs ms per -> hs <> [] /\ ms <> [].
Proof.
  intros [Hlen [_ [Hlm _]]]. split; intros ->; simpl in *;
    [destruct Hlen|]; discriminate.
Qed.

(** normalizeTime on a text of the accepted form. *)
Lemma normalizeTime_value (input hs ms : jsstring) (per : option period) :
  accepted (trim input) hs ms per ->
  normalizeTime input =
  if (hour24 (valueOf hs) per <=? 23)%Z && (valueOf ms <=? 59)%Z
  then Return (twoDigits (hour24 (valueOf hs) per) ++ js ":" ++ ms)
  else Throw InvalidTimeValues.
Proof.
  intros Hacc. rewrite normalizeTime_parts.
  destruct (accepted_timeParts Hacc) as [ap [-> Hden]].
  destruct (accepted_digits Hacc) as [Hh Hm].
  destruct Hacc as [_ [Hd [_ [Hdm _]]]].
  apply timeOf_value; assumption.
Qed.

Lemma normalizeTime_format (input : jsstring) :
  (forall hs ms per, ~ accepted (trim input) hs ms per) ->
  normalizeTime input = Throw InvalidTimeFormat.
Proof.
  intros Hno. rewrite normalizeTime_parts.
  destruct (timeParts (trim input)) as [[[hs ms] ap]|] eqn:E; [|reflexivity].
  destruct (timeParts_accepted _ E) as [per Hacc].
  destruct (Hno hs ms per Hacc).
Qed.

(** ** normalizeDate *)

Lemma decimal_digits :
  forall (fuel : nat) (n : N) (acc : jsstring),
    forallb isDigit acc = true -> forallb isDigit (decimal fuel n acc) = true.
Proof.
  induction fuel as [|k IH]; intros n acc Hacc; [exact Hacc|].
  cbn [decimal].
  assert (Hd : forallb isDigit ((48 + n mod 10)%N :: acc) = true).
  { cbn [forallb]. rewrite Hacc, andb_true_r.
    assert (Hm : (n mod 10 < 10)%N) by (apply N.mod_lt; discriminate).
    generalize dependent (n mod 10)%N. intros r Hr.
    unfold isDigit, between. apply andb_true_intro.
    split; apply N.leb_le; lia. }
  destruct (N.ltb n 10); [exact Hd | apply IH, Hd].
Qed.

Lemma decimal_length :
  forall (fuel k : nat) (n : N) (acc : jsstring),
    (n < pow10 (S k))%N ->
    List.length (decimal fuel n acc) <= S k + List.length acc.
Proof.
  induction fuel as [|f IH]; intros k n acc Hn; cbn [decimal]; [lia|].
  destruct (N.ltb_spec n 10) as [Hlt|Hge]; [simpl; lia|].
  destruct k as [|k'].
  - cbn [pow10] in Hn. lia.
  - assert (Hq : (n / 10 < pow10 (S k'))%N).
    { apply N.Div0.div_lt_upper_bound. exact Hn. }
    pose proof (@IH k' (n / 10)%N ((48 + n mod 10)%N :: acc) Hq).
    simpl in *. lia.
Qed.

(** A number below 10^w, padded to [w], is exactly [w] digits. *)
Lemma pad_shape (w : nat) (n : Z) :
  (0 <= n)%Z -> (Z.to_N n < pow10 (S w))%N ->
  List.length (pad (S w) n) = S w /\ forallb isDigit (pad (S w) n) = true.
Proof.
  intros H0 Hn. unfold pad, padStart, digitsOf.
  pose proof (@decimal_length (S (N.to_nat (N.log2 (Z.to_N n)))) w
                (Z.to_N n) [] Hn) as Hl.
  pose proof (decimal_digits (S (N.to_nat (N.log2 (Z.to_N n)))) (Z.to_N n) []
                eq_refl) as Hd.
  set (ds := decimal _ _ _) in *. simpl in Hl. split.
  - rewrite length_app, repeat_length. lia.
  - rewrite forallb_app, Hd, andb_true_r.
    clear. induction (S w - List.length ds); [reflexivity | exact IHn0].
Qed.

Lemma pad_digits (w : nat) (n : Z) : forallb isDigit (pad w n) = true.
Proof.
  unfold pad, padStart, digitsOf.
  rewrite forallb_app, decimal_digits by reflexivity. rewrite andb_true_r.
  induction (w - _); [reflexivity | assumption].
Qed.

Lemma split_cons (sep c : N) (s : jsstring) :
  N.eqb c sep = false ->
  hd [] (split sep (c :: s)) = c :: hd [] (split sep s).
Proof.
  intros H. cbn [split]. rewrite H.
  destruct (split sep s) eqn:E; [|reflexivity].
  destruct s as [|x u]; [discriminate|]. cbn [split] in E.
  destruct (N.eqb x sep); [discriminate|].
  destruct (split sep u); discriminate.
Qed.

(** The first piece of a split is what stands before the separator. *)
Lemma split_head (a b : jsstring) :
  forallb notT a = true -> hd [] (split (chr "T") (a ++ chr "T" :: b)) = a.
Proof.
  induction a as [|c t IH]; intros H.
  - cbn [app split]. rewrite N.eqb_refl. reflexivity.
  - cbn [forallb] in H. apply andb_prop in H. destruct H as [Hc Ht].
    cbn [app]. rewrite split_cons, (IH Ht); [reflexivity|].
    unfold notT in Hc. destruct (N.eqb c (chr "T")); [discriminate|reflexivity].
Qed.

Lemma digit_notT (s : jsstring) :
  forallb isDigit s = true -> forallb notT s = true.
Proof.
  apply forallb_impl. intros c. unfold notT. change (chr "T") with 84%N. units.
Qed.

Lemma isoDate_notT (ymd : Z * Z * Z) : forallb notT (isoDate ymd) = true.
Proof.
  destruct ymd as [[y m] d]. unfold isoDate, isoYear.
  rewrite !forallb_app.
  rewrite !(digit_notT _ (pad_digits 2 _)).
  destruct ((0 <=? y) && (y <=? 9999))%Z.
  - rewrite (digit_notT _ (pad_digits 4 _)). reflexivity.
  - cbn [forallb]. rewrite (digit_notT _ (pad_digits 6 _)).
    destruct (y <? 0)%Z; reflexivity.
Qed.

Lemma toISOString_date (t : Z) :
  hd [] (split (chr "T") (toISOString t)) = isoDate (utcDate t).
Proof.
  unfold toISOString, utcDate.
  pose proof (isoDate_notT (civil (t / msPerDay))) as H.
  destruct (civil (t / msPerDay)) as [[y m] d].
  set (tail := pad 2 (t mod msPerDay / 3600000) ++ _).
  replace (_ ++ js "-" ++ pad 2 m ++ js "-" ++ pad 2 d ++ js "T" ++ tail)
    with (isoDate (y, m, d) ++ chr "T" :: tail).
  - apply split_head, H.
  - unfold isoDate, isoYear. rewrite <- !app_assoc. reflexivity.
Qed.

Lemma normalizeDate_value (dateParse : jsstring -> option Z) (s : jsstring) :
  normalizeDate dateParse s =
  match dateParse s with
  | Some t => Return (isoDate (utcDate t))
  | None => Throw InvalidDateFormat
  end.
Proof.
  unfold normalizeDate. destruct (dateParse s); [|reflexivity].
  rewrite toISOString_date. reflexivity.
Qed.

(** ** The decimal digits of a number *)

Lemma pow2_le_pow10 (k : nat) : (2 ^ N.of_nat k <= pow10 k)%N.
Proof.
  induction k as [|k IH]; [cbn; lia|].
  rewrite Nat2N.inj_succ, N.pow_succ_r'. cbn [pow10]. lia.
Qed.

Lemma digitsOf_fuel (n : N) : (n < pow10 (S (N.to_nat (N.log2 n))))%N.
Proof.
  apply N.lt_le_trans with (2 ^ N.of_nat (S (N.to_nat (N.log2 n))))%N;
    [|apply pow2_le_pow10].
  rewrite Nat2N.inj_succ, N2Nat.id.
  destruct n as [|p]; [cbn; lia|].
  apply N.log2_spec. lia.
Qed.

Lemma decimal_value :
  forall (fuel : nat) (n : N) (acc : jsstring),
    (n < pow10 fuel)%N ->
    fold_left (fun a c => 10 * a + (c - 48))%N (decimal fuel n acc) 0%N
    = fold_left (fun a c => 10 * a + (c - 48))%N acc n.
Proof.
  induction fuel as [|k IH]; intros n acc Hn.
  - cbn [pow10] in Hn. replace n with 0%N by lia. reflexivity.
  - cbn [decimal]. destruct (N.ltb_spec n 10) as [Hlt|Hge].
    + cbn [fold_left]. rewrite N.mod_small by exact Hlt. f_equal. lia.
    + rewrite IH by (apply N.Div0.div_lt_upper_bound; exact Hn).
      cbn [fold_left]. f_equal.
      pose proof (N.div_mod n 10 ltac:(discriminate)) as Hdm.
      generalize dependent (n mod 10)%N. generalize dependent (n / 10)%N.
      intros; lia.
Qed.

(** Number.prototype.toString and parseInt agree: the digits of a number
    are digits, and they denote it. *)
Lemma digitsOf_valueOf (n : N) :
  forallb isDigit (digitsOf n) = true /\ valueOf (digitsOf n) = Z.of_N n.
Proof.
  split; [apply decimal_digits; reflexivity|].
  unfold valueOf, digitsOf. rewrite decimal_value by apply digitsOf_fuel.
  reflexivity.
Qed.

Lemma civil_bounds (day : Z) :
  let '(y, m, d) := civil day in (1 <= m <= 12 /\ 1 <= d <= 31)%Z.
Proof.
  unfold civil.
  set (z := (day + 719468)%Z).
  set (doe := (z mod 146097)%Z).
  assert (Hdoe : (0 <= doe < 146097)%Z) by (apply Z.mod_pos_bound; lia).
  clearbody doe. clear z.
  set (yoe := ((doe - doe / 1460 + doe / 36524 - doe / 146096) / 365)%Z).
  set (doy := (doe - (365 * yoe + yoe / 4 - yoe / 100))%Z).
  assert (Hdoy : (0 <= doy <= 365)%Z).
  { subst doy yoe. Z.to_euclidean_division_equations; lia. }
  clearbody doy.
  set (mp := ((5 * doy + 2) / 153)%Z).
  assert (Hmp : (0 <= mp <= 11)%Z)
    by (subst mp; Z.to_euclidean_division_equations; lia).
  assert (Hd : (1 <= doy - (153 * mp + 2) / 5 + 1 <= 31)%Z)
    by (subst mp; Z.to_euclidean_division_equations; lia).
  clearbody mp.
  destruct (Z.ltb_spec mp 10); split; lia.
Qed.

(** [civil] is the calendar: the day number of the date it gives is the
    day number it was given. *)
Lemma daysFromCivil_civil (day : Z) : daysFromCivil (civil day) = day.
Proof.
  unfold civil, daysFromCivil.
  set (z := (day + 719468)%Z).
  assert (Hz : (day = z - 719468)%Z) by (subst z; lia).
  clearbody z. subst day.
  set (era := (z / 146097)%Z).
  set (doe := (z mod 146097)%Z).
  assert (Hzz : (z = era * 146097 + doe)%Z)
    by (subst era doe; Z.to_euclidean_division_equations; lia).
  assert (Hdoe : (0 <= doe < 146097)%Z) by (apply Z.mod_pos_bound; lia).
  clearbody doe era. subst z.
  set (yoe := ((doe - doe / 1460 + doe / 36524 - doe / 146096) / 365)%Z).
  assert (Hyoe : (0 <= yoe <= 399)%Z)
    by (subst yoe; Z.to_euclidean_division_equations; lia).
  set (doy := (doe - (365 * yoe + yoe / 4 - yoe / 100))%Z).
  assert (Hdoy : (0 <= doy <= 365)%Z)
    by (subst doy yoe; Z.to_euclidean_division_equations; lia).
  assert (Hdoe' : (doe = 365 * yoe + yoe / 4 - yoe / 100 + doy)%Z)
    by (subst doy; lia).
  clearbody doy.
  set (mp := ((5 * doy + 2) / 153)%Z).
  assert (Hmp : (0 <= mp <= 11)%Z)
    by (subst mp; Z.to_euclidean_division_equations; lia).
  set (d := (doy - (153 * mp + 2) / 5 + 1)%Z).
  assert (Hmdoy : (doy = (153 * mp + 2) / 5 + d - 1)%Z) by (subst d; lia).
  clearbody d. clearbody mp. clearbody yoe.
  destruct (Z.ltb_spec mp 10).
  - replace (mp + 3 <=? 2)%Z with false by (symmetry; apply Z.leb_gt; lia).
    replace (2 <? mp + 3)%Z with true by (symmetry; apply Z.ltb_lt; lia).
    replace (mp + 3 - 3)%Z with mp by lia.
    replace ((yoe + era * 400 + 0) / 400)%Z with era
      by (Z.to_euclidean_division_equations; lia).
    replace ((yoe + era * 400 + 0) mod 400)%Z with yoe
      by (Z.to_euclidean_division_equations; lia).
    lia.
  - replace (mp - 9 <=? 2)%Z with true by (symmetry; apply Z.leb_le; lia).
    replace (2 <? mp - 9)%Z with false by (symmetry; apply Z.ltb_ge; lia).
    replace (mp - 9 + 9)%Z with mp by lia.
    replace (yoe + era * 400 + 1 - 1)%Z with (yoe + era * 400)%Z by lia.
    replace ((yoe + era * 400) / 400)%Z with era
      by (Z.to_euclidean_division_equations; lia).
    replace ((yoe + era * 400) mod 400)%Z with yoe
      by (Z.to_euclidean_division_equations; lia).
    lia.
Qed.

Lemma isoDate_shape (y m d : Z) :
  (0 <= y <= 9999)%Z -> (1 <= m <= 12)%Z -> (1 <= d <= 31)%Z ->
  isYMD (isoDate (y, m, d)) = true.
Proof.
  intros Hy Hm Hd. unfold isoDate, isoYear.
  replace ((0 <=? y) && (y <=? 9999))%Z with true
    by (symmetry; apply andb_true_intro; split; apply Z.leb_le; lia).
  destruct (@pad_shape 3 y) as [Ly Dy]; [lia | change (pow10 4) with 10000%N; lia|].
  destruct (@pad_shape 1 m) as [Lm Dm]; [lia | change (pow10 2) with 100%N; lia|].
  destruct (@pad_shape 1 d) as [Ld Dd]; [lia | change (pow10 2) with 100%N; lia|].
  destruct (pad 4 y) as [|y1 [|y2 [|y3 [|y4 [|? ?]]]]]; try discriminate.
  destruct (pad 2 m) as [|m1 [|m2 [|? ?]]]; try discriminate.
  destruct (pad 2 d) as [|d1 [|d2 [|? ?]]]; try discriminate.
  cbn [forallb] in Dy, Dm, Dd.
  repeat match goal with
         | H : (_ && _)%bool = true |- _ => apply andb_prop in H; destruct H
         end.
  cbn [app js isYMD forallb]. change (js "-") with [chr "-"]. cbn [app isYMD forallb].
  repeat match goal with H : isDigit _ = true |- _ => rewrite H; clear H end.
  reflexivity.
Qed.

(** ** Event.create and POST *)

Lemma Event_create_run (host : Host) (c : exc IEvent) (w : world) :
  match Event_create host c w with
  | (Return d, w') =>
      events w' = events w ++ [d] /\ bookings w' = bookings w
      /\ assets w' = assets w
      /\ trace w' = trace w ++ [EventSaveCalled; EventInserted (_id d)]
      /\ exists input,
           c = Return input
           /\ validateEvent (eventSetters input) = []
           /\ eventPreSave host (Document true (eventPaths (eventSetters input))
                                          (eventSetters input))
              = Return (fields d)
           /\ existsb (fun x => sameSlug (slug (fields x)) (slug (fields d)))
                      (events w) = false
  | (Throw e, w') =>
      events w' = events w /\ bookings w' = bookings w /\ assets w' = assets w
      /\ trace w' = trace w ++ [EventSaveCalled]
  end.
Proof.
  unfold Event_create, bind, emit, lift, throw.
  destruct c as [input|e]; [|cbn; auto].
  destruct (validateEvent (eventSetters input)) eqn:Ev; [|cbn; auto].
  destruct (eventPreSave host _) as [e'|e] eqn:Eh; [|cbn; auto].
  unfold insertEvent. cbn [events bookings assets clock trace].
  destruct (existsb _ (events w)) eqn:Ex; cbn; [auto|].
  repeat split; [rewrite <- app_assoc; reflexivity|].
  exists input. auto.
Qed.

Opaque Event_create.

Lemma POST_connect_failed (host : Host) (req : NextRequest) (w : world)
      (e : error) :
  connecting host = Throw e ->
  POST host req w = (Return (failed e), logged w [Connected; ConsoleError]).
Proof.
  intros H. unfold POST, tryCatch, bind, connectDB, emit, lift, ret.
  rewrite H. cbn. unfold logged. rewrite <- app_assoc. reflexivity.
Qed.

Lemma POST_form_failed (host : Host) (req : NextRequest) (w : world)
      (e : error) :
  connecting host = Return tt -> formData req = Throw e ->
  POST host req w = (Return (failed e), logged w [Connected; ConsoleError]).
Proof.
  intros H1 H2. unfold POST, tryCatch, bind, connectDB, emit, lift, ret.
  rewrite H1, H2. cbn. unfold logged. rewrite <- app_assoc. reflexivity.
Qed.

Lemma POST_missing_image (host : Host) (req : NextRequest) (w : world)
      (fd : FormData) :
  connecting host = Return tt -> formData req = Return fd ->
  falsy (get "image" fd) = true ->
  POST host req w
  = (Return (badRequest "Image file is required"), logged w [Connected]).
Proof.
  intros H1 H2 H3. unfold POST, tryCatch, bind, connectDB, emit, lift, ret.
  rewrite H1, H2. cbn. rewrite H3. reflexivity.
Qed.

Lemma POST_not_prepared (host : Host) (req : NextRequest) (w : world)
      (fd : FormData) (e : error) :
  connecting host = Return tt -> formData req = Return fd ->
  falsy (get "image" fd) = false ->
  prepared host fd = Throw e ->
  POST host req w = (Return (failed e), logged w [Connected; ConsoleError]).
Proof.
  intros H1 H2 H3 H4. unfold POST, tryCatch, bind, connectDB, emit, lift, ret.
  rewrite H1, H2. cbn. rewrite H3. unfold prepared, andThen in H4.
  destruct (jsonParse host (entryString (get "tags" fd))) as [tags|e1];
    [|injection H4 as <-; cbn; unfold logged; rewrite <- app_assoc; reflexivity].
  destruct (jsonParse host (entryString (get "agenda" fd))) as [agenda|e1];
    [|injection H4 as <-; cbn; unfold logged; rewrite <- app_assoc; reflexivity].
  destruct (arrayBuffer (get "image" fd)) as [buffer|e1]; [discriminate|].
  injection H4 as <-. cbn. unfold logged. rewrite <- app_assoc. reflexivity.
Qed.

Lemma POST_upload_failed (host : Host) (req : NextRequest) (w : world)
      (fd : FormData) (tags agenda : json) (buffer : list N) (e : error) :
  connecting host = Return tt -> formData req = Return fd ->
  falsy (get "image" fd) = false ->
  prepared host fd = Return (tags, agenda, buffer) ->
  uploading host buffer = Throw e ->
  POST host req w
  = (Return (failed e),
     logged w [Connected; UploadSettled false; ConsoleError]).
Proof.
  intros H1 H2 H3 H4 H5.
  unfold POST, tryCatch, bind, connectDB, emit, lift, ret, upload.
  rewrite H1, H2. cbn. rewrite H3. unfold prepared, andThen in H4.
  destruct (jsonParse host (entryString (get "tags" fd))) as [t|]; [|discriminate].
  destruct (jsonParse host (entryString (get "agenda" fd))) as [a|]; [|discriminate].
  destruct (arrayBuffer (get "image" fd)) as [b|]; [|discriminate].
  injection H4 as -> -> ->. cbn. rewrite H5. cbn.
  unfold logged. rewrite <- !app_assoc. reflexivity.
Qed.

Lemma POST_uploaded (host : Host) (req : NextRequest) (w : world)
      (fd : FormData) (tags agenda : json) (buffer : list N)
      (r : UploadResult) :
  connecting host = Return tt -> formData req = Return fd ->
  falsy (get "image" fd) = false ->
  prepared host fd = Return (tags, agenda, buffer) ->
  uploading host buffer = Return r ->
  POST host req w
  = match Event_create host (eventObject host fd tags agenda r)
                       (uploaded w buffer) with
    | (Return d, w') => (Return (created d), w')
    | (Throw e, w') => (Return (failed e), logged w' [ConsoleError])
    end.
Proof.
  intros H1 H2 H3 H4 H5.
  unfold POST, tryCatch, bind, connectDB, emit, lift, ret, upload.
  rewrite H1, H2. cbn. rewrite H3. unfold prepared, andThen in H4.
  destruct (jsonParse host (entryString (get "tags" fd))) as [t|]; [|discriminate].
  destruct (jsonParse host (entryString (get "agenda" fd))) as [a|]; [|discriminate].
  destruct (arrayBuffer (get "image" fd)) as [b|]; [|discriminate].
  injection H4 as -> -> ->. cbn. rewrite H5. cbn.
  unfold eventObject, fromEntries, uploaded.
  rewrite <- !app_assoc. cbn [app].
  destruct (Event_create host _ _) as [[d|e] w']; reflexivity.
Qed.

Transparent Event_create.

(** Every run of POST is one of five: a failure before the upload, the
    missing image, the failed upload, the failed save, the created
    event. *)
Lemma POST_cases (host : Host) (req : NextRequest) (w : world) :
  let r := fst (POST host req w) in
  let w' := snd (POST host req w) in
  bookings w' = bookings w
  /\ ((exists e, r = Return (failed e)
                 /\ trace w' = trace w ++ [Connected; ConsoleError]
                 /\ events w' = events w /\ assets w' = assets w)
      \/ (r = Return (badRequest "Image file is required")
          /\ trace w' = trace w ++ [Connected]
          /\ events w' = events w /\ assets w' = assets w)
      \/ (exists e, r = Return (failed e)
                    /\ trace w' = trace w
                                  ++ [Connected; UploadSettled false; ConsoleError]
                    /\ events w' = events w /\ assets w' = assets w)
      \/ (exists e buffer,
             r = Return (failed e)
             /\ trace w' = trace w ++ [Connected; UploadSettled true;
                                       EventSaveCalled; ConsoleError]
             /\ events w' = events w /\ assets w' = assets w ++ [buffer])
      \/ (exists d buffer,
             r = Return (created d)
             /\ trace w' = trace w ++ [Connected; UploadSettled true;
                                       EventSaveCalled; EventInserted (_id d)]
             /\ events w' = events w ++ [d]
             /\ assets w' = assets w ++ [buffer])).
Proof.
  intros r w'. subst r w'.
  destruct (connecting host) as [[]|e] eqn:H1.
  2: { rewrite (@POST_connect_failed host req w e H1). cbn. split; [reflexivity|].
       left. exists e. auto. }
  destruct (formData req) as [fd|e] eqn:H2.
  2: { rewrite (@POST_form_failed host req w e H1 H2). cbn. split; [reflexivity|].
       left. exists e. auto. }
  destruct (falsy (get "image" fd)) eqn:H3.
  { rewrite (@POST_missing_image host req w fd H1 H2 H3). cbn. split; [reflexivity|].
    right. left. auto. }
  destruct (prepared host fd) as [[[tags agenda] buffer]|e] eqn:H4.
  2: { rewrite (@POST_not_prepared host req w fd e H1 H2 H3 H4). cbn. split; [reflexivity|].
       left. exists e. auto. }
  destruct (uploading host buffer) as [res|e] eqn:H5.
  2: { rewrite (@POST_upload_failed host req w fd tags agenda buffer e H1 H2 H3 H4 H5). cbn.
       split; [reflexivity|]. right. right. left. exists e. auto. }
  rewrite (@POST_uploaded host req w fd tags agenda buffer res H1 H2 H3 H4 H5).
  pose proof (Event_create_run host (eventObject host fd tags agenda res)
                               (uploaded w buffer)) as Hrun.
  destruct (Event_create host _ _) as [[d|e] w1].
  - destruct Hrun as [He [Hb [Ha [Ht _]]]]. cbn [fst snd].
    split; [exact Hb|]. right. right. right. right. exists d, buffer.
    split; [reflexivity|]. split; [|split].
    + rewrite Ht. cbn. rewrite <- app_assoc. reflexivity.
    + rewrite He. reflexivity.
    + rewrite Ha. reflexivity.
  - destruct Hrun as [He [Hb [Ha Ht]]]. unfold logged.
    cbn [fst snd bookings trace events assets].
    split; [exact Hb|]. right. right. right. left. exists e, buffer.
    split; [reflexivity|]. split; [|split].
    + rewrite Ht. cbn. rewrite <- !app_assoc. reflexivity.
    + rewrite He. reflexivity.
    + rewrite Ha. reflexivity.
Qed.

(** ** The Booking hook, Booking.create and createBooking *)

Lemma find_existsb (id : ObjectId) (l : list (stored IEvent)) :
  option_map (@_id IEvent) (find (fun d => N.eqb (_id d) id) l)
  = if existsb (fun d => N.eqb (_id d) id) l then Some id else None.
Proof.
  induction l as [|d t IH]; [reflexivity|]. cbn [find existsb].
  destruct (N.eqb_spec (_id d) id) as [E|E]; cbn [orb option_map];
    [rewrite E; reflexivity | exact IH].
Qed.

Lemma bookingPreSave_skipped (b : document IBooking) (w : world) :
  isNew b = false -> isModified b "eventId" = false ->
  bookingPreSave b w = (Return tt, w).
Proof. intros H1 H2. unfold bookingPreSave. rewrite H1, H2. reflexivity. Qed.

Lemma bookingPreSave_checked (b : document IBooking) (w : world) :
  isNew b = true \/ isModified b "eventId" = true ->
  bookingPreSave b w
  = (if eventExists (eventId (doc b)) w then Return tt
     else Throw (EventNotFound (eventId (doc b))),
     logged w [EventLookup (eventId (doc b))]).
Proof.
  intros H. unfold bookingPreSave.
  replace (negb (isNew b) && negb (isModified b "eventId")) with false
    by (destruct H as [-> | ->]; [|rewrite andb_false_r]; reflexivity).
  cbv beta iota delta [bind findEventById emit throw ret logged eventExists].
  cbn [events bookings assets clock trace]. rewrite find_existsb.
  destruct (existsb _ (events w)); reflexivity.
Qed.

Lemma Booking_create_run (host : Host) (input : BookingInput) (w : world) :
  match Booking_create host input w with
  | (Return d, w') =>
      bookings w' = bookings w ++ [d] /\ events w' = events w
      /\ exists id,
           castObjectId host (eventIdArg input) = Some id
           /\ eventId (fields d) = id
           /\ eventExists id w = true
           /\ trace w' = trace w ++ [BookingSaveCalled; EventLookup id;
                                     BookingInserted (_id d)]
  | (Throw e, w') =>
      bookings w' = bookings w /\ events w' = events w
      /\ ((trace w' = trace w ++ [BookingSaveCalled]
           /\ (validateBooking host input <> []
               \/ castObjectId host (eventIdArg input) = None))
          \/ exists id,
               castObjectId host (eventIdArg input) = Some id
               /\ trace w' = trace w ++ [BookingSaveCalled; EventLookup id]
               /\ (eventExists id w = false -> e = EventNotFound id))
  end.
Proof.
  cbv beta iota delta [Booking_create bind emit throw].
  destruct (validateBooking host input) as [|f fs] eqn:Ev.
  2: { cbn. repeat split. left. split; [reflexivity|]. left. discriminate. }
  destruct (castObjectId host (eventIdArg input)) as [id|] eqn:Ec.
  2: { cbn. repeat split. left. split; [reflexivity|]. right. reflexivity. }
  cbv beta iota zeta. rewrite bookingPreSave_checked by (left; reflexivity).
  cbn [doc eventId]. unfold eventExists, logged.
  cbn [events bookings assets clock trace].
  destruct (existsb _ (events w)) eqn:Ex.
  - unfold insertBooking. cbn [events bookings assets clock trace].
    destruct (existsb _ (bookings w)); cbn [fst snd events bookings trace].
    + split; [reflexivity|]. split; [reflexivity|]. right. exists id.
      split; [reflexivity|]. split; [rewrite <- app_assoc; reflexivity|].
      unfold eventExists. rewrite Ex. discriminate.
    + split; [reflexivity|]. split; [reflexivity|]. exists id.
      split; [reflexivity|]. split; [reflexivity|].
      split; [exact Ex | rewrite <- !app_assoc; reflexivity].
  - cbn [fst snd events bookings trace].
    split; [reflexivity|]. split; [reflexivity|]. right. exists id.
    split; [reflexivity|]. split; [rewrite <- app_assoc; reflexivity|].
    reflexivity.
Qed.

Opaque Booking_create.

(** The action returns, whatever happens below it. *)
Lemma createBooking_run (host : Host) (input : BookingInput) (w : world) :
  createBooking host input w =
  match connecting host with
  | Throw e => (Return (Failure e), logged w [Connected; ConsoleError])
  | Return _ =>
      match Booking_create host input (logged w [Connected]) with
      | (Return d, w') =>
          match Document_lean d with
          | Return b => (Return (Success b), w')
          | Throw e => (Return (Failure e), logged w' [ConsoleError])
          end
      | (Throw e, w') => (Return (Failure e), logged w' [ConsoleError])
      end
  end.
Proof.
  cbv beta iota delta [createBooking tryCatch bind connectDB emit lift ret logged].
  cbn [events bookings assets clock trace].
  destruct (connecting host) as [[]|e].
  - destruct (Booking_create host input _) as [[d|e] w']; reflexivity.
  - cbn [events bookings assets clock trace]. rewrite <- app_assoc. reflexivity.
Qed.

Transparent Booking_create.

(** ** The Event hook *)

Lemma eventPreSave_new (host : Host) (paths : list string) (e e' : IEvent) :
  eventPreSave host (Document true paths e) = Return e' ->
  exists t, title e = Some t
            /\ slug e' = Some (slugSetter (generateSlug t))
            /\ title e' = title e.
Proof.
  unfold eventPreSave, andThen. cbn [isNew doc]. rewrite orb_true_r.
  destruct (title e) as [t|] eqn:Et; [|discriminate].
  intros H. exists t.
  destruct (isModified _ "date").
  - cbn [date withSlug] in H. destruct (date e) as [d|]; [|discriminate].
    destruct (normalizeDate (dateParse host) d) as [d'|]; [|discriminate].
    destruct (isModified _ "time").
    + cbn [time withDate withSlug] in H. destruct (time e); [|discriminate].
      destruct (normalizeTime _); [|discriminate].
      injection H as <-. cbn. auto.
    + injection H as <-. cbn. auto.
  - destruct (isModified _ "time").
    + cbn [time withDate withSlug] in H. destruct (time e); [|discriminate].
      destruct (normalizeTime _); [|discriminate].
      injection H as <-. cbn. auto.
    + injection H as <-. cbn. auto.
Qed.

Lemma validateEvent_slug (v : option jsstring) (e : IEvent) :
  validateEvent (withSlug v e) = validateEvent e.
Proof. reflexivity. Qed.

Lemma slugSetter_slug (title : jsstring) :
  slugSetter (generateSlug title) = generateSlug title.
Proof.
  rewrite generateSlug_slugSpec.
  destruct (slugSpec_shape title) as [Hc _]. unfold slugSetter.
  rewrite (toLowerCase_slugChars _ Hc).
  apply trim_no_space.
  exact (forallb_impl slugChar (Not isWhiteSpace) _ slugChar_not_space Hc).
Qed.

(** * The claims of the specification *)

(** Where the effect [x] stands in a trace that is known. *)
Ltac locate Heq pre :=
  repeat (destruct pre as [|? pre]; cbn [app] in Heq;
          [try discriminate Heq
          | first [discriminate Heq
                  | injection Heq as <- Heq; try discriminate Heq]]).

(** An effect that a known trace does not hold. *)
Ltac absent Hin :=
  cbn [In] in Hin;
  repeat (destruct Hin as [Hin|Hin]; [discriminate Hin|]);
  contradiction.

(** C1.  In POST, a failed upload ends the request: when the upload
    rejects, the response is the failure, no Event is added to the store
    and Event.create is not entered; and in every run Event.create is
    entered only after the upload has settled with success, so the upload
    is awaited to its end before any save is attempted. *)
Theorem POST_failed_upload_persists_nothing :
  forall (host : Host) (req : NextRequest) (w : world),
    let r := fst (POST host req w) in
    let w' := snd (POST host req w) in
    (forall fd tags agenda buffer e,
        connecting host = Return tt -> formData req = Return fd ->
        falsy (get "image" fd) = false ->
        prepared host fd = Return (tags, agenda, buffer) ->
        uploading host buffer = Throw e ->
        r = Return (failed e) /\ events w' = events w
        /\ trace w' = trace w ++ [Connected; UploadSettled false; ConsoleError])
    /\ exists tr,
         trace w' = trace w ++ tr
         /\ (In (UploadSettled false) tr ->
             events w' = events w /\ ~ In EventSaveCalled tr)
         /\ (forall pre post, tr = pre ++ EventSaveCalled :: post ->
             In (UploadSettled true) pre).
Proof.
  intros host req w r w'. split.
  - intros fd tags agenda buffer e H1 H2 H3 H4 H5. subst r w'.
    rewrite (@POST_upload_failed host req w fd tags agenda buffer e H1 H2 H3 H4 H5).
    cbn. auto.
  - destruct (POST_cases host req w) as [_ H]. fold r w' in H.
    destruct H as [[e [_ [Ht [He _]]]]
                  |[[_ [Ht [He _]]]
                  |[[e [_ [Ht [He _]]]]
                  |[[e [b [_ [Ht [He _]]]]]
                  |[d [b [_ [Ht [He _]]]]]]]]];
      eexists; (split; [exact Ht|]); (split; [|intros pre post Heq]).
    + intros Hin. absent Hin.
    + locate Heq pre.
    + intros Hin. absent Hin.
    + locate Heq pre.
    + intros _. split; [exact He|]. intros Hin. absent Hin.
    + locate Heq pre.
    + intros Hin. absent Hin.
    + locate Heq pre. right. left. reflexivity.
    + intros Hin. absent Hin.
    + locate Heq pre. right. left. reflexivity.
Qed.

(** The image host rejects the payload of a well-formed request. *)
Lemma POST_failed_upload_persists_nothing_witness :
  let host := Node.host 0 Node.rejects in
  let req := Scenario.request
               (Scenario.form "Hello, World!!! 2024" Scenario.goodTags
                              Scenario.withPoster) in
  uploading host (content Scenario.poster)
  = Throw (Thrown (js "{ message: 'Invalid image file', http_code: 400 }"))
  /\ fst (POST host req Scenario.empty)
     = Return (failed (Thrown (js "{ message: 'Invalid image file', http_code: 400 }")))
  /\ events (snd (POST host req Scenario.empty)) = []
  /\ trace (snd (POST host req Scenario.empty))
     = [Connected; UploadSettled false; ConsoleError].
Proof.
  intros host req. split; [reflexivity|].
  eapply (proj1 (POST_failed_upload_persists_nothing host req Scenario.empty));
    reflexivity.
Defined.

(** C2, on the code.  POST answers 201 with message and event when the
    event is created, 400 with message when the image part is missing,
    and 500 with message and error when the upload or the save fails.
    When tags or agenda is not valid JSON it answers 500 with message and
    error as well, not 400: JSON.parse stands outside the inner try whose
    handler answers 400 'Invalid JSON data format', and its SyntaxError
    reaches the outer handler. *)
Theorem POST_responses :
  forall (host : Host) (req : NextRequest) (w : world) (fd : FormData),
    connecting host = Return tt -> formData req = Return fd ->
    let r := fst (POST host req w) in
    status (badRequest "Image file is required") = 400%N
    /\ map fst (body (badRequest "Image file is required")) = ["message"%string]
    /\ (forall e, status (failed e) = 500%N
                  /\ map fst (body (failed e)) = ["message"; "error"]%string)
    /\ (forall d, status (created d) = 201%N
                  /\ map fst (body (created d)) = ["message"; "event"]%string)
    /\ (falsy (get "image" fd) = true ->
        r = Return (badRequest "Image file is required"))
    /\ (falsy (get "image" fd) = false ->
        (forall e, jsonParse host (entryString (get "tags" fd)) = Throw e ->
                   r = Return (failed e))
        /\ (forall tags e,
               jsonParse host (entryString (get "tags" fd)) = Return tags ->
               jsonParse host (entryString (get "agenda" fd)) = Throw e ->
               r = Return (failed e))
        /\ (forall tags agenda buffer,
               prepared host fd = Return (tags, agenda, buffer) ->
               (forall e, uploading host buffer = Throw e ->
                          r = Return (failed e))
               /\ (forall res,
                      uploading host buffer = Return res ->
                      match Event_create host
                              (eventObject host fd tags agenda res)
                              (uploaded w buffer) with
                      | (Return d, _) => r = Return (created d)
                      | (Throw e, _) => r = Return (failed e)
                      end))).
Proof.
  intros host req w fd H1 H2 r.
  split; [reflexivity|]. split; [reflexivity|].
  split; [intros e; split; reflexivity|].
  split; [intros d; split; reflexivity|].
  split.
  - intros H3. subst r.
    rewrite (@POST_missing_image host req w fd H1 H2 H3). reflexivity.
  - intros H3. split; [|split].
    + intros e He. subst r.
      rewrite (@POST_not_prepared host req w fd e H1 H2 H3); [reflexivity|].
      unfold prepared. rewrite He. reflexivity.
    + intros tags e Ht He. subst r.
      rewrite (@POST_not_prepared host req w fd e H1 H2 H3); [reflexivity|].
      unfold prepared. rewrite Ht. cbn [andThen]. rewrite He. reflexivity.
    + intros tags agenda buffer H4. split.
      * intros e H5. subst r.
        rewrite (@POST_upload_failed host req w fd tags agenda buffer e
                   H1 H2 H3 H4 H5). reflexivity.
      * intros res H5. subst r.
        rewrite (@POST_uploaded host req w fd tags agenda buffer res
                   H1 H2 H3 H4 H5).
        destruct (Event_create host _ _) as [[d|e] w1]; reflexivity.
Qed.

(** A well-formed request but for its tags, which are no JSON. *)
Lemma POST_responses_witness :
  let host := Node.host 0 Node.accepts in
  let fd := Scenario.form "Hello, World!!! 2024" (js "not json")
                          Scenario.withPoster in
  let e := SyntaxError (js "not json is not valid JSON") in
  falsy (get "image" fd) = false
  /\ jsonParse host (entryString (get "tags" fd)) = Throw e
  /\ fst (POST host (Scenario.request fd) Scenario.empty) = Return (failed e)
  /\ status (failed e) = 500%N.
Proof.
  intros host fd e.
  split; [reflexivity|]. split; [vm_compute; reflexivity|].
  split; [|reflexivity].
  refine (proj1 (proj2 (proj2 (proj2 (proj2 (proj2
            (POST_responses host (Scenario.request fd) Scenario.empty
                            eq_refl eq_refl))))) eq_refl) e _).
  vm_compute. reflexivity.
Defined.
(** C3, as the code has it.  "25:00" has the accepted form (hour 25,
    minute 00, no period), so normalizeTime does not fail with the error
    of the format: it fails with 'Invalid time values', the hour being
    out of range.  The rule of the format holds as stated: a text that
    is not of the accepted form fails with 'Invalid time format. Use
    HH:MM or HH:MM AM/PM', and a text of the accepted form never does. *)
Theorem normalizeTime_25_00_invalid_values :
  accepted (trim (js "25:00")) (js "25") (js "00") None
  /\ normalizeTime (js "25:00") = Throw InvalidTimeValues
  /\ (forall input : jsstring,
        (forall hs ms per, ~ accepted (trim input) hs ms per) ->
        normalizeTime input = Throw InvalidTimeFormat)
  /\ (forall input hs ms per,
        accepted (trim input) hs ms per ->
        normalizeTime input <> Throw InvalidTimeFormat).
Proof.
  split; [|split; [|split]].
  - unfold accepted. repeat split. right; reflexivity.
  - vm_compute. reflexivity.
  - exact normalizeTime_format.
  - intros input hs ms per Hacc. rewrite (normalizeTime_value input Hacc).
    destruct (_ && _)%bool; discriminate.
Qed.

(** C3, as the specification states it, fails: normalizeTime("25:00")
    does not fail with InvalidTimeFormat. *)
Lemma normalizeTime_25_00_not_format :
  normalizeTime (js "25:00") <> Throw InvalidTimeFormat.
Proof. vm_compute. discriminate. Qed.

(** A text that is not of the accepted form: the minute has one digit. *)
Lemma normalizeTime_25_00_invalid_values_witness :
  (forall hs ms per, ~ accepted (trim (js "7:5")) hs ms per)
  /\ normalizeTime (js "7:5") = Throw InvalidTimeFormat.
Proof.
  assert (H : forall hs ms per, ~ accepted (trim (js "7:5")) hs ms per).
  { intros hs ms per Hacc.
    destruct (accepted_timeParts Hacc) as [ap [E _]].
    vm_compute in E. discriminate. }
  split; [exact H|].
  exact (proj1 (proj2 (proj2 normalizeTime_25_00_invalid_values)) (js "7:5") H).
Defined.

(** C4.  On every input of the accepted form (hour of one or two
    digits, colon, minute of two digits, optionally white space and AM or
    PM in either case, white space around the whole tolerated),
    normalizeTime brings the hour to the 24-hour clock (12 AM to 0, 12 PM
    to 12, h PM to h + 12 for h < 12), fails with 'Invalid time values'
    exactly when that hour is outside 0..23 or the minute outside 0..59,
    and otherwise returns the hour in two digits, a colon and the minute
    as given; normalizeTime("2:30 PM") is "14:30" and
    normalizeTime("12:00 AM") is "00:00". *)
Theorem normalizeTime_24_hour :
  (forall (input hs ms : jsstring) (per : option period),
      accepted (trim input) hs ms per ->
      let hour := hour24 (valueOf hs) per in
      let minute := valueOf ms in
      (normalizeTime input = Throw InvalidTimeValues
       <-> ~ (0 <= hour <= 23 /\ 0 <= minute <= 59)%Z)
      /\ ((0 <= hour <= 23 /\ 0 <= minute <= 59)%Z ->
          normalizeTime input = Return (twoDigits hour ++ js ":" ++ ms)))
  /\ hour24 12 (Some AM) = 0%Z
  /\ hour24 12 (Some PM) = 12%Z
  /\ (forall h : Z, (h < 12)%Z -> hour24 h (Some PM) = (h + 12)%Z)
  /\ normalizeTime (js "2:30 PM") = Return (js "14:30")
  /\ normalizeTime (js "12:00 AM") = Return (js "00:00").
Proof.
  split; [|repeat split].
  - intros input hs ms per Hacc hour minute.
    rewrite (normalizeTime_value input Hacc). fold hour minute.
    assert (H0 : (0 <= hour)%Z).
    { assert (V0 : (0 <= valueOf hs)%Z) by (unfold valueOf; lia).
      unfold hour, hour24.
      destruct per as [[|]|]; try destruct (Z.eqb (valueOf hs) 12); lia. }
    assert (M0 : (0 <= minute)%Z) by (unfold minute, valueOf; lia).
    destruct (Z.leb_spec hour 23), (Z.leb_spec minute 59); cbn [andb].
    + split; [split; [discriminate | intros Hn; exfalso; apply Hn; lia]
             | reflexivity].
    + split; [split; [intros _ Hr; lia | reflexivity] | intros Hr; lia].
    + split; [split; [intros _ Hr; lia | reflexivity] | intros Hr; lia].
    + split; [split; [intros _ Hr; lia | reflexivity] | intros Hr; lia].
  - intros h Hh. unfold hour24. destruct (Z.eqb_spec h 12); [lia | reflexivity].
Qed.

(** White space around the text, a period in lower case. *)
Lemma normalizeTime_24_hour_witness :
  accepted (trim (js " 9:05pm ")) (js "9") (js "05") (Some PM)
  /\ normalizeTime (js " 9:05pm ") = Return (js "21:05").
Proof.
  assert (H : accepted (trim (js " 9:05pm ")) (js "9") (js "05") (Some PM)).
  { unfold accepted. repeat split; try (left; reflexivity).
    exists [], (js "pm"). repeat split. }
  split; [exact H|].
  apply (proj2 (proj1 normalizeTime_24_hour (js " 9:05pm ") (js "9") (js "05")
                      (Some PM) H)).
  vm_compute. repeat split; discriminate.
Defined.

(** C5.  For every title, generateSlug(title) is the result of
    lower-casing, trimming, deleting every character outside
    [a-z0-9\s-], replacing each run of white space by one hyphen,
    collapsing repeated hyphens to one and stripping the hyphens at both
    ends; in particular generateSlug("Hello, World!!! 2024") is
    "hello-world-2024". *)
Theorem generateSlug_refines_spec :
  (forall title : jsstring, generateSlug title = slugSpec title)
  /\ generateSlug (js "Hello, World!!! 2024") = js "hello-world-2024".
Proof.
  split; [exact generateSlug_slugSpec | vm_compute; reflexivity].
Qed.

(** C6.  generateSlug is idempotent on its own output:
    generateSlug(generateSlug(t)) = generateSlug(t) for every title t. *)
Theorem generateSlug_idempotent :
  forall t : jsstring, generateSlug (generateSlug t) = generateSlug t.
Proof. exact generateSlug_fixed. Qed.

(** C7, on the code.  An input that the host's parser rejects fails with
    'Invalid date format'.  An input that it accepts gives the UTC
    calendar date of the instant it denotes, the part of toISOString()
    before "T": the text is read by the host's parser, which takes a date
    without a zone as local time, and is written out in UTC.  So the day
    that comes out is not always the day that went in: where the host
    reads "March 5, 2024" as midnight of that day in a zone east of UTC
    (up to fourteen hours, as V8 does), normalizeDate returns
    "2024-03-04"; it returns "2024-03-05" in the zones at or behind
    UTC only. *)
Theorem normalizeDate_utc_date :
  forall (dateParse : jsstring -> option Z),
    (forall s, dateParse s = None ->
               normalizeDate dateParse s = Throw InvalidDateFormat)
    /\ (forall s t,
           dateParse s = Some t ->
           normalizeDate dateParse s = Return (isoDate (utcDate t))
           /\ daysFromCivil (utcDate t) = (t / msPerDay)%Z
           /\ (forall y m d, utcDate t = (y, m, d) ->
                 (1 <= m <= 12)%Z /\ (1 <= d <= 31)%Z
                 /\ ((0 <= y <= 9999)%Z -> isYMD (isoDate (y, m, d)) = true)))
    /\ (forall t,
           dateParse (js "March 5, 2024") = Some t ->
           (1709596800000 <= t < 1709683200000)%Z ->
           normalizeDate dateParse (js "March 5, 2024")
           = Return (js "2024-03-05"))
    /\ (forall offset,
           dateParse (js "March 5, 2024")
           = Some (1709596800000 - offset * 60000)%Z ->
           (0 < offset <= 840)%Z ->
           normalizeDate dateParse (js "March 5, 2024")
           = Return (js "2024-03-04"))
    /\ message InvalidDateFormat = js "Invalid date format".
Proof.
  intros dateParse. split; [|split; [|split; [|split; [|reflexivity]]]].
  - intros s H. rewrite normalizeDate_value, H. reflexivity.
  - intros s t H. split; [rewrite normalizeDate_value, H; reflexivity|].
    split; [apply daysFromCivil_civil|].
    intros y m d E. pose proof (civil_bounds (t / msPerDay)) as Hb.
    unfold utcDate in E. rewrite E in Hb. destruct Hb as [Hm Hd].
    split; [exact Hm|]. split; [exact Hd|].
    intros Hy. apply isoDate_shape; assumption.
  - intros t H Ht. rewrite normalizeDate_value, H. unfold utcDate.
    replace (t / msPerDay)%Z with 19787%Z; [vm_compute; reflexivity|].
    unfold msPerDay.
    apply Z.div_unique with (r := (t - 19787 * 86400000)%Z); lia.
  - intros offset H Ho. rewrite normalizeDate_value, H. unfold utcDate.
    replace ((1709596800000 - offset * 60000) / msPerDay)%Z with 19786%Z;
      [vm_compute; reflexivity|].
    unfold msPerDay.
    apply Z.div_unique
      with (r := (1709596800000 - offset * 60000 - 19786 * 86400000)%Z); lia.
Qed.

(** V8 one hour ahead of UTC, and five hours behind. *)
Lemma normalizeDate_utc_date_witness :
  v8Parse 60 (js "March 5, 2024") = Some 1709593200000%Z
  /\ normalizeDate (v8Parse 60) (js "March 5, 2024") = Return (js "2024-03-04")
  /\ normalizeDate (v8Parse (-300)) (js "March 5, 2024")
     = Return (js "2024-03-05")
  /\ normalizeDate (v8Parse (-300)) (js "not a date")
     = Throw InvalidDateFormat.
Proof.
  split; [reflexivity|]. split; [|split].
  - apply (proj1 (proj2 (proj2 (proj2 (normalizeDate_utc_date (v8Parse 60)))))
             60%Z); [reflexivity | lia].
  - apply (proj1 (proj2 (proj2 (normalizeDate_utc_date (v8Parse (-300)))))
             1709614800000%Z); [reflexivity | lia].
  - apply (proj1 (normalizeDate_utc_date (v8Parse (-300)))). reflexivity.
Defined.

(** C8.  The pre-save hook of Booking looks the Event up only when the
    document is new or its eventId was modified; a save that leaves
    eventId alone touches nothing.  When it looks and no Event has the
    identifier, the save fails with the error that names the identifier,
    'Event with ID <id> does not exist'; so Booking.create with an
    eventId of no Event never inserts a Booking. *)
Theorem booking_hook_requires_event :
  (forall (b : document IBooking) (w : world),
      isNew b = false -> isModified b "eventId" = false ->
      bookingPreSave b w = (Return tt, w))
  /\ (forall (b : document IBooking) (w : world),
         isNew b = true \/ isModified b "eventId" = true ->
         bookingPreSave b w
         = (if eventExists (eventId (doc b)) w then Return tt
            else Throw (EventNotFound (eventId (doc b))),
            logged w [EventLookup (eventId (doc b))]))
  /\ (forall id : ObjectId,
         message (EventNotFound id)
         = js "Event with ID " ++ hex24 id ++ js " does not exist")
  /\ (forall (host : Host) (input : BookingInput) (w : world) (id : ObjectId),
         castObjectId host (eventIdArg input) = Some id ->
         eventExists id w = false ->
         exists e,
           fst (Booking_create host input w) = Throw e
           /\ bookings (snd (Booking_create host input w)) = bookings w
           /\ (validateBooking host input = [] -> e = EventNotFound id)).
Proof.
  split; [exact bookingPreSave_skipped|].
  split; [exact bookingPreSave_checked|].
  split; [reflexivity|].
  intros host input w id Hc He.
  pose proof (Booking_create_run host input w) as H.
  destruct (Booking_create host input w) as [[d|e] w'].
  - destruct H as [_ [_ [id' [Hc' [_ [He' _]]]]]].
    rewrite Hc in Hc'. injection Hc' as <-. rewrite He in He'. discriminate.
  - destruct H as [Hb [_ Ht]]. exists e. cbn [fst snd].
    split; [reflexivity|]. split; [exact Hb|].
    intros Hv. destruct Ht as [[_ [Hn|Hn]]|[id' [Hc' [_ Hnf]]]].
    + contradiction.
    + rewrite Hc in Hn. discriminate.
    + rewrite Hc in Hc'. injection Hc' as <-. apply Hnf, He.
Qed.

(** A booking for an identifier that no Event of the store has. *)
Lemma booking_hook_requires_event_witness :
  let host := Node.host 0 Node.accepts in
  let input := Scenario.booking (hex24 7%N) in
  castObjectId host (eventIdArg input) = Some 7%N
  /\ eventExists 7%N Scenario.oneEvent = false
  /\ exists e,
       fst (Booking_create host input Scenario.oneEvent) = Throw e
       /\ bookings (snd (Booking_create host input Scenario.oneEvent)) = []
       /\ (validateBooking host input = [] -> e = EventNotFound 7%N).
Proof.
  intros host input.
  assert (Hc : castObjectId host (eventIdArg input) = Some 7%N)
    by (vm_compute; reflexivity).
  assert (He : eventExists 7%N Scenario.oneEvent = false)
    by (vm_compute; reflexivity).
  split; [exact Hc|]. split; [exact He|].
  exact (proj2 (proj2 (proj2 booking_hook_requires_event))
           host input Scenario.oneEvent 7%N Hc He).
Defined.

(** C9, on the code.  createBooking never throws: every run returns the
    success or the failure.  But it never returns the success: when
    Booking.create has inserted the booking, the call of lean() on the
    created document throws a TypeError, the handler takes it, and the
    action returns the failure although the booking is in the store. *)
Theorem createBooking_reports_failure_after_insert :
  (forall (host : Host) (input : BookingInput) (w : world),
      exists res w', createBooking host input w = (Return res, w'))
  /\ (forall (host : Host) (input : BookingInput) (w : world)
             (d : stored IBooking) (w1 : world),
         connecting host = Return tt ->
         Booking_create host input (logged w [Connected]) = (Return d, w1) ->
         createBooking host input w
         = (Return (Failure (TypeError
                               (js "(intermediate value).lean is not a function"))),
            logged w1 [ConsoleError])
         /\ In d (bookings (logged w1 [ConsoleError])))
  /\ (forall (host : Host) (input : BookingInput) (w : world)
             (b : stored IBooking),
         fst (createBooking host input w) <> Return (Success b)).
Proof.
  split; [|split].
  - intros host input w. rewrite createBooking_run.
    destruct (connecting host) as [[]|e]; [|eauto].
    destruct (Booking_create host input _) as [[d|e] w']; [|eauto].
    destruct (Document_lean d); eauto.
  - intros host input w d w1 Hc Hb. rewrite createBooking_run, Hc, Hb.
    split; [reflexivity|].
    pose proof (Booking_create_run host input (logged w [Connected])) as H.
    rewrite Hb in H. destruct H as [H _]. cbn [logged bookings].
    rewrite H. apply in_or_app. right. left. reflexivity.
  - intros host input w b. rewrite createBooking_run.
    destruct (connecting host) as [[]|e]; [|discriminate].
    destruct (Booking_create host input _) as [[d|e] w']; discriminate.
Qed.

(** A booking for the one Event of the store. *)
Lemma createBooking_reports_failure_after_insert_witness :
  let host := Node.host 0 Node.accepts in
  let input := Scenario.booking (hex24 1%N) in
  let w := Scenario.oneEvent in
  let d := Stored 2%N (mkBooking 1%N (js "ada@example.org")) 2%N 2%N in
  fst (Booking_create host input (logged w [Connected])) = Return d
  /\ fst (createBooking host input w)
     = Return (Failure (TypeError
                          (js "(intermediate value).lean is not a function")))
  /\ bookings (snd (createBooking host input w)) = [d].
Proof.
  intros host input w d.
  assert (Hb : Booking_create host input (logged w [Connected])
               = (Return d, snd (Booking_create host input (logged w [Connected]))))
    by (vm_compute; reflexivity).
  split; [rewrite Hb; reflexivity|].
  rewrite (proj1 (proj1 (proj2 createBooking_reports_failure_after_insert)
                        host input w d _ eq_refl Hb)).
  split; [reflexivity | vm_compute; reflexivity].
Defined.

(** C10, as the code has it.  A title without ASCII letters and digits
    that holds neither U+212A nor U+0130 (such as "!!!") has the empty
    slug; the schema has no validator on the path slug, so the event is
    saved with the empty slug, and a second title of that kind is refused by
    the unique index.  The two characters are left out because
    toLowerCase() brings them to "k" and to "i" with a combining dot, which
    [a-z] keeps. *)
Theorem generateSlug_without_letters_or_digits :
  (forall title : jsstring,
      forallb plain title = true -> generateSlug title = emptyString)
  /\ generateSlug (js "!!!") = emptyString
  /\ (forall (v : option jsstring) (e : IEvent),
         validateEvent (withSlug v e) = validateEvent e)
  /\ (forall (host : Host) (input : IEvent) (w w' : world) (d : stored IEvent)
             (t : jsstring),
         Event_create host (Return input) w = (Return d, w') ->
         title (eventSetters input) = Some t ->
         generateSlug t = emptyString ->
         slug (fields d) = Some emptyString /\ In d (events w'))
  /\ (forall (host : Host) (input : IEvent) (w : world) (x : stored IEvent)
             (t : jsstring),
         In x (events w) -> slug (fields x) = Some emptyString ->
         title (eventSetters input) = Some t ->
         generateSlug t = emptyString ->
         exists e w',
           Event_create host (Return input) w = (Throw e, w')
           /\ events w' = events w).
Proof.
  assert (Hslug : forall host input w w' d t,
             Event_create host (Return input) w = (Return d, w') ->
             title (eventSetters input) = Some t ->
             slug (fields d) = Some (generateSlug t)
             /\ events w' = events w ++ [d]
             /\ existsb (fun x => sameSlug (slug (fields x)) (slug (fields d)))
                        (events w) = false).
  { intros host input w w' d t Hc Ht.
    pose proof (Event_create_run host (Return input) w) as H. rewrite Hc in H.
    destruct H as [He [_ [_ [_ [i [Hi [_ [Hh Hx]]]]]]]].
    injection Hi as <-. apply eventPreSave_new in Hh.
    destruct Hh as [t' [Ht' [Hs _]]]. rewrite Ht in Ht'. injection Ht' as <-.
    rewrite slugSetter_slug in Hs. auto. }
  split; [|split; [|split; [|split]]].
  - intros title H. apply generateSlug_empty, plain_lower, H.
  - vm_compute. reflexivity.
  - exact validateEvent_slug.
  - intros host input w w' d t Hc Ht Hg.
    destruct (Hslug host input w w' d t Hc Ht) as [Hs [He _]].
    rewrite Hg in Hs. split; [exact Hs|].
    rewrite He. apply in_or_app. right. left. reflexivity.
  - intros host input w x t Hin Hx Ht Hg.
    pose proof (Event_create_run host (Return input) w) as H.
    destruct (Event_create host (Return input) w) as [[d|e] w'] eqn:Hc.
    + destruct (Hslug host input w w' d t Hc Ht) as [Hs [_ Hn]].
      rewrite Hg in Hs. exfalso.
      assert (Ht' : existsb (fun y => sameSlug (slug (fields y)) (slug (fields d)))
                           (events w) = true).
      { apply existsb_exists. exists x. split; [exact Hin|].
        rewrite Hx, Hs. reflexivity. }
      rewrite Hn in Ht'. discriminate.
    + destruct H as [He _]. exists e, w'. auto.
Qed.

(** C10, as the specification states it, fails: the Kelvin sign U+212A is
    no ASCII letter or digit, and its slug is "k". *)
Lemma generateSlug_kelvin_sign :
  forallb (fun c => negb (isAlnum c)) [8490%N] = true
  /\ generateSlug [8490%N] = js "k"
  /\ generateSlug [8490%N] <> emptyString.
Proof.
  split; [reflexivity|]. split; [vm_compute; reflexivity|].
  vm_compute. discriminate.
Qed.

(** Two events whose titles have no letter and no digit. *)
Lemma generateSlug_without_letters_or_digits_witness :
  let host := Node.host 0 Node.accepts in
  let first := Event_create host (Return (Scenario.fieldsOf (js "!!!")))
                            Scenario.empty in
  forallb plain (js "?? --") = true
  /\ generateSlug (js "?? --") = emptyString
  /\ (exists d, fst first = Return d /\ slug (fields d) = Some emptyString
                /\ In d (events (snd first)))
  /\ (exists e w', Event_create host (Return (Scenario.fieldsOf (js "?? --")))
                                (snd first) = (Throw e, w')
                   /\ events w' = events (snd first)).
Proof.
  intros host first.
  pose (thm := generateSlug_without_letters_or_digits).
  assert (Hp : forallb plain (js "?? --") = true) by reflexivity.
  pose proof (proj1 thm (js "?? --") Hp) as Hq.
  split; [exact Hp|]. split; [exact Hq|].
  set (d := Stored 1%N
              (withTime (Some (js "14:30"))
                 (withDate (Some (js "2024-03-05"))
                    (withSlug (Some emptyString) (Scenario.fieldsOf (js "!!!")))))
              1%N 1%N).
  assert (Hc : Event_create host (Return (Scenario.fieldsOf (js "!!!")))
                            Scenario.empty = (Return d, snd first))
    by (vm_compute; reflexivity).
  split.
  - exists d. split; [unfold first; rewrite Hc; reflexivity|].
    exact (proj1 (proj2 (proj2 (proj2 thm))) host
                 (Scenario.fieldsOf (js "!!!")) Scenario.empty (snd first) d
                 (js "!!!") Hc eq_refl (proj1 (proj2 thm))).
  - refine (proj2 (proj2 (proj2 (proj2 thm))) host
                  (Scenario.fieldsOf (js "?? --")) (snd first) d (js "?? --")
                  _ _ eq_refl Hq).
    + vm_compute. left. reflexivity.
    + reflexivity.
Defined.

(** * Further properties of the code *)

(** ** generateSlug *)

Section Filters.

Variables p q : N -> bool.
Hypothesis Hpq : forall c, p c = true -> q c = false.

Lemma filter_dropWhile (s : jsstring) : filter q (dropWhile p s) = filter q s.
Proof.
  induction s as [|c t IH]; cbn [dropWhile]; [reflexivity|].
  destruct (p c) eqn:Hc; [|reflexivity].
  cbn [filter]. rewrite (Hpq Hc). exact IH.
Qed.

Lemma filter_dropWhileEnd (s : jsstring) :
  filter q (dropWhileEnd p s) = filter q s.
Proof.
  induction s as [|c t IH]; [reflexivity|].
  rewrite dropWhileEnd_cons. cbn [filter]. rewrite <- IH.
  destruct (dropWhileEnd p t) as [|d u].
  - destruct (p c) eqn:Hc.
    + rewrite (Hpq Hc). reflexivity.
    + cbn [filter]. reflexivity.
  - reflexivity.
Qed.

Lemma filter_squeeze (b : N) (Hb : q b = false) :
  forall (s : jsstring) (inRun : bool),
    filter q (squeeze p b inRun s) = filter q s.
Proof.
  induction s as [|c t IH]; intro inRun; cbn [squeeze filter]; [reflexivity|].
  destruct (p c) eqn:Hc.
  - rewrite (Hpq Hc). destruct inRun; cbn [filter]; rewrite ?Hb; apply IH.
  - cbn [filter]. rewrite IH. reflexivity.
Qed.

End Filters.

Lemma filter_filter_impl (P Q : N -> bool) (s : jsstring) :
  (forall c, Q c = true -> P c = true) ->
  filter Q (filter P s) = filter Q s.
Proof.
  intro H. induction s as [|c t IH]; cbn [filter]; [reflexivity|].
  destruct (P c) eqn:Hp; cbn [filter]; rewrite IH.
  - reflexivity.
  - destruct (Q c) eqn:Hq; [|reflexivity].
    rewrite (H _ Hq) in Hp. discriminate.
Qed.

Lemma lowerAlnum_not_space (c : N) : isWhiteSpace c = true -> lowerAlnum c = false.
Proof. unfold lowerAlnum. units. Qed.

Lemma lowerAlnum_not_hyphen (c : N) : isHyphen c = true -> lowerAlnum c = false.
Proof. unfold lowerAlnum. units. Qed.

Lemma lowerAlnum_slugClass (c : N) : lowerAlnum c = true -> slugClass c = true.
Proof. unfold lowerAlnum. units. Qed.

Lemma lowerUnit_lower (c : N) : toLowerCase (lowerUnit c) = lowerUnit c.
Proof.
  unfold toLowerCase, lowerUnit, isUpper, between.
  repeat (ncase; cbn [flat_map app negb andb]); unfold isUpper, between;
    repeat (ncase; cbn [flat_map app negb andb]); reflexivity.
Qed.

Lemma toLowerCase_app (a b : jsstring) :
  toLowerCase (a ++ b) = toLowerCase a ++ toLowerCase b.
Proof. apply flat_map_app. Qed.

Lemma toLowerCase_idem (s : jsstring) :
  toLowerCase (toLowerCase s) = toLowerCase s.
Proof.
  induction s as [|c t IH]; [reflexivity|].
  change (toLowerCase (c :: t)) with (lowerUnit c ++ toLowerCase t).
  rewrite toLowerCase_app, lowerUnit_lower, IH. reflexivity.
Qed.

Lemma noAdjacent_no_pair (p : N -> bool) :
  forall (x : jsstring) (a b : N) (y : jsstring),
    noAdjacent p (x ++ a :: b :: y) = true ->
    p a = true -> p b = true -> False.
Proof.
  intros x a b y H Ha Hb.
  apply noAdjacent_app in H. destruct H as [_ H].
  cbn [noAdjacent] in H. rewrite Ha, Hb in H. discriminate.
Qed.

Lemma dropWhileEnd_last (p : N -> bool) :
  forall (s x : jsstring) (c : N),
    dropWhileEnd p s = x ++ [c] -> p c = false.
Proof.
  induction s as [|a t IH]; intros x c H.
  - destruct x; discriminate.
  - rewrite dropWhileEnd_cons in H.
    destruct (dropWhileEnd p t) as [|d u] eqn:E.
    + destruct (p a) eqn:Ha.
      * destruct x; discriminate.
      * destruct x as [|x0 x]; [injection H as ->; exact Ha|].
        destruct x; discriminate.
    + destruct x as [|x0 x]; [discriminate|].
      injection H as _ H. exact (IH _ _ H).
Qed.

(** X1.  A slug is made of the units [a-z0-9-] only, holds no two hyphens
    in a row and neither starts nor ends with a hyphen: whatever the
    title, the result can stand in a URL path as it is. *)
Theorem generateSlug_url_safe (title : jsstring) :
  forallb slugChar (generateSlug title) = true
  /\ (forall x y, generateSlug title <> x ++ js "--" ++ y)
  /\ (forall x, generateSlug title <> js "-" ++ x)
  /\ (forall x, generateSlug title <> x ++ js "-").
Proof.
  rewrite generateSlug_slugSpec.
  destruct (slugSpec_shape title) as (Hc & Ha & Hs).
  split; [exact Hc|]. split; [|split].
  - intros x y E. rewrite E in Ha.
    exact (noAdjacent_no_pair isHyphen x _ _ y Ha eq_refl eq_refl).
  - intros x E. rewrite <- Hs in E. unfold stripHyphens in E.
    pose proof (startsWith_dropWhileEnd isHyphen _
                  (startsWith_dropWhile isHyphen (slugSpec title))) as H.
    rewrite E in H. discriminate.
  - intros x E. rewrite <- Hs in E. unfold stripHyphens in E.
    apply dropWhileEnd_last in E. discriminate.
Qed.

(** X2.  The letters and digits of a slug are those of the title in lower
    case, in the same order: generateSlug removes and inserts separators
    only. *)
Theorem generateSlug_keeps_letters_and_digits (title : jsstring) :
  filter lowerAlnum (generateSlug title)
  = filter lowerAlnum (toLowerCase title).
Proof.
  rewrite generateSlug_slugSpec. unfold slugSpec, stripHyphens, trim.
  rewrite (@filter_dropWhileEnd _ _ lowerAlnum_not_hyphen).
  rewrite (@filter_dropWhile _ _ lowerAlnum_not_hyphen).
  rewrite (@filter_squeeze _ _ lowerAlnum_not_hyphen); [|reflexivity].
  rewrite (@filter_squeeze _ _ lowerAlnum_not_space); [|reflexivity].
  rewrite (@filter_filter_impl slugClass lowerAlnum _ lowerAlnum_slugClass).
  rewrite (@filter_dropWhileEnd _ _ lowerAlnum_not_space).
  apply (@filter_dropWhile _ _ lowerAlnum_not_space).
Qed.

(** X3.  The case of a title's letters does not reach its slug: a title
    and its lower-case form get the same slug, so that two titles that
    differ in case only compete for one slug under the unique index. *)
Theorem generateSlug_ignores_case (title : jsstring) :
  generateSlug (toLowerCase title) = generateSlug title.
Proof.
  unfold generateSlug. rewrite toLowerCase_idem. reflexivity.
Qed.

Lemma filter_length (p : N -> bool) (s : jsstring) :
  List.length (filter p s) <= List.length s.
Proof.
  induction s as [|c t IH]; cbn [filter List.length]; [lia|].
  destruct (p c); cbn [List.length]; lia.
Qed.

Lemma dropWhileEnd_length (p : N -> bool) (s : jsstring) :
  List.length (dropWhileEnd p s) <= List.length s.
Proof.
  destruct (dropWhileEnd_prefix p s) as [r E]. rewrite E at 2.
  rewrite length_app. lia.
Qed.

Lemma squeeze_length (p : N -> bool) (b : N) :
  forall (s : jsstring) (inRun : bool),
    List.length (squeeze p b inRun s) <= List.length s.
Proof.
  induction s as [|c t IH]; intro inRun; cbn [squeeze List.length]; [lia|].
  destruct (p c); [destruct inRun|]; cbn [List.length];
    [specialize (IH true) | specialize (IH true) | specialize (IH false)]; lia.
Qed.

Lemma filter_trim_length (p : N -> bool) (s : jsstring) :
  List.length (filter p (trim s)) <= List.length (filter p s).
Proof.
  unfold trim.
  destruct (dropWhile_suffix isWhiteSpace s) as [l El].
  destruct (dropWhileEnd_prefix isWhiteSpace (dropWhile isWhiteSpace s))
    as [r Er].
  rewrite El at 2. rewrite Er at 2. rewrite !filter_app, !length_app. lia.
Qed.

Lemma filter_lowerUnit_length (c : N) :
  List.length (filter slugClass (lowerUnit c)) <= 1.
Proof.
  unfold lowerUnit.
  destruct (isUpper c); [apply filter_length|].
  destruct (between 192 222 c && negb (c =? 215)%N); [apply filter_length|].
  destruct (c =? 304)%N; [vm_compute; lia|].
  destruct (c =? 8490)%N; apply filter_length.
Qed.

Lemma filter_toLowerCase_length (s : jsstring) :
  List.length (filter slugClass (toLowerCase s)) <= List.length s.
Proof.
  induction s as [|c t IH]; [cbn; lia|].
  change (toLowerCase (c :: t)) with (lowerUnit c ++ toLowerCase t).
  rewrite filter_app, length_app. pose proof (filter_lowerUnit_length c).
  cbn [List.length]. lia.
Qed.

(** X30.  A slug is never longer than its title, counted in code units:
    each unit of the title gives at most one unit of the slug.  A title
    within the 100 units that the schema allows gets a slug within 100
    units. *)
Theorem generateSlug_length (title : jsstring) :
  List.length (generateSlug title) <= List.length title.
Proof.
  rewrite generateSlug_slugSpec. unfold slugSpec, stripHyphens.
  pose proof (dropWhileEnd_length isHyphen
                (dropWhile isHyphen
                   (squeeze isHyphen (chr "-") false
                      (squeeze isWhiteSpace (chr "-") false
                         (filter slugClass (trim (toLowerCase title))))))).
  pose proof (length_dropWhile isHyphen
                (squeeze isHyphen (chr "-") false
                   (squeeze isWhiteSpace (chr "-") false
                      (filter slugClass (trim (toLowerCase title)))))).
  pose proof (squeeze_length isHyphen (chr "-")
                (squeeze isWhiteSpace (chr "-") false
                   (filter slugClass (trim (toLowerCase title)))) false).
  pose proof (squeeze_length isWhiteSpace (chr "-")
                (filter slugClass (trim (toLowerCase title))) false).
  pose proof (filter_trim_length slugClass (toLowerCase title)).
  pose proof (filter_toLowerCase_length title).
  lia.
Qed.

(** ** normalizeTime *)

Lemma twoDigits_valueOf (d1 d2 : N) :
  isDigit d1 = true -> isDigit d2 = true ->
  twoDigits (valueOf [d1; d2]) = [d1; d2].
Proof.
  intros H1 H2.
  assert (B1 : (48 <= d1 <= 57)%N) by (revert H1; units).
  assert (B2 : (48 <= d2 <= 57)%N) by (revert H2; units).
  unfold twoDigits, valueOf. cbn [fold_left].
  f_equal; [|f_equal]; Z.to_euclidean_division_equations; lia.
Qed.

Lemma valueOf_twoDigits (h : Z) :
  (0 <= h <= 99)%Z ->
  forallb isDigit (twoDigits h) = true /\ valueOf (twoDigits h) = h.
Proof.
  intro Hh. unfold twoDigits, valueOf. cbn [forallb fold_left].
  split.
  - unfold isDigit, between.
    repeat match goal with
           | |- context [N.leb ?a ?b] =>
               destruct (N.leb_spec a b);
               [|exfalso; Z.to_euclidean_division_equations; lia]
           end.
    reflexivity.
  - Z.to_euclidean_division_equations; lia.
Qed.

Lemma hour24_nonneg (h : Z) (per : option period) :
  (0 <= h)%Z -> (0 <= hour24 h per)%Z.
Proof.
  intro Hh. destruct per as [[|]|]; cbn [hour24];
    try destruct (Z.eqb_spec h 12); lia.
Qed.

Lemma valueOf_nonneg (s : jsstring) : (0 <= valueOf s)%Z.
Proof. unfold valueOf. lia. Qed.

(** What a result of normalizeTime is made of. *)
Lemma normalizeTime_result (input r : jsstring) :
  normalizeTime input = Return r ->
  exists hs ms per,
    accepted (trim input) hs ms per
    /\ (hour24 (valueOf hs) per <= 23)%Z /\ (valueOf ms <= 59)%Z
    /\ r = twoDigits (hour24 (valueOf hs) per) ++ js ":" ++ ms.
Proof.
  intro H. pose proof (normalizeTime_parts input) as Hp.
  destruct (timeParts (trim input)) as [[[hs ms] ap]|] eqn:E.
  - destruct (timeParts_accepted _ E) as [per Hacc].
    exists hs, ms, per. split; [exact Hacc|].
    rewrite (normalizeTime_value input Hacc) in H.
    destruct (Z.leb_spec (hour24 (valueOf hs) per) 23);
      destruct (Z.leb_spec (valueOf ms) 59); cbn [andb] in H;
      try discriminate.
    injection H as <-. repeat split; assumption.
  - rewrite Hp in H. discriminate.
Qed.

Lemma isHHMM_twoDigits (h : Z) (ms : jsstring) :
  (0 <= h <= 23)%Z -> List.length ms = 2 -> forallb isDigit ms = true ->
  (valueOf ms <= 59)%Z ->
  isHHMM (twoDigits h ++ js ":" ++ ms) = true.
Proof.
  intros Hh Hl Hd Hm.
  destruct ms as [|m1 [|m2 [|]]]; try discriminate.
  destruct (valueOf_twoDigits (h := h)) as [Hd2 Hv]; [lia|].
  change (twoDigits h ++ js ":" ++ [m1; m2])
    with [Z.to_N (48 + h / 10); Z.to_N (48 + h mod 10); chr ":"; m1; m2]%Z.
  unfold isHHMM.
  change [Z.to_N (48 + h / 10); Z.to_N (48 + h mod 10)]%Z with (twoDigits h).
  rewrite Hv.
  replace (forallb isDigit [Z.to_N (48 + h / 10); Z.to_N (48 + h mod 10); m1; m2]%Z)
    with (forallb isDigit (twoDigits h) && forallb isDigit [m1; m2]).
  - rewrite Hd2, Hd. change (isColon (chr ":")) with true. cbn [andb].
    destruct (Z.leb_spec h 23); [|lia].
    destruct (Z.leb_spec (valueOf [m1; m2]) 59); [reflexivity|lia].
  - unfold twoDigits. cbn [forallb].
    repeat match goal with
           | |- context [isDigit ?x] => destruct (isDigit x)
           end; reflexivity.
Qed.

Lemma isHHMM_parts (r : jsstring) :
  isHHMM r = true ->
  exists h1 h2 m1 m2,
    r = [h1; h2; chr ":"; m1; m2]
    /\ isDigit h1 = true /\ isDigit h2 = true
    /\ isDigit m1 = true /\ isDigit m2 = true
    /\ (valueOf [h1; h2] <= 23)%Z /\ (valueOf [m1; m2] <= 59)%Z.
Proof.
  intro H.
  destruct r as [|h1 [|h2 [|c [|m1 [|m2 [|]]]]]]; try discriminate.
  unfold isHHMM in H. cbn [forallb] in H.
  apply andb_prop in H. destruct H as [H Hm].
  apply andb_prop in H. destruct H as [H Hh].
  apply andb_prop in H. destruct H as [H Hc].
  apply andb_prop in H. destruct H as [H1 H].
  apply andb_prop in H. destruct H as [H2 H].
  apply andb_prop in H. destruct H as [M1 H].
  apply andb_prop in H. destruct H as [M2 _].
  apply isColon_eq in Hc. subst c.
  exists h1, h2, m1, m2. repeat split; try assumption; apply Z.leb_le; assumption.
Qed.

Lemma digits_no_space (c : N) : isDigit c = true -> Not isWhiteSpace c = true.
Proof. units. Qed.

Lemma dropWhileEnd_all (p : N -> bool) (s : jsstring) :
  forallb p s = true -> dropWhileEnd p s = [].
Proof.
  induction s as [|c t IH]; [reflexivity|].
  cbn [forallb]. intro H. apply andb_prop in H. destruct H as [Hc Ht].
  rewrite dropWhileEnd_cons, (IH Ht), Hc. reflexivity.
Qed.

Lemma dropWhileEnd_app_all (p : N -> bool) (w : jsstring) :
  forallb p w = true ->
  forall x : jsstring, dropWhileEnd p (x ++ w) = dropWhileEnd p x.
Proof.
  intros Hw x. induction x as [|c t IH].
  - cbn [app dropWhileEnd]. apply dropWhileEnd_all. exact Hw.
  - change ((c :: t) ++ w) with (c :: (t ++ w)).
    rewrite !dropWhileEnd_cons, IH. reflexivity.
Qed.

Lemma dropWhile_app_all (p : N -> bool) (w : jsstring) :
  forallb p w = true ->
  forall x : jsstring, dropWhile p (w ++ x) = dropWhile p x.
Proof.
  intros Hw x. induction w as [|c t IH]; [reflexivity|].
  cbn [forallb] in Hw. apply andb_prop in Hw. destruct Hw as [Hc Ht].
  cbn [app dropWhile]. rewrite Hc. exact (IH Ht).
Qed.

(** White space around a text does not reach its trimmed form. *)
Lemma trim_padded (w1 w2 s : jsstring) :
  forallb isWhiteSpace w1 = true -> forallb isWhiteSpace w2 = true ->
  trim (w1 ++ s ++ w2) = trim s.
Proof.
  intros H1 H2. unfold trim. rewrite (@dropWhile_app_all _ _ H1).
  induction s as [|c t IH].
  - cbn [app]. rewrite (@dropWhile_all _ _ H2). reflexivity.
  - cbn [app dropWhile]. destruct (isWhiteSpace c); [exact IH|].
    change (c :: t ++ w2) with ((c :: t) ++ w2).
    apply (@dropWhileEnd_app_all _ _ H2).
Qed.

Lemma normalizeTime_result_shape (input r : jsstring) :
  normalizeTime input = Return r -> isHHMM r = true.
Proof.
  intro E.
  destruct (normalizeTime_result _ E) as (hs & ms & per & Hacc & Hh & Hm & ->).
  destruct Hacc as (_ & _ & Hl & Hd & _).
  apply isHHMM_twoDigits; try assumption.
  split; [apply hour24_nonneg, valueOf_nonneg | exact Hh].
Qed.

(** X4.  normalizeTime has three outcomes and no other: a time of the
    24-hour clock in the form HH:MM (two digits up to 23, a colon, two
    digits up to 59), the error "Invalid time format" or the error
    "Invalid time values". *)
Theorem normalizeTime_outcomes (input : jsstring) :
  match normalizeTime input with
  | Return r => isHHMM r = true
  | Throw e => e = InvalidTimeFormat \/ e = InvalidTimeValues
  end.
Proof.
  destruct (normalizeTime input) as [r|e] eqn:E.
  - exact (normalizeTime_result_shape _ E).
  - rewrite normalizeTime_parts in E.
    destruct (timeParts (trim input)) as [[[hs ms] ap]|] eqn:P.
    + destruct (timeParts_accepted _ P) as [per Hacc].
      destruct (accepted_digits Hacc) as [Hh Hm].
      destruct (accepted_timeParts Hacc) as (ap' & P' & Hden).
      rewrite P in P'. injection P' as <-.
      destruct Hacc as (_ & Hhd & _ & Hmd & _).
      rewrite (@timeOf_value hs ms ap per Hh Hhd Hm Hmd Hden) in E.
      destruct (_ && _) in E; [discriminate|].
      injection E as <-. right. reflexivity.
    + injection E as <-. left. reflexivity.
Qed.

Lemma normalizeTime_kept (r : jsstring) :
  isHHMM r = true -> normalizeTime r = Return r.
Proof.
  intro H.
  destruct (isHHMM_parts _ H)
    as (h1 & h2 & m1 & m2 & -> & H1 & H2 & M1 & M2 & Hh & Hm).
  assert (Hacc : accepted (trim [h1; h2; chr ":"; m1; m2]) [h1; h2] [m1; m2] None).
  { rewrite trim_no_space.
    - unfold accepted. cbn [forallb List.length]. rewrite H1, H2, M1, M2.
      repeat split; auto.
    - cbn [forallb].
      rewrite (digits_no_space _ H1), (digits_no_space _ H2),
        (digits_no_space _ M1), (digits_no_space _ M2). reflexivity. }
  rewrite (normalizeTime_value _ Hacc). cbn [hour24].
  destruct (Z.leb_spec (valueOf [h1; h2]) 23); [|lia].
  destruct (Z.leb_spec (valueOf [m1; m2]) 59); [|lia].
  cbn [andb]. rewrite (@twoDigits_valueOf h1 h2 H1 H2). reflexivity.
Qed.

(** X5.  The texts that normalizeTime returns as they are, are the times
    in the form HH:MM with an hour up to 23 and a minute up to 59: a time
    that has been normalised is not changed by a second normalisation,
    and no other text is kept. *)
Theorem normalizeTime_fixed_points (r : jsstring) :
  normalizeTime r = Return r <-> isHHMM r = true.
Proof.
  split.
  - apply normalizeTime_result_shape.
  - apply normalizeTime_kept.
Qed.

(** X6.  White space before and after a time does not change what
    normalizeTime makes of it. *)
Theorem normalizeTime_ignores_outer_space (w1 w2 input : jsstring) :
  forallb isWhiteSpace w1 = true -> forallb isWhiteSpace w2 = true ->
  normalizeTime (w1 ++ input ++ w2) = normalizeTime input.
Proof.
  intros H1 H2. rewrite !normalizeTime_parts, (@trim_padded _ _ input H1 H2).
  reflexivity.
Qed.

Lemma normalizeTime_ignores_outer_space_witness :
  normalizeTime (js "  " ++ js "9:05 pm" ++ js " ") = normalizeTime (js "9:05 pm").
Proof.
  apply (@normalizeTime_ignores_outer_space (js "  ") (js " ") (js "9:05 pm"));
    reflexivity.
Defined.

(** ** The matcher and the language of a pattern *)

Lemma iterate_self (step : mstate -> list mstate) (fuel : nat) (m : mstate) :
  In m (iterate step fuel m).
Proof.
  destruct fuel; cbn [iterate]; [left; reflexivity|].
  apply in_or_app. right. left. reflexivity.
Qed.

Lemma iterate_mono (step : mstate -> list mstate) :
  forall (k : nat) (m x : mstate),
    In x (iterate step k m) -> In x (iterate step (S k) m).
Proof.
  induction k as [|k IH]; intros m x H.
  - destruct H as [<-|[]]. apply iterate_self.
  - change (iterate step (S k) m)
      with (flat_map (fun s' => if Nat.ltb (pos m) (pos s')
                                then iterate step k s' else [])
                     (step m) ++ [m]) in H.
    change (iterate step (S (S k)) m)
      with (flat_map (fun s' => if Nat.ltb (pos m) (pos s')
                                then iterate step (S k) s' else [])
                     (step m) ++ [m]).
    apply in_app_or in H. apply in_or_app.
    destruct H as [H|H]; [left|right; exact H].
    apply in_flat_map in H. destruct H as (s' & Hs & Hx).
    apply in_flat_map. exists s'. split; [exact Hs|].
    destruct (Nat.ltb (pos m) (pos s')); [apply IH; exact Hx | exact Hx].
Qed.

Lemma iterate_more (step : mstate -> list mstate) (k k' : nat) (m x : mstate) :
  k <= k' -> In x (iterate step k m) -> In x (iterate step k' m).
Proof.
  induction 1 as [|k' _ IH]; intro H; [exact H|].
  apply iterate_mono, IH, H.
Qed.

Lemma iterate_sound (r : regex) :
  (forall m m', In m' (run r m) -> extends r m m') ->
  forall (fuel : nat) (m m' : mstate),
    In m' (iterate (run r) fuel m) -> extends (Star r) m m'.
Proof.
  intros Hr. induction fuel as [|k IH]; intros m m' H.
  - destruct H as [<-|[]]. exists []. cbn [app List.length]. repeat split; [lia | constructor].
  - cbn [iterate] in H. apply in_app_or in H. destruct H as [H|[<-|[]]].
    + apply in_flat_map in H. destruct H as (s' & Hs & Hx).
      destruct (Nat.ltb_spec (pos m) (pos s')) as [Hlt|]; [|destruct Hx].
      destruct (Hr _ _ Hs) as (u1 & E1 & P1 & M1).
      destruct (IH _ _ Hx) as (u2 & E2 & P2 & M2).
      exists (u1 ++ u2). rewrite length_app, <- app_assoc.
      split; [rewrite E1, E2; reflexivity|]. split; [lia|].
      apply MStarS.
      * intros ->. cbn [List.length] in P1. lia.
      * rewrite <- E2. exact M1.
      * rewrite <- P1. exact M2.
    + exists []. cbn [app List.length]. repeat split; [lia | constructor].
Qed.

(** Every success of the matcher is a match of the pattern. *)
Lemma run_sound (r : regex) :
  forall m m' : mstate, In m' (run r m) -> extends r m m'.
Proof.
  induction r as [|p|r1 IH1 r2 IH2|r1 IH1 r2 IH2|r1 IH1| | |n r1 IH1];
    intros m m' H; cbn [run] in H.
  - destruct H as [<-|[]]. exists []. cbn [app List.length]. repeat split; [lia | constructor].
  - destruct (rest m) as [|c t] eqn:E; [destruct H|].
    destruct (p c) eqn:Hc; [|destruct H]. destruct H as [<-|[]].
    exists [c]. cbn [rest pos List.length app].
    split; [exact E|]. split; [lia|]. constructor. exact Hc.
  - apply in_flat_map in H. destruct H as (m1 & H1 & H2).
    destruct (IH1 _ _ H1) as (u1 & E1 & P1 & M1).
    destruct (IH2 _ _ H2) as (u2 & E2 & P2 & M2).
    exists (u1 ++ u2). rewrite length_app, <- app_assoc.
    split; [rewrite E1, E2; reflexivity|]. split; [lia|].
    apply MCat; [rewrite <- E2; exact M1 | rewrite <- P1; exact M2].
  - apply in_app_or in H. destruct H as [H|H].
    + destruct (IH1 _ _ H) as (u & E & P & M).
      exists u. repeat split; try assumption. apply MAltL. exact M.
    + destruct (IH2 _ _ H) as (u & E & P & M).
      exists u. repeat split; try assumption. apply MAltR. exact M.
  - exact (iterate_sound IH1 _ _ _ H).
  - destruct (Nat.eqb_spec (pos m) 0) as [E|]; [|destruct H].
    destruct H as [<-|[]]. exists []. rewrite E. cbn [app List.length].
    repeat split; constructor.
  - destruct (rest m) as [|c t] eqn:E; [|destruct H].
    destruct H as [<-|[]]. exists []. rewrite E. cbn [app List.length].
    repeat split; [lia | constructor].
  - apply in_map_iff in H. destruct H as (x & <- & Hx).
    destruct (IH1 _ _ Hx) as (u & E & P & M).
    exists u. unfold capture. cbn [rest pos].
    repeat split; try assumption. apply MGroup. exact M.
Qed.

(** Every match of the pattern is among the successes of the matcher. *)
Lemma run_complete (r : regex) (i : nat) (u v : jsstring) :
  matches r i u v ->
  forall cs, exists cs',
    In (MState (i + List.length u) v cs') (run r (MState i (u ++ v) cs)).
Proof.
  induction 1 as [i v|p c i v Hc|r1 r2 i u1 u2 v _ IH1 _ IH2
                 |r1 r2 i u v _ IH|r1 r2 i u v _ IH|r i v
                 |r i u1 u2 v Hne _ IH1 _ IH2|v|i|n r i u v _ IH];
    intro cs; cbn [run rest pos caps app List.length].
  - exists cs. rewrite Nat.add_0_r. left. reflexivity.
  - rewrite Hc. exists cs. left. f_equal. lia.
  - destruct (IH1 cs) as [cs1 H1]. destruct (IH2 cs1) as [cs2 H2].
    exists cs2. rewrite length_app, Nat.add_assoc, <- app_assoc.
    apply in_flat_map. eexists. split; [exact H1 | exact H2].
  - destruct (IH cs) as [cs' H']. exists cs'. apply in_or_app. left. exact H'.
  - destruct (IH cs) as [cs' H']. exists cs'. apply in_or_app. right. exact H'.
  - exists cs. rewrite Nat.add_0_r. apply iterate_self.
  - destruct (IH1 cs) as [cs1 H1]. destruct (IH2 cs1) as [cs2 H2].
    exists cs2. rewrite length_app, Nat.add_assoc, <- app_assoc.
    cbn [run rest] in H2.
    destruct u1 as [|c u1]; [contradiction Hne; reflexivity|].
    cbn [app List.length iterate]. apply in_or_app. left.
    apply in_flat_map. eexists. split; [exact H1|].
    cbn [pos].
    destruct (Nat.ltb_spec i (i + List.length (c :: u1)));
      [|cbn [List.length] in *; lia].
    apply iterate_more with (k := List.length (u2 ++ v)); [|exact H2].
    rewrite !length_app. lia.
  - exists cs. left. reflexivity.
  - exists cs. rewrite Nat.add_0_r. left. reflexivity.
  - destruct (IH cs) as [cs' H']. eexists.
    apply in_map_iff. eexists. split; [|exact H'].
    unfold capture. cbn [pos rest caps]. reflexivity.
Qed.

Lemma exec_sound (r : regex) :
  forall (s : jsstring) (i : nat) (m : mstate),
    exec r i s = Some m ->
    exists pre u, s = pre ++ u ++ rest m
                  /\ matches r (i + List.length pre) u (rest m).
Proof.
  assert (Hat : forall s i m, matchAt r i s = Some m ->
            exists u, s = u ++ rest m /\ matches r i u (rest m)).
  { intros s i m H. unfold matchAt in H.
    destruct (run r (MState i s [])) as [|x l] eqn:E; [discriminate|].
    injection H as ->.
    destruct (@run_sound r (MState i s []) m) as (u & Eu & _ & M).
    - rewrite E. left. reflexivity.
    - exists u. split; assumption. }
  induction s as [|c t IH]; intros i m H; cbn [exec] in H.
  - destruct (matchAt r i []) eqn:E; [|discriminate]. injection H as ->.
    destruct (Hat _ _ _ E) as (u & Eu & M).
    exists [], u. rewrite Nat.add_0_r. split; assumption.
  - destruct (matchAt r i (c :: t)) eqn:E.
    + injection H as ->. destruct (Hat _ _ _ E) as (u & Eu & M).
      exists [], u. rewrite Nat.add_0_r. split; assumption.
    + destruct (IH _ _ H) as (pre & u & Eu & M).
      exists (c :: pre), u. cbn [app List.length]. rewrite <- Eu.
      split; [reflexivity|]. rewrite Nat.add_succ_r. exact M.
Qed.

Lemma exec_complete (r : regex) (u v : jsstring) :
  forall (pre : jsstring) (i : nat),
    matches r (i + List.length pre) u v ->
    exists m, exec r i (pre ++ u ++ v) = Some m.
Proof.
  assert (Hat : forall i, matches r i u v ->
            exists m, matchAt r i (u ++ v) = Some m).
  { intros i M. destruct (run_complete M []) as [cs' H].
    unfold matchAt. destruct (run r (MState i (u ++ v) [])) as [|x l];
      [destruct H | exists x; reflexivity]. }
  assert (Hex : forall i s m, matchAt r i s = Some m -> exec r i s = Some m).
  { intros i s m H. destruct s; cbn [exec]; rewrite H; reflexivity. }
  induction pre as [|c pre IH]; intros i M.
  - rewrite Nat.add_0_r in M. destruct (Hat _ M) as [m Hm].
    exists m. apply Hex. exact Hm.
  - cbn [app exec]. destruct (matchAt r i (c :: pre ++ u ++ v)) as [m|].
    + exists m. reflexivity.
    + apply IH. cbn [List.length] in M. rewrite Nat.add_succ_r in M. exact M.
Qed.

(** test: some part of the text is matched by the pattern. *)
Lemma test_matches (r : regex) (s : jsstring) :
  test r s = true <->
  exists pre u v, s = pre ++ u ++ v /\ matches r (List.length pre) u v.
Proof.
  unfold test. split.
  - destruct (exec r 0 s) as [m|] eqn:E; [|discriminate]. intros _.
    destruct (exec_sound _ _ _ E) as (pre & u & Eu & M).
    exists pre, u, (rest m). split; assumption.
  - intros (pre & u & v & -> & M).
    destruct (@exec_complete r u v pre 0 M) as [m ->]. reflexivity.
Qed.

(** ** booking.model.ts: the pattern of the email validator *)

Lemma matches_Cat_inv (r1 r2 : regex) (i : nat) (u v : jsstring) :
  matches (Cat r1 r2) i u v ->
  exists u1 u2, u = u1 ++ u2 /\ matches r1 i u1 (u2 ++ v)
                /\ matches r2 (i + List.length u1) u2 v.
Proof. inversion 1; subst. eauto. Qed.

Lemma matches_Class_inv (p : N -> bool) (i : nat) (u v : jsstring) :
  matches (Class p) i u v -> exists c, u = [c] /\ p c = true.
Proof. inversion 1; subst. eauto. Qed.

Lemma matches_Opt_inv (r : regex) (i : nat) (u v : jsstring) :
  matches (Opt r) i u v -> matches r i u v \/ u = [].
Proof.
  unfold Opt. inversion 1 as [| | |? ? ? ? ? HL|? ? ? ? ? HR| | | | |]; subst.
  - left. exact HL.
  - inversion HR; subst. right. reflexivity.
Qed.

Lemma matches_Star_Class (p : N -> bool) (u : jsstring) :
  forall (i : nat) (v : jsstring),
    matches (Star (Class p)) i u v <-> forallb p u = true.
Proof.
  intros i v. split.
  - intro H. remember (Star (Class p)) as r eqn:Er.
    induction H as [| | | | | |r0 i u1 u2 v Hne H1 _ _ IH| | |];
      try discriminate; [reflexivity|].
    injection Er as ->. destruct (matches_Class_inv H1) as (c & -> & Hc).
    cbn [app forallb]. rewrite Hc, (IH eq_refl). reflexivity.
  - revert i. induction u as [|c t IH]; intros i H; [constructor|].
    cbn [forallb] in H. apply andb_prop in H. destruct H as [Hc Ht].
    change (c :: t) with ([c] ++ t).
    apply MStarS; [discriminate | constructor; exact Hc | apply IH; exact Ht].
Qed.

Lemma matches_Plus_Class (p : N -> bool) (i : nat) (u v : jsstring) :
  matches (Plus (Class p)) i u v <-> u <> [] /\ forallb p u = true.
Proof.
  unfold Plus. split.
  - intro H. destruct (matches_Cat_inv H) as (u1 & u2 & -> & H1 & H2).
    destruct (matches_Class_inv H1) as (c & -> & Hc).
    apply matches_Star_Class in H2. split; [discriminate|].
    cbn [app forallb]. rewrite Hc, H2. reflexivity.
  - intros [Hne H]. destruct u as [|c t]; [contradiction Hne; reflexivity|].
    cbn [forallb] in H. apply andb_prop in H. destruct H as [Hc Ht].
    change (c :: t) with ([c] ++ t).
    apply MCat; [constructor; exact Hc | apply matches_Star_Class; exact Ht].
Qed.

Lemma matches_UpTo_Class (p : N -> bool) :
  forall (n i : nat) (u v : jsstring),
    matches (UpTo n (Class p)) i u v
    <-> List.length u <= n /\ forallb p u = true.
Proof.
  induction n as [|k IH]; intros i u v; cbn [UpTo]; split.
  - inversion 1; subst. split; [apply Nat.le_refl | reflexivity].
  - intros [Hl _]. destruct u; [constructor | cbn [List.length] in Hl; lia].
  - inversion 1 as [| | |? ? ? ? ? HL|? ? ? ? ? HR| | | | |]; subst.
    + destruct (matches_Cat_inv HL) as (u1 & u2 & -> & H1 & H2).
      destruct (matches_Class_inv H1) as (c & -> & Hc).
      apply IH in H2. destruct H2 as [Hl Hp].
      cbn [app List.length forallb]. rewrite Hc, Hp. split; [lia | reflexivity].
    + inversion HR; subst. split; [cbn [List.length]; lia | reflexivity].
  - intros [Hl Hp]. destruct u as [|c t]; [apply MAltR; constructor|].
    cbn [forallb] in Hp. apply andb_prop in Hp. destruct Hp as [Hc Ht].
    cbn [List.length] in Hl. apply MAltL. change (c :: t) with ([c] ++ t).
    apply MCat; [constructor; exact Hc | apply IH; split; [lia | exact Ht]].
Qed.

Lemma matches_labelTail (i : nat) (u v : jsstring) :
  matches labelTail i u v <-> isLabelTail u.
Proof.
  unfold labelTail, isLabelTail. split.
  - intro H. apply matches_Opt_inv in H. destruct H as [HL | ->].
    + destruct (matches_Cat_inv HL) as (u1 & u2 & -> & H1 & H2).
      destruct (matches_Class_inv H2) as (c & -> & Hc).
      apply matches_UpTo_Class in H1. destruct H1 as [Hl Hp].
      right. exists u1, c. repeat split; assumption.
    + left. reflexivity.
  - unfold Opt.
    intros [->|(x & c & -> & Hl & Hp & Hc)]; [apply MAltR; constructor|].
    apply MAltL, MCat; [|constructor; exact Hc].
    apply matches_UpTo_Class. split; assumption.
Qed.

Lemma alnum_labelChar (c : N) : isAlnum c = true -> labelChar c = true.
Proof. unfold labelChar. intros ->. reflexivity. Qed.

Lemma isLabel_cons (c0 : N) (t : jsstring) :
  isLabel (c0 :: t) = true <-> isAlnum c0 = true /\ isLabelTail t.
Proof.
  unfold isLabel, isLabelTail. cbn [hd forallb]. split.
  - intro H.
    apply andb_prop in H. destruct H as [H Hlast].
    apply andb_prop in H. destruct H as [H Hhd].
    apply andb_prop in H. destruct H as [H Hall].
    apply andb_prop in H. destruct H as [_ Hlen].
    apply andb_prop in Hall. destruct Hall as [_ Ht].
    apply Nat.leb_le in Hlen. split; [exact Hhd|].
    destruct t as [|d t']; [left; reflexivity|]. right.
    assert (Hne : d :: t' <> []) by discriminate.
    pose proof (app_removelast_last 0%N Hne) as E.
    exists (removelast (d :: t')), (last (d :: t') 0%N).
    split; [exact E|].
    rewrite E in Ht. rewrite forallb_app in Ht.
    apply andb_prop in Ht. destruct Ht as [Hx _].
    assert (Hl : List.length (d :: t')
                 = List.length (removelast (d :: t')) + 1).
    { rewrite E at 1. rewrite length_app. reflexivity. }
    cbn [List.length] in Hlen.
    split; [cbn [List.length] in Hl; lia|]. split; [exact Hx|].
    exact Hlast.
  - intros [Hhd [->|(x & c & -> & Hl & Hx & Hc)]].
    + cbn [List.length last forallb]. rewrite Hhd, (alnum_labelChar _ Hhd).
      reflexivity.
    + change (c0 :: x ++ [c]) with ((c0 :: x) ++ [c]).
      rewrite last_last, length_app, forallb_app.
      cbn [List.length forallb]. rewrite Hhd, Hc, Hx.
      rewrite (alnum_labelChar _ Hhd), (alnum_labelChar _ Hc).
      cbn [andb].
      destruct (Nat.leb_spec 1 (S (List.length x) + 1)); [|lia].
      destruct (Nat.leb_spec (S (List.length x) + 1) 63); [|lia].
      reflexivity.
Qed.

Lemma isLabel_nonempty (l : jsstring) :
  isLabel l = true -> exists c t, l = c :: t.
Proof. destruct l as [|c t]; [discriminate | eauto]. Qed.

Lemma matches_label (i : nat) (u v : jsstring) :
  matches (Cat (Class isAlnum) labelTail) i u v <-> isLabel u = true.
Proof.
  split.
  - intro H. destruct (matches_Cat_inv H) as (u1 & u2 & -> & H1 & H2).
    destruct (matches_Class_inv H1) as (c & -> & Hc).
    apply matches_labelTail in H2. apply isLabel_cons. split; assumption.
  - intro H. destruct (isLabel_nonempty _ H) as (c & t & ->).
    apply isLabel_cons in H. destruct H as [Hc Ht].
    change (c :: t) with ([c] ++ t).
    apply MCat; [constructor; exact Hc | apply matches_labelTail; exact Ht].
Qed.

Lemma matches_moreLabels (u : jsstring) :
  forall (i : nat) (v : jsstring),
    matches moreLabels i u v
    <-> exists ls, forallb isLabel ls = true
                   /\ u = flat_map (fun x => chr "." :: x) ls.
Proof.
  intros i v. unfold moreLabels. split.
  - intro H.
    remember (Star (Cat (Chr ".") (Cat (Class isAlnum) labelTail))) as r eqn:Er.
    induction H as [| | | | | |r0 i u1 u2 v Hne H1 _ _ IH| | |];
      try discriminate; [exists []; split; reflexivity|].
    injection Er as ->. destruct (IH eq_refl) as (ls & Hls & ->).
    destruct (matches_Cat_inv H1) as (d & l & -> & Hd & Hl).
    destruct (matches_Class_inv Hd) as (c & -> & Hc).
    apply N.eqb_eq in Hc. subst c. apply matches_label in Hl.
    exists (l :: ls). cbn [forallb flat_map]. rewrite Hl, Hls.
    split; reflexivity.
  - intros (ls & Hls & ->). revert i.
    induction ls as [|l ls IH]; intro i; [constructor|].
    cbn [forallb] in Hls. apply andb_prop in Hls. destruct Hls as [Hl Hls].
    cbn [flat_map]. apply MStarS; [discriminate| |apply IH; exact Hls].
    change (chr "." :: l) with ([chr "."] ++ l).
    apply MCat; [constructor; apply N.eqb_refl | apply matches_label; exact Hl].
Qed.

Lemma matches_emailRegex (i : nat) (s v : jsstring) :
  matches emailRegex i s v <-> i = 0 /\ v = [] /\ emailShape s.
Proof.
  unfold emailRegex, emailShape, dotted. fold moreLabels. split.
  - intro H.
    destruct (matches_Cat_inv H) as (u0 & s1 & -> & H0 & H1). clear H.
    inversion H0; subst. clear H0.
    destruct (matches_Cat_inv H1) as (local & s2 & -> & Hlocal & H2). clear H1.
    destruct (matches_Cat_inv H2) as (at_ & s3 & -> & Hat & H3). clear H2.
    destruct (matches_Cat_inv H3) as (c0 & s4 & -> & Hc0 & H4). clear H3.
    destruct (matches_Cat_inv H4) as (tail & s5 & -> & Htail & H5). clear H4.
    destruct (matches_Cat_inv H5) as (more & e & -> & Hmore & He). clear H5.
    inversion He; subst. clear He.
    apply matches_Plus_Class in Hlocal. destruct Hlocal as [Hne Hlocal].
    destruct (matches_Class_inv Hat) as (a & -> & Ha).
    apply N.eqb_eq in Ha. subst a.
    destruct (matches_Class_inv Hc0) as (c & -> & Hc).
    apply matches_labelTail in Htail.
    apply matches_moreLabels in Hmore. destruct Hmore as (ls & Hls & ->).
    split; [reflexivity|]. split; [reflexivity|].
    exists local, (c :: tail), ls. rewrite app_nil_r.
    split; [reflexivity|]. split; [exact Hne|]. split; [exact Hlocal|].
    cbn [forallb]. rewrite Hls, andb_true_r.
    apply isLabel_cons. split; assumption.
  - intros (-> & -> & local & l & ls & -> & Hne & Hlocal & Hall).
    cbn [forallb] in Hall. apply andb_prop in Hall. destruct Hall as [Hl Hls].
    destruct (isLabel_nonempty _ Hl) as (c & tail & ->).
    apply isLabel_cons in Hl. destruct Hl as [Hc Htail].
    change (local ++ js "@" ++ (c :: tail) ++ flat_map (fun x => chr "." :: x) ls)
      with ([] ++ local ++ [chr "@"] ++ [c] ++ tail
            ++ flat_map (fun x => chr "." :: x) ls).
    rewrite <- (app_nil_r (flat_map (fun x => chr "." :: x) ls)).
    apply MCat; [constructor|].
    apply MCat; [apply matches_Plus_Class; split; assumption|].
    apply MCat; [constructor; apply N.eqb_refl|].
    apply MCat; [constructor; exact Hc|].
    apply MCat; [apply matches_labelTail; exact Htail|].
    apply MCat; [|constructor].
    apply matches_moreLabels. exists ls. split; [exact Hls | reflexivity].
Qed.

Lemma test_emailRegex (s : jsstring) :
  test emailRegex s = true <-> emailShape s.
Proof.
  rewrite test_matches. split.
  - intros (pre & u & v & -> & H). apply matches_emailRegex in H.
    destruct H as (Hpre & -> & Hs). destruct pre; [|discriminate].
    rewrite app_nil_r. exact Hs.
  - intro H. exists [], s, []. rewrite app_nil_r. split; [reflexivity|].
    apply matches_emailRegex. repeat split. exact H.
Qed.

(** X7.  The pattern of the email validator accepts exactly the texts
    made of a non-empty local part of letters, digits and the signs
    .!#$%&'*+/=?^_`{|}~- , one at sign, and one or more labels joined by
    dots, each label 1 to 63 letters, digits and hyphens with no hyphen
    at either end.  So the validator accepts an address without a dot in
    its domain and refuses white space anywhere. *)
Theorem email_validator_accepts (s : jsstring) :
  test emailRegex s = true <-> emailShape s.
Proof. exact (test_emailRegex s). Qed.

(** ** normalizeDate *)

Lemma valueOf_zeros (k : nat) (ds : jsstring) :
  valueOf (repeat (chr "0") k ++ ds) = valueOf ds.
Proof.
  unfold valueOf. rewrite fold_left_app. f_equal. f_equal.
  induction k as [|k IH]; [reflexivity|]. cbn [repeat fold_left]. exact IH.
Qed.

Lemma valueOf_pad (w : nat) (n : Z) : (0 <= n)%Z -> valueOf (pad w n) = n.
Proof.
  intro Hn. unfold pad, padStart. rewrite valueOf_zeros.
  destruct (digitsOf_valueOf (Z.to_N n)) as [_ ->]. lia.
Qed.

Lemma pad_length (w : nat) (n : Z) : w <= List.length (pad w n).
Proof. unfold pad, padStart. rewrite length_app, repeat_length. lia. Qed.

Lemma isYMD_length (s : jsstring) : isYMD s = true -> List.length s = 10.
Proof.
  do 10 (destruct s as [|? s]; [discriminate|]).
  destruct s; [reflexivity | discriminate].
Qed.

Lemma sameDate_refl (a : Z * Z * Z) : sameDate a a = true.
Proof. destruct a as [[y m] d]. cbn [sameDate]. rewrite !Z.eqb_refl. reflexivity. Qed.

(** The date-only form of a day is read back as the midnight of that
    day. *)
Lemma isoParse_isoDate (day : Z) :
  (0 <= fst (fst (civil day)) <= 9999)%Z ->
  isoParse (isoDate (civil day)) = Some (day * msPerDay)%Z.
Proof.
  intro Hy. pose proof (civil_bounds day) as Hb.
  pose proof (daysFromCivil_civil day) as Hinv.
  destruct (civil day) as [[y m] d] eqn:E. cbn [fst] in Hy.
  destruct Hb as [Hm Hd].
  pose proof (isoDate_shape Hy Hm Hd) as Hs.
  unfold isoDate, isoYear in *.
  replace ((0 <=? y) && (y <=? 9999))%Z with true in *
    by (symmetry; apply andb_true_intro; split; apply Z.leb_le; lia).
  pose proof (@valueOf_pad 4 y) as Vy.
  pose proof (@valueOf_pad 2 m) as Vm.
  pose proof (@valueOf_pad 2 d) as Vd.
  destruct (@pad_shape 3 y) as [Ly _]; [lia | change (pow10 4) with 10000%N; lia|].
  destruct (@pad_shape 1 m) as [Lm _]; [lia | change (pow10 2) with 100%N; lia|].
  destruct (@pad_shape 1 d) as [Ld _]; [lia | change (pow10 2) with 100%N; lia|].
  destruct (pad 4 y) as [|y1 [|y2 [|y3 [|y4 [|? ?]]]]]; try discriminate.
  destruct (pad 2 m) as [|m1 [|m2 [|? ?]]]; try discriminate.
  destruct (pad 2 d) as [|d1 [|d2 [|? ?]]]; try discriminate.
  change (js "-") with [chr "-"] in *. cbn [app] in *.
  unfold isoParse. rewrite Hs, Vy, Vm, Vd by lia.
  rewrite Hinv, E, sameDate_refl. reflexivity.
Qed.

Lemma isoDate_year (ymd : Z * Z * Z) :
  isYMD (isoDate ymd) = true -> (0 <= fst (fst ymd) <= 9999)%Z.
Proof.
  destruct ymd as [[y m] d]. cbn [fst]. intro H. apply isYMD_length in H.
  unfold isoDate, isoYear in H.
  destruct (Z.leb_spec 0 y); destruct (Z.leb_spec y 9999); try lia;
    cbn [andb] in H; rewrite ?length_app in H; cbn [List.length] in H;
    rewrite ?length_app in H;
    pose proof (pad_length 6 (Z.abs y)); pose proof (pad_length 2 m);
    pose proof (pad_length 2 d); cbn [js List.length] in H;
    change (List.length (js "-")) with 1 in H; lia.
Qed.

Lemma normalizeDate_again (dateParse : jsstring -> option Z) (s r : jsstring) :
  readsIsoDates dateParse ->
  normalizeDate dateParse s = Return r -> isYMD r = true ->
  normalizeDate dateParse r = Return r.
Proof.
  intros Hiso H Hr. rewrite normalizeDate_value in H.
  destruct (dateParse s) as [t|]; [|discriminate].
  assert (E : isoDate (utcDate t) = r) by congruence. clear H. subst r.
  rewrite normalizeDate_value.
  pose proof (isoDate_year (utcDate t) Hr) as Hy.
  pose proof (@isoParse_isoDate (t / msPerDay)%Z Hy) as Hp.
  change (civil (t / msPerDay)) with (utcDate t) in Hp.
  rewrite (Hiso _ _ Hp). unfold utcDate.
  rewrite Z.div_mul by (unfold msPerDay; lia). reflexivity.
Qed.

Lemma v8DateParse_reads (offset : Z) : readsIsoDates (v8DateParse offset).
Proof. intros s t H. unfold v8DateParse. rewrite H. reflexivity. Qed.

(** X8.  On a host that reads the date-only form as ECMA-262 requires, a
    date that normalizeDate has returned in the form YYYY-MM-DD is
    returned as it is by a second normalisation, in every time zone: the
    hook may run again on a stored date without moving it. *)
Theorem normalizeDate_idempotent (dateParse : jsstring -> option Z)
        (s r : jsstring) :
  readsIsoDates dateParse ->
  normalizeDate dateParse s = Return r -> isYMD r = true ->
  normalizeDate dateParse r = Return r.
Proof. apply normalizeDate_again. Qed.

Lemma normalizeDate_idempotent_witness :
  normalizeDate (v8DateParse 60) (js "2024-03-04") = Return (js "2024-03-04").
Proof.
  apply (@normalizeDate_idempotent (v8DateParse 60) (js "March 5, 2024")
           (js "2024-03-04") (v8DateParse_reads 60));
    vm_compute; reflexivity.
Defined.

(** ** event.model.ts: the pre-save hook and Event.create *)

Lemma andThen_Return (A B : Type) (r : exc A) (k : A -> exc B) (b : B) :
  andThen r k = Return b -> exists a, r = Return a /\ k a = Return b.
Proof. destruct r as [a|e]; [eauto | discriminate]. Qed.

Lemma withSlug_same (e : IEvent) : withSlug (slug e) e = e.
Proof. destruct e. reflexivity. Qed.

Lemma withDate_same (e : IEvent) : withDate (date e) e = e.
Proof. destruct e. reflexivity. Qed.

Lemma withTime_same (e : IEvent) : withTime (time e) e = e.
Proof. destruct e. reflexivity. Qed.

Lemma eventPreSave_steps (host : Host) (d : document IEvent) (e' : IEvent) :
  eventPreSave host d = Return e' <->
  exists sl da ti,
    e' = withTime ti (withDate da (withSlug sl (doc d)))
    /\ slugStep host d sl /\ dateStep host d da /\ timeStep host d ti.
Proof.
  unfold eventPreSave, slugStep, dateStep, timeStep. split.
  - intro H.
    apply andThen_Return in H. destruct H as (e1 & H1 & H).
    apply andThen_Return in H. destruct H as (e2 & H2 & H3).
    assert (S1 : exists sl, e1 = withSlug sl (doc d)
                 /\ if isModified d "title" || isNew d
                    then exists t, title (doc d) = Some t
                                   /\ sl = Some (slugSetter (generateSlug t))
                    else sl = slug (doc d)).
    { destruct (isModified d "title" || isNew d).
      - destruct (title (doc d)) as [t|]; [|discriminate].
        injection H1 as <-. exists (Some (slugSetter (generateSlug t))).
        split; [reflexivity|]. exists t. auto.
      - injection H1 as <-. exists (slug (doc d)).
        rewrite withSlug_same. auto. }
    destruct S1 as (sl & -> & Hsl).
    assert (S2 : exists da, e2 = withDate da (withSlug sl (doc d))
                 /\ if isModified d "date"
                    then exists s r, date (doc d) = Some s
                           /\ normalizeDate (dateParse host) s = Return r
                           /\ da = Some r
                    else da = date (doc d)).
    { destruct (isModified d "date").
      - cbn [date withSlug] in H2.
        destruct (date (doc d)) as [s|]; [|discriminate].
        apply andThen_Return in H2. destruct H2 as (r & Hr & H2).
        injection H2 as <-. exists (Some r). split; [reflexivity|].
        exists s, r. auto.
      - injection H2 as <-. exists (date (doc d)).
        split; [|reflexivity]. destruct (doc d). reflexivity. }
    destruct S2 as (da & -> & Hda).
    exists sl, da.
    destruct (isModified d "time").
    + cbn [time withDate withSlug] in H3.
      destruct (time (doc d)) as [s|]; [|discriminate].
      apply andThen_Return in H3. destruct H3 as (r & Hr & H3).
      injection H3 as <-. exists (Some r). split; [reflexivity|].
      split; [exact Hsl|]. split; [exact Hda|]. exists s, r. auto.
    + injection H3 as <-. exists (time (doc d)).
      split; [destruct (doc d); reflexivity|]. auto.
  - intros (sl & da & ti & -> & Hsl & Hda & Hti).
    assert (E1 : (if isModified d "title" || isNew d
                  then match title (doc d) with
                       | Some t =>
                           Return (withSlug (Some (slugSetter (generateSlug t)))
                                            (doc d))
                       | None => Throw (undefinedReceiver "toLowerCase")
                       end
                  else Return (doc d))
                 = Return (withSlug sl (doc d))).
    { destruct (isModified d "title" || isNew d).
      - destruct Hsl as (t & -> & ->). reflexivity.
      - rewrite Hsl, withSlug_same. reflexivity. }
    rewrite E1. cbn [andThen].
    assert (E2 : (if isModified d "date"
                  then match date (withSlug sl (doc d)) with
                       | Some s =>
                           andThen (normalizeDate (dateParse host) s)
                             (fun d' => Return (withDate (Some d')
                                                  (withSlug sl (doc d))))
                       | None => Throw InvalidDateFormat
                       end
                  else Return (withSlug sl (doc d)))
                 = Return (withDate da (withSlug sl (doc d)))).
    { destruct (isModified d "date").
      - destruct Hda as (s & r & Hs & Hr & ->). cbn [date withSlug].
        rewrite Hs, Hr. reflexivity.
      - rewrite Hda. destruct (doc d). reflexivity. }
    rewrite E2. cbn [andThen].
    destruct (isModified d "time").
    + destruct Hti as (s & r & Hs & Hr & ->). cbn [time withDate withSlug].
      rewrite Hs, Hr. reflexivity.
    + rewrite Hti. destruct (doc d). reflexivity.
Qed.

(** X9.  The pre-save hook of an event assigns slug, date and time and
    nothing else: every other field is as it was, the slug as well unless
    the title is modified or the document is new, the date unless it is
    modified, and the time unless it is modified. *)
Theorem eventPreSave_assigns_only (host : Host) (d : document IEvent)
        (e' : IEvent) :
  eventPreSave host d = Return e' ->
  untouched e' = untouched (doc d)
  /\ (isModified d "title" || isNew d = false -> slug e' = slug (doc d))
  /\ (isModified d "date" = false -> date e' = date (doc d))
  /\ (isModified d "time" = false -> time e' = time (doc d)).
Proof.
  intro H. apply eventPreSave_steps in H.
  destruct H as (sl & da & ti & -> & Hsl & Hda & Hti).
  unfold slugStep, dateStep, timeStep in *.
  split; [reflexivity|]. cbn [slug date time withTime withDate withSlug].
  split; [|split]; intro F; rewrite F in *; assumption.
Qed.

Lemma eventPreSave_assigns_only_witness :
  untouched launched = untouched (doc launch).
Proof.
  exact (proj1 (@eventPreSave_assigns_only (isoHost 60) launch launched
                  eq_refl)).
Defined.

(** X10.  What the hook assigns is in canonical form: the slug is
    generateSlug of the title, the date is the UTC calendar date of the
    instant that the host reads from the text, and the time is in the
    form HH:MM of the 24-hour clock. *)
Theorem eventPreSave_canonical (host : Host) (d : document IEvent)
        (e' : IEvent) :
  eventPreSave host d = Return e' ->
  (isModified d "title" || isNew d = true ->
   exists t, title e' = Some t /\ slug e' = Some (generateSlug t))
  /\ (isModified d "date" = true ->
      exists s t, date (doc d) = Some s /\ dateParse host s = Some t
                  /\ date e' = Some (isoDate (utcDate t)))
  /\ (isModified d "time" = true ->
      exists r, time e' = Some r /\ isHHMM r = true).
Proof.
  intro H. apply eventPreSave_steps in H.
  destruct H as (sl & da & ti & -> & Hsl & Hda & Hti).
  unfold slugStep, dateStep, timeStep in *.
  cbn [title slug date time withTime withDate withSlug].
  split; [|split]; intro F; rewrite F in *.
  - destruct Hsl as (t & Ht & ->). exists t. rewrite slugSetter_slug. auto.
  - destruct Hda as (s & r & Hs & Hr & ->). rewrite normalizeDate_value in Hr.
    destruct (dateParse host s) as [t|] eqn:Et; [|discriminate].
    exists s, t. repeat split; congruence.
  - destruct Hti as (s & r & Hs & Hr & ->). exists r.
    split; [reflexivity | exact (normalizeTime_result_shape _ Hr)].
Qed.

Lemma eventPreSave_canonical_witness :
  exists t, title launched = Some t /\ slug launched = Some (generateSlug t).
Proof.
  exact (proj1 (@eventPreSave_canonical (isoHost 60) launch launched eq_refl)
               eq_refl).
Defined.

(** X11.  The hook is idempotent: on a host that reads the date-only
    form as ECMA-262 requires, a second run on the document that a first
    run has left, with the same paths modified, leaves it as it is
    (dates of the years 0 to 9999). *)
Theorem eventPreSave_idempotent (host : Host) (d : document IEvent)
        (e' : IEvent) :
  readsIsoDates (dateParse host) ->
  eventPreSave host d = Return e' ->
  (forall r, isModified d "date" = true -> date e' = Some r ->
             isYMD r = true) ->
  eventPreSave host (savedAgain d e') = Return e'.
Proof.
  intros Hiso H Hy. apply eventPreSave_steps in H.
  destruct H as (sl & da & ti & -> & Hsl & Hda & Hti).
  apply eventPreSave_steps. exists sl, da, ti.
  unfold slugStep, dateStep, timeStep, savedAgain in *.
  change (isModified (Document (isNew d) (modifiedPaths d) ?x) ?p)
    with (isModified d p) in *.
  cbn [isNew doc title slug date time withTime withDate withSlug] in *.
  split; [reflexivity|]. split; [|split].
  - destruct (isModified d "title" || isNew d); [exact Hsl|].
    reflexivity.
  - destruct (isModified d "date"); [|reflexivity].
    destruct Hda as (s & r & Hs & Hr & ->). exists r, r.
    split; [reflexivity|]. split; [|reflexivity].
    exact (@normalizeDate_again (dateParse host) s r Hiso Hr
             (Hy r eq_refl eq_refl)).
  - destruct (isModified d "time"); [|reflexivity].
    destruct Hti as (s & r & Hs & Hr & ->). exists r, r.
    split; [reflexivity|]. split; [|reflexivity].
    apply normalizeTime_kept. exact (normalizeTime_result_shape _ Hr).
Qed.

Lemma eventPreSave_idempotent_witness :
  eventPreSave (isoHost 60) (savedAgain launch launched) = Return launched.
Proof.
  apply (@eventPreSave_idempotent (isoHost 60) launch launched
           (v8DateParse_reads 60) eq_refl).
  intros r _ H. vm_compute in H. injection H as <-. reflexivity.
Defined.

(** ** Event.create *)

Lemma eqs_eq (a b : jsstring) : eqs a b = true <-> a = b.
Proof.
  revert b. induction a as [|x a IH]; intros [|y b]; cbn [eqs];
    try (split; [discriminate | discriminate]); [split; reflexivity|].
  rewrite andb_true_iff, N.eqb_eq, IH. split.
  - intros [-> ->]. reflexivity.
  - intro H. injection H as -> ->. split; reflexivity.
Qed.

Lemma sameSlug_eq (a b : option jsstring) : sameSlug a b = true <-> a = b.
Proof.
  destruct a as [x|], b as [y|]; cbn [sameSlug];
    try (split; [discriminate | discriminate]); [|split; reflexivity].
  rewrite eqs_eq. split; [intros ->; reflexivity | intro H; injection H; auto].
Qed.

Lemma isModified_set (e : IEvent) (new : bool) (p : string) :
  In p (eventPaths e) -> isModified (Document new (eventPaths e) e) p = true.
Proof.
  intro H. unfold isModified. cbn [modifiedPaths].
  apply existsb_exists. exists p. split; [exact H | apply String.eqb_refl].
Qed.

Lemma date_set (e : IEvent) (s : jsstring) :
  date e = Some s -> In "date"%string (eventPaths e).
Proof.
  intro H. unfold eventPaths. rewrite H. cbn [isSet].
  do 7 (apply in_or_app; right). apply in_or_app. left. left. reflexivity.
Qed.

Lemma time_set (e : IEvent) (s : jsstring) :
  time e = Some s -> In "time"%string (eventPaths e).
Proof.
  intro H. unfold eventPaths. rewrite H. cbn [isSet].
  do 8 (apply in_or_app; right). apply in_or_app. left. left. reflexivity.
Qed.

Lemma required_inv (path msg : string) (v : option jsstring) :
  required path msg v = [] <-> exists c t, v = Some (c :: t).
Proof.
  unfold required. destruct v as [[|c t]|]; split;
    try discriminate; try (intros (c' & t' & H); discriminate H); eauto.
Qed.

(** The paths that validation requires, on an event that passes it. *)
Lemma validateEvent_required (e : IEvent) :
  validateEvent e = [] ->
  (exists c t, title e = Some (c :: t))
  /\ (exists c t, date e = Some (c :: t))
  /\ (exists c t, time e = Some (c :: t)).
Proof.
  unfold validateEvent. intro H.
  repeat match type of H with
         | _ ++ _ = [] => apply app_eq_nil in H; destruct H as [? H]
         end.
  repeat match goal with
         | X : required _ _ _ = [] |- _ => apply required_inv in X
         end.
  auto.
Qed.

Lemma validateEvent_kept (e : IEvent) (sl : option jsstring) (da ti : jsstring) :
  validateEvent e = [] -> da <> [] -> ti <> [] ->
  validateEvent (withTime (Some ti) (withDate (Some da) (withSlug sl e))) = [].
Proof.
  unfold validateEvent. intros H Hd Ht.
  cbn [title slug description overview image venue location date time mode
       audience agenda organizer tags withTime withDate withSlug].
  repeat match type of H with
         | _ ++ _ = [] => apply app_eq_nil in H; destruct H as [? H]
         end.
  repeat match goal with
         | X : ?a = [] |- context [?a] => rewrite X
         end.
  destruct da; [contradiction Hd; reflexivity|].
  destruct ti; [contradiction Ht; reflexivity|]. reflexivity.
Qed.

Lemma isoDate_nonempty (ymd : Z * Z * Z) : isoDate ymd <> [].
Proof.
  destruct ymd as [[y m] d]. unfold isoDate.
  destruct (isoYear y); discriminate.
Qed.

Lemma isHHMM_nonempty (r : jsstring) : isHHMM r = true -> r <> [].
Proof. destruct r; [discriminate | discriminate]. Qed.

(** Event.create, step by step. *)
Lemma Event_create_spec (host : Host) (c : exc IEvent) (w : world) :
  match Event_create host c w with
  | (Return d, w') =>
      w' = World (events w ++ [d]) (bookings w) (assets w) (N.succ (clock w))
                 (trace w ++ [EventSaveCalled; EventInserted (clock w)])
      /\ d = Stored (clock w) (fields d) (clock w) (clock w)
      /\ exists input,
           c = Return input
           /\ validateEvent (eventSetters input) = []
           /\ eventPreSave host (Document true (eventPaths (eventSetters input))
                                          (eventSetters input))
              = Return (fields d)
           /\ existsb (fun x => sameSlug (slug (fields x)) (slug (fields d)))
                      (events w) = false
  | (Throw e, w') => w' = logged w [EventSaveCalled]
  end.
Proof.
  unfold Event_create, bind, emit, lift, throw, logged.
  destruct c as [input|e]; [|reflexivity].
  destruct (validateEvent (eventSetters input)) eqn:Ev; [|reflexivity].
  destruct (eventPreSave host _) as [e'|e] eqn:Eh; [|reflexivity].
  unfold insertEvent. cbn [events bookings assets clock trace].
  destruct (existsb _ (events w)) eqn:Ex; [reflexivity|].
  cbn [fields]. rewrite <- app_assoc.
  split; [reflexivity|]. split; [reflexivity|].
  exists input. auto.
Qed.

(** What Event.create has stored when it returns. *)
Lemma Event_create_stored (host : Host) (c : exc IEvent) (w w' : world)
      (d : stored IEvent) :
  Event_create host c w = (Return d, w') ->
  validateEvent (fields d) = []
  /\ (exists t, title (fields d) = Some t /\ t <> []
                /\ slug (fields d) = Some (generateSlug t))
  /\ (exists s t, dateParse host s = Some t
                  /\ date (fields d) = Some (isoDate (utcDate t)))
  /\ (exists r, time (fields d) = Some r /\ isHHMM r = true).
Proof.
  intro H. pose proof (Event_create_spec host c w) as S. rewrite H in S.
  destruct S as (_ & _ & input & _ & Ev & Eh & _).
  destruct (validateEvent_required _ Ev)
    as ((c1 & t1 & Ht) & (c2 & t2 & Hd) & (c3 & t3 & Hti)).
  pose proof (isModified_set _ true _ (date_set _ Hd)) as Md.
  pose proof (isModified_set _ true _ (time_set _ Hti)) as Mt.
  apply eventPreSave_steps in Eh.
  destruct Eh as (sl & da & ti & E & Hsl & Hda & Hti').
  unfold slugStep, dateStep, timeStep in *. rewrite Md in Hda. rewrite Mt in Hti'.
  cbn [isNew doc] in *. rewrite orb_true_r in Hsl.
  destruct Hsl as (t & Ht' & ->).
  destruct Hda as (s & r & Hs & Hr & ->).
  destruct Hti' as (s' & r' & Hs' & Hr' & ->).
  rewrite normalizeDate_value in Hr.
  destruct (dateParse host s) as [tm|] eqn:Ep; [|discriminate].
  assert (Er : isoDate (utcDate tm) = r) by congruence. subst r. clear Hr.
  pose proof (normalizeTime_result_shape _ Hr') as Hshape.
  rewrite E. cbn [title slug date time withTime withDate withSlug].
  split; [|split; [|split]].
  - apply validateEvent_kept;
      [exact Ev | apply isoDate_nonempty | exact (@isHHMM_nonempty _ Hshape)].
  - exists t. rewrite slugSetter_slug.
    split; [exact Ht'|]. split; [congruence | reflexivity].
  - exists s, tm. auto.
  - exists r'. auto.
Qed.

(** X12.  Event.create is atomic on the collections: when it throws
    (the cast, a validator, a normalisation or the unique index), the
    Event collection, the Booking collection and the assets are as they
    were; when it returns, the document it returns is the one document
    that has been appended to the Event collection, and the bookings and
    the assets are as they were. *)
Theorem Event_create_atomic (host : Host) (c : exc IEvent) (w : world) :
  match Event_create host c w with
  | (Throw _, w') =>
      events w' = events w /\ bookings w' = bookings w
      /\ assets w' = assets w
  | (Return d, w') =>
      events w' = events w ++ [d] /\ bookings w' = bookings w
      /\ assets w' = assets w
  end.
Proof.
  pose proof (Event_create_spec host c w) as S.
  destruct (Event_create host c w) as [[d|e] w'].
  - destruct S as (-> & _). cbn. repeat split; reflexivity.
  - rewrite S. cbn. repeat split; reflexivity.
Qed.

(** X13.  What Event.create stores is in canonical form, whatever the
    caller has sent: the stored event passes the validators of the
    schema, its title is not empty, its slug is generateSlug of the
    stored title (a slug sent by the caller is overwritten), its date is
    the UTC calendar date that the host read, and its time has the form
    HH:MM of the 24-hour clock. *)
Theorem Event_create_stores_canonical (host : Host) (c : exc IEvent)
        (w w' : world) (d : stored IEvent) :
  Event_create host c w = (Return d, w') ->
  validateEvent (fields d) = []
  /\ (exists t, title (fields d) = Some t /\ t <> []
                /\ slug (fields d) = Some (generateSlug t))
  /\ (exists s t, dateParse host s = Some t
                  /\ date (fields d) = Some (isoDate (utcDate t)))
  /\ (exists r, time (fields d) = Some r /\ isHHMM r = true).
Proof. apply Event_create_stored. Qed.

Lemma Event_create_stores_canonical_witness :
  validateEvent
    (fields (Stored 1%N (withTime (Some (js "14:30"))
                         (withDate (Some (js "2024-03-05"))
                            (withSlug (Some (js "launch-day"))
                               (Scenario.fieldsOf (js "Launch day")))))
                    1%N 1%N)) = [].
Proof.
  refine (proj1 (@Event_create_stores_canonical (Node.host 0 Node.accepts)
                   (Return (Scenario.fieldsOf (js "Launch day")))
                   Scenario.empty Scenario.oneEvent _ _)).
  vm_compute. reflexivity.
Defined.

(** X14.  Event.create never stores a second event under a slug that is
    taken: when an event of the store has the slug that generateSlug
    gives to the trimmed title of the input, the call throws and the
    store is left as it was. *)
Theorem Event_create_refuses_taken_slug (host : Host) (input : IEvent)
        (w : world) (x : stored IEvent) (t : jsstring) :
  In x (events w) -> title input = Some t ->
  slug (fields x) = Some (generateSlug (trim t)) ->
  exists e, Event_create host (Return input) w
            = (Throw e, logged w [EventSaveCalled]).
Proof.
  intros Hin Ht Hx.
  pose proof (Event_create_spec host (Return input) w) as S.
  destruct (Event_create host (Return input) w) as [[d|e] w'] eqn:E.
  - exfalso. destruct S as (_ & _ & input' & Ei & _ & Eh & Ex).
    injection Ei as <-.
    destruct (Event_create_stored _ _ _ E) as (_ & (t' & Ht' & _ & Hs) & _).
    apply eventPreSave_steps in Eh.
    destruct Eh as (sl & da & ti & Ed & _). rewrite Ed in Ht'.
    cbn [doc title withTime withDate withSlug eventSetters] in Ht'.
    rewrite Ht in Ht'. cbn [option_map] in Ht'. injection Ht' as <-.
    assert (Hf : existsb (fun y => sameSlug (slug (fields y)) (slug (fields d)))
                         (events w) = true).
    { apply existsb_exists. exists x. split; [exact Hin|].
      apply sameSlug_eq. congruence. }
    congruence.
  - exists e. rewrite S. reflexivity.
Qed.

Lemma Event_create_refuses_taken_slug_witness :
  exists e, Event_create (Node.host 0 Node.accepts)
              (Return (Scenario.fieldsOf (js "  LAUNCH   day! ")))
              Scenario.oneEvent
            = (Throw e, logged Scenario.oneEvent [EventSaveCalled]).
Proof.
  refine (@Event_create_refuses_taken_slug (Node.host 0 Node.accepts)
            (Scenario.fieldsOf (js "  LAUNCH   day! ")) Scenario.oneEvent
            (Stored 1%N (withTime (Some (js "14:30"))
                         (withDate (Some (js "2024-03-05"))
                            (withSlug (Some (js "launch-day"))
                               (Scenario.fieldsOf (js "Launch day")))))
                    1%N 1%N)
            (js "  LAUNCH   day! ") _ eq_refl _).
  - vm_compute. left. reflexivity.
  - vm_compute. reflexivity.
Defined.

(** ** booking.model.ts: Booking.create *)

Lemma validateBooking_email (host : Host) (input : BookingInput) :
  validateBooking host input = [] ->
  test emailRegex (emailSetter (emailArg input)) = true.
Proof.
  unfold validateBooking. intro H. apply app_eq_nil in H. destruct H as [_ H].
  destruct (required _ _ _); [|discriminate].
  destruct (test emailRegex _); [reflexivity | discriminate].
Qed.

(** The booking of the same event and address that the unique index
    finds. *)
Lemma duplicate_found (b : IBooking) (l : list (stored IBooking)) :
  existsb (fun d => N.eqb (eventId (fields d)) (eventId b)
                    && eqs (email (fields d)) (email b)) l = true
  <-> exists x, In x l /\ eventId (fields x) = eventId b
                /\ email (fields x) = email b.
Proof.
  rewrite existsb_exists. split; intros (x & Hin & H); exists x;
    (split; [exact Hin|]).
  - apply andb_prop in H. destruct H as [H1 H2].
    apply N.eqb_eq in H1. apply eqs_eq in H2. auto.
  - destruct H as [H1 H2]. apply andb_true_intro.
    split; [apply N.eqb_eq | apply eqs_eq]; assumption.
Qed.

(** Booking.create, step by step. *)
Lemma Booking_create_spec (host : Host) (input : BookingInput) (w : world) :
  match Booking_create host input w with
  | (Return d, w') =>
      exists id,
        castObjectId host (eventIdArg input) = Some id
        /\ validateBooking host input = []
        /\ eventExists id w = true
        /\ d = Stored (clock w) (mkBooking id (emailSetter (emailArg input)))
                      (clock w) (clock w)
        /\ existsb (fun x => N.eqb (eventId (fields x)) id
                             && eqs (email (fields x))
                                    (emailSetter (emailArg input)))
                   (bookings w) = false
        /\ w' = World (events w) (bookings w ++ [d]) (assets w)
                      (N.succ (clock w))
                      (trace w ++ [BookingSaveCalled; EventLookup id;
                                   BookingInserted (clock w)])
  | (Throw e, w') =>
      exists tr, w' = logged w (BookingSaveCalled :: tr)
                 /\ (tr = [] \/ exists id, tr = [EventLookup id])
  end.
Proof.
  cbv beta iota delta [Booking_create bind emit throw].
  destruct (validateBooking host input) as [|f fs] eqn:Ev.
  2: { exists []. split; [reflexivity | left; reflexivity]. }
  destruct (castObjectId host (eventIdArg input)) as [id|] eqn:Ec.
  2: { exists []. split; [reflexivity | left; reflexivity]. }
  cbv beta iota zeta. rewrite bookingPreSave_checked by (left; reflexivity).
  cbn [doc eventId]. unfold eventExists, logged.
  cbn [events bookings assets clock trace].
  destruct (existsb _ (events w)) eqn:Ex.
  - unfold insertBooking. cbn [events bookings assets clock trace eventId email].
    destruct (existsb _ (bookings w)) eqn:Ed.
    + exists [EventLookup id]. rewrite <- app_assoc.
      split; [reflexivity | right; exists id; reflexivity].
    + exists id. rewrite <- !app_assoc. repeat split; try reflexivity; assumption.
  - exists [EventLookup id]. rewrite <- app_assoc.
    split; [reflexivity | right; exists id; reflexivity].
Qed.

(** X15.  Booking.create is atomic on the store: when it throws, the
    collections, the assets and the clock are as they were; when it
    returns, exactly one booking has been appended, with the clock's
    value as its identifier, and nothing else has changed. *)
Theorem Booking_create_atomic (host : Host) (input : BookingInput) (w : world) :
  match Booking_create host input w with
  | (Throw _, w') =>
      events w' = events w /\ bookings w' = bookings w
      /\ assets w' = assets w /\ clock w' = clock w
  | (Return d, w') =>
      events w' = events w /\ bookings w' = bookings w ++ [d]
      /\ assets w' = assets w /\ clock w' = N.succ (clock w)
      /\ _id d = clock w
  end.
Proof.
  pose proof (Booking_create_spec host input w) as S.
  destruct (Booking_create host input w) as [[d|e] w'].
  - destruct S as (id & _ & _ & _ & -> & _ & ->). cbn. repeat split; reflexivity.
  - destruct S as (tr & -> & _). cbn. repeat split; reflexivity.
Qed.

(** X16.  A booking that Booking.create has stored refers to an event of
    the store, and its address is the one sent, in lower case and
    trimmed, which the pattern of the validator describes: a local part,
    an at sign and labels joined by dots. *)
Theorem Booking_create_stores (host : Host) (input : BookingInput)
        (w w' : world) (d : stored IBooking) :
  Booking_create host input w = (Return d, w') ->
  castObjectId host (eventIdArg input) = Some (eventId (fields d))
  /\ (exists x, In x (events w) /\ _id x = eventId (fields d))
  /\ email (fields d) = emailSetter (emailArg input)
  /\ emailShape (email (fields d)).
Proof.
  intro H. pose proof (Booking_create_spec host input w) as S. rewrite H in S.
  destruct S as (id & Ec & Ev & Ex & -> & _ & _). cbn [fields eventId email].
  split; [exact Ec|]. split; [|split; [reflexivity|]].
  - unfold eventExists in Ex. apply existsb_exists in Ex.
    destruct Ex as (x & Hin & Hx). exists x. apply N.eqb_eq in Hx. auto.
  - apply test_emailRegex. exact (validateBooking_email _ _ Ev).
Qed.

Lemma Booking_create_stores_witness :
  emailShape (email (fields (Stored 2%N (mkBooking 1%N (js "ada@example.org"))
                                    2%N 2%N))).
Proof.
  refine (proj2 (proj2 (proj2
    (@Booking_create_stores (Node.host 0 Node.accepts)
       (Scenario.booking (js "000000000000000000000001"))
       Scenario.oneEvent
       (snd (Booking_create (Node.host 0 Node.accepts)
               (Scenario.booking (js "000000000000000000000001"))
               Scenario.oneEvent))
       _ _)))).
  vm_compute. reflexivity.
Defined.

(** X17.  One booking per event and address: when the store holds a
    booking of the same event whose address is the one sent, in lower
    case and trimmed, Booking.create throws and stores nothing.  So two
    addresses that differ in the case of their letters or in white space
    around them count as one. *)
Theorem Booking_create_refuses_duplicate (host : Host) (input : BookingInput)
        (w : world) (b : stored IBooking) :
  In b (bookings w) ->
  castObjectId host (eventIdArg input) = Some (eventId (fields b)) ->
  emailSetter (emailArg input) = email (fields b) ->
  exists e w', Booking_create host input w = (Throw e, w')
               /\ bookings w' = bookings w /\ events w' = events w
               /\ clock w' = clock w.
Proof.
  intros Hin Hid Hem.
  pose proof (Booking_create_spec host input w) as S.
  destruct (Booking_create host input w) as [[d|e] w'].
  - exfalso. destruct S as (id & Ec & _ & _ & _ & Ed & _).
    rewrite Hid in Ec. injection Ec as <-.
    assert (Hd : existsb (fun x => N.eqb (eventId (fields x))
                                         (eventId (fields b))
                                   && eqs (email (fields x))
                                          (emailSetter (emailArg input)))
                         (bookings w) = true).
    { apply existsb_exists. exists b. split; [exact Hin|].
      rewrite N.eqb_refl. apply eqs_eq. symmetry. exact Hem. }
    congruence.
  - destruct S as (tr & -> & _). exists e, (logged w (BookingSaveCalled :: tr)).
    cbn. repeat split; reflexivity.
Qed.

Lemma Booking_create_refuses_duplicate_witness :
  exists e w',
    Booking_create (Node.host 0 Node.accepts)
      {| eventIdArg := js "000000000000000000000001"; slugArg := js "launch-day";
         emailArg := js "ADA@example.ORG" |}
      (snd (Booking_create (Node.host 0 Node.accepts)
              (Scenario.booking (js "000000000000000000000001"))
              Scenario.oneEvent))
    = (Throw e, w')
    /\ bookings w'
       = bookings (snd (Booking_create (Node.host 0 Node.accepts)
                          (Scenario.booking (js "000000000000000000000001"))
                          Scenario.oneEvent))
    /\ events w'
       = events (snd (Booking_create (Node.host 0 Node.accepts)
                        (Scenario.booking (js "000000000000000000000001"))
                        Scenario.oneEvent))
    /\ clock w'
       = clock (snd (Booking_create (Node.host 0 Node.accepts)
                       (Scenario.booking (js "000000000000000000000001"))
                       Scenario.oneEvent)).
Proof.
  refine (@Booking_create_refuses_duplicate (Node.host 0 Node.accepts) _ _
            (Stored 2%N (mkBooking 1%N (js "ada@example.org")) 2%N 2%N)
            _ _ _).
  - vm_compute. left. reflexivity.
  - vm_compute. reflexivity.
  - vm_compute. reflexivity.
Defined.

(** ** The handlers, run by run *)

Lemma GET_run (host : Host) (finding : exc unit) (w : world) :
  GET host finding w =
  (Return match connecting host, finding with
          | Return _, Return _ => fetched (sortLatestFirst (events w))
          | Throw e, _ => fetchingFailed e
          | Return _, Throw e => fetchingFailed e
          end,
   logged w [Connected]).
Proof.
  cbv beta iota delta [GET tryCatch bind connectDB emit lift ret logged
                       Event_find_sorted].
  cbn [events bookings assets clock trace].
  destruct (connecting host) as [[]|e]; [|reflexivity].
  destruct finding as [[]|e]; reflexivity.
Qed.

Opaque Booking_create.

Lemma createBooking_earlier_run (host : Host) (eventId email : jsstring)
      (w : world) :
  Earlier.createBooking host eventId email w =
  match connecting host with
  | Throw e => (Return {| Earlier.success := false |},
                logged w [Connected; ConsoleError])
  | Return _ =>
      match Booking_create host
              {| eventIdArg := eventId; slugArg := emptyString;
                 emailArg := email |} (logged w [Connected]) with
      | (Return d, w') => (Return {| Earlier.success := true |}, w')
      | (Throw e, w') => (Return {| Earlier.success := false |},
                          logged w' [ConsoleError])
      end
  end.
Proof.
  cbv beta iota delta [Earlier.createBooking tryCatch bind connectDB emit lift
                       ret logged].
  cbn [events bookings assets clock trace].
  destruct (connecting host) as [[]|e].
  - destruct (Booking_create host _ _) as [[d|e] w']; reflexivity.
  - cbn [events bookings assets clock trace]. rewrite <- app_assoc. reflexivity.
Qed.

Transparent Booking_create.

(** POST either answers before Event.create is reached, the store as it
    was, or hands the object of the form to Event.create. *)
Lemma POST_run (host : Host) (req : NextRequest) (w : world) :
  (exists resp tr,
      POST host req w = (Return resp, logged w tr)
      /\ (status resp = 400%N \/ status resp = 500%N)
      /\ ~ In (UploadSettled true) tr)
  \/ (exists fd tags agenda buffer r,
         connecting host = Return tt /\ formData req = Return fd
         /\ falsy (get "image" fd) = false
         /\ prepared host fd = Return (tags, agenda, buffer)
         /\ uploading host buffer = Return r
         /\ POST host req w
            = match Event_create host (eventObject host fd tags agenda r)
                                 (uploaded w buffer) with
              | (Return d, w') => (Return (created d), w')
              | (Throw e, w') => (Return (failed e), logged w' [ConsoleError])
              end).
Proof.
  destruct (connecting host) as [[]|e] eqn:H1.
  2: { left. rewrite (@POST_connect_failed host req w e H1).
       eexists. eexists. split; [reflexivity|]. split; [right; reflexivity|].
       intro Hin. absent Hin. }
  destruct (formData req) as [fd|e] eqn:H2.
  2: { left. rewrite (@POST_form_failed host req w e H1 H2).
       eexists. eexists. split; [reflexivity|]. split; [right; reflexivity|].
       intro Hin. absent Hin. }
  destruct (falsy (get "image" fd)) eqn:H3.
  { left. rewrite (@POST_missing_image host req w fd H1 H2 H3).
    eexists. eexists. split; [reflexivity|]. split; [left; reflexivity|].
    intro Hin. absent Hin. }
  destruct (prepared host fd) as [[[tags agenda] buffer]|e] eqn:H4.
  2: { left. rewrite (@POST_not_prepared host req w fd e H1 H2 H3 H4).
       eexists. eexists. split; [reflexivity|]. split; [right; reflexivity|].
       intro Hin. absent Hin. }
  destruct (uploading host buffer) as [res|e] eqn:H5.
  2: { left.
       rewrite (@POST_upload_failed host req w fd tags agenda buffer e
                  H1 H2 H3 H4 H5).
       eexists. eexists. split; [reflexivity|]. split; [right; reflexivity|].
       intro Hin. absent Hin. }
  right. exists fd, tags, agenda, buffer, res.
  repeat (split; [reflexivity || assumption|]).
  apply POST_uploaded; assumption.
Qed.

(** ** The store under the requests *)

Lemma store_logged (w : world) (tr : list effect) : store (logged w tr) = store w.
Proof. reflexivity. Qed.

Lemma POST_storeStep (host : Host) (req : NextRequest) (w : world) :
  storeStep w (snd (POST host req w)).
Proof.
  destruct (POST_run host req w)
    as [(resp & tr & -> & _)
       |(fd & tags & agenda & buffer & r & _ & _ & _ & _ & _ & ->)].
  - apply Unchanged. reflexivity.
  - pose proof (Event_create_spec host (eventObject host fd tags agenda r)
                  (uploaded w buffer)) as S.
    destruct (Event_create host _ _) as [[d|e] w'] eqn:E.
    + apply (EventStored (w' := w') host (eventObject host fd tags agenda r)
               (w0 := uploaded w buffer) (w1 := w') (d := d));
        [reflexivity | exact E | reflexivity].
    + apply Unchanged. cbn [snd]. rewrite S. reflexivity.
Qed.

Lemma Booking_storeStep (host : Host) (input : BookingInput) (w0 w : world) :
  store w0 = store w ->
  match Booking_create host input w0 with
  | (Return _, w') => storeStep w w'
  | (Throw _, w') => store w' = store w
  end.
Proof.
  intro Hs. pose proof (Booking_create_spec host input w0) as S.
  destruct (Booking_create host input w0) as [[d|e] w'] eqn:E.
  - exact (BookingStored host input (w0 := w0) (w1 := w') (d := d)
             Hs E eq_refl).
  - destruct S as (tr & -> & _). exact Hs.
Qed.

Lemma createBooking_storeStep (host : Host) (input : BookingInput) (w : world) :
  storeStep w (snd (createBooking host input w)).
Proof.
  rewrite createBooking_run.
  destruct (connecting host) as [[]|e]; [|apply Unchanged; reflexivity].
  pose proof (@Booking_storeStep host input (logged w [Connected]) w eq_refl)
    as S.
  destruct (Booking_create host input _) as [[d|e] w'].
  - unfold Document_lean. cbn [snd].
    destruct S as [S|h c w0 w1 d0 H0 H1 H2|h i w0 w1 d0 H0 H1 H2].
    + apply Unchanged. exact S.
    + exact (EventStored (w' := logged w' [ConsoleError]) h c
               (w0 := w0) (w1 := w1) (d := d0) H0 H1 H2).
    + exact (BookingStored (w' := logged w' [ConsoleError]) h i
               (w0 := w0) (w1 := w1) (d := d0) H0 H1 H2).
  - apply Unchanged. exact S.
Qed.

Lemma createBooking_earlier_storeStep (host : Host) (eventId email : jsstring)
      (w : world) :
  storeStep w (snd (Earlier.createBooking host eventId email w)).
Proof.
  rewrite createBooking_earlier_run.
  destruct (connecting host) as [[]|e]; [|apply Unchanged; reflexivity].
  pose proof (@Booking_storeStep host
                {| eventIdArg := eventId; slugArg := emptyString;
                   emailArg := email |} (logged w [Connected]) w eq_refl) as S.
  destruct (Booking_create host _ _) as [[d|e] w'].
  - exact S.
  - apply Unchanged. exact S.
Qed.

Lemma serve_storeStep (hr : Host * request) (w : world) :
  storeStep w (serve hr w).
Proof.
  destruct hr as [host [req|finding|input|eventId email]]; unfold serve;
    cbn [fst snd].
  - apply POST_storeStep.
  - rewrite GET_run. apply Unchanged. reflexivity.
  - apply createBooking_storeStep.
  - apply createBooking_earlier_storeStep.
Qed.

(** ** What holds of every store *)

Lemma NoDup_snoc (A : Type) (l : list A) (x : A) :
  NoDup l -> ~ In x l -> NoDup (l ++ [x]).
Proof.
  induction 1 as [|a l Ha Hl IH]; cbn [app]; intro Hx.
  - constructor; [intros []|constructor].
  - constructor.
    + intro Hin. apply in_app_or in Hin. destruct Hin as [Hin|[E|[]]].
      * contradiction.
      * subst. apply Hx. left. reflexivity.
    + apply IH. intro Hin. apply Hx. right. exact Hin.
Qed.

Lemma wellFormed_store (w w' : world) :
  store w = store w' -> wellFormed w -> wellFormed w'.
Proof.
  unfold store. intros E W. injection E as E1 E2 E3. destruct W.
  constructor; unfold eventExists in *; rewrite <- ?E1, <- ?E2, <- ?E3;
    assumption.
Qed.

Lemma wellFormed_initial : wellFormed initial.
Proof.
  constructor; cbn; try (intros ? []); constructor.
Qed.

Lemma wellFormed_event (host : Host) (c : exc IEvent) (w w' : world)
      (d : stored IEvent) :
  wellFormed w -> Event_create host c w = (Return d, w') -> wellFormed w'.
Proof.
  intros W H. pose proof (Event_create_spec host c w) as S. rewrite H in S.
  destruct S as (-> & Ed & input & _ & _ & _ & Ex).
  destruct (Event_create_stored _ _ _ H) as (Hv & Ht & (s & tm & _ & Hd) & Hr).
  assert (Hid : _id d = clock w) by (rewrite Ed; reflexivity).
  destruct W as [eventIds0 Wslug Wbk references0 eventsCanonical0
                 emailsValid0].
  constructor; cbn [events bookings clock]; unfold eventExists;
    cbn [events bookings clock].
  - intros x Hx. apply in_app_or in Hx. destruct Hx as [Hx|[<-|[]]].
    + specialize (eventIds0 x Hx). lia.
    + lia.
  - rewrite map_app. apply NoDup_snoc; [assumption|].
    intro Hin. apply in_map_iff in Hin. destruct Hin as (x & E & Hx).
    assert (Hf : existsb (fun y => sameSlug (slug (fields y)) (slug (fields d)))
                         (events w) = true).
    { apply existsb_exists. exists x. split; [exact Hx|].
      apply sameSlug_eq. exact E. }
    congruence.
  - assumption.
  - intros b Hb. rewrite existsb_app. specialize (references0 b Hb).
    unfold eventExists in references0. rewrite references0. reflexivity.
  - intros x Hx. apply in_app_or in Hx. destruct Hx as [Hx|[<-|[]]].
    + apply eventsCanonical0. exact Hx.
    + split; [exact Hv|]. split; [exact Ht|]. split; [|exact Hr].
      exists tm. exact Hd.
  - assumption.
Qed.

Lemma wellFormed_booking (host : Host) (input : BookingInput) (w w' : world)
      (d : stored IBooking) :
  wellFormed w -> Booking_create host input w = (Return d, w') ->
  wellFormed w'.
Proof.
  intros W H. pose proof (Booking_create_spec host input w) as S.
  rewrite H in S. destruct S as (id & _ & Ev & Ex & -> & Ed & ->).
  destruct W as [eventIds0 Wslug Wbk references0 eventsCanonical0
                 emailsValid0].
  constructor; cbn [events bookings clock]; unfold eventExists;
    cbn [events bookings clock].
  - intros x Hx. specialize (eventIds0 x Hx). lia.
  - assumption.
  - rewrite map_app. apply NoDup_snoc; [assumption|].
    intro Hin. apply in_map_iff in Hin. destruct Hin as (x & E & Hx).
    unfold bookingKey in E. cbn [fields eventId email] in E.
    injection E as E1 E2.
    assert (Hf : existsb (fun y => N.eqb (eventId (fields y)) id
                                   && eqs (email (fields y))
                                          (emailSetter (emailArg input)))
                         (bookings w) = true).
    { apply existsb_exists. exists x. split; [exact Hx|].
      rewrite E1, N.eqb_refl. apply eqs_eq. exact E2. }
    congruence.
  - intros b Hb. apply in_app_or in Hb. destruct Hb as [Hb|[<-|[]]].
    + apply references0. exact Hb.
    + exact Ex.
  - assumption.
  - intros b Hb. apply in_app_or in Hb. destruct Hb as [Hb|[<-|[]]].
    + apply emailsValid0. exact Hb.
    + cbn [fields email]. apply test_emailRegex.
      exact (validateBooking_email _ _ Ev).
Qed.

Lemma wellFormed_step (w w' : world) :
  wellFormed w -> storeStep w w' -> wellFormed w'.
Proof.
  intros W [S|h c w0 w1 d H0 H1 H2|h i w0 w1 d H0 H1 H2].
  - exact (wellFormed_store (eq_sym S) W).
  - apply (wellFormed_store (eq_sym H2)).
    exact (@wellFormed_event h c w0 w1 d (wellFormed_store (eq_sym H0) W) H1).
  - apply (wellFormed_store (eq_sym H2)).
    exact (@wellFormed_booking h i w0 w1 d (wellFormed_store (eq_sym H0) W) H1).
Qed.

Lemma wellFormed_after (rs : list (Host * request)) :
  forall w, wellFormed w -> wellFormed (after rs w).
Proof.
  unfold after. induction rs as [|hr rs IH]; intros w W; [exact W|].
  cbn [fold_left]. apply IH. exact (wellFormed_step W (serve_storeStep hr w)).
Qed.

Lemma reachable_wellFormed (rs : list (Host * request)) :
  wellFormed (after rs initial).
Proof. apply wellFormed_after, wellFormed_initial. Qed.

(** ** The store that the requests build *)

Lemma insertLatestFirst_perm (d : stored IEvent) (l : list (stored IEvent)) :
  Permutation (insertLatestFirst d l) (d :: l).
Proof.
  induction l as [|x t IH]; cbn [insertLatestFirst]; [apply Permutation_refl|].
  destruct (N.ltb (createdAt d) (createdAt x)); [|apply Permutation_refl].
  apply Permutation_trans with (x :: d :: t);
    [apply perm_skip; exact IH | apply perm_swap].
Qed.

Lemma sortLatestFirst_perm (l : list (stored IEvent)) :
  Permutation (sortLatestFirst l) l.
Proof.
  induction l as [|x t IH]; [apply Permutation_refl|].
  cbn [sortLatestFirst fold_right]. fold (sortLatestFirst t).
  apply Permutation_trans with (x :: sortLatestFirst t);
    [apply insertLatestFirst_perm | apply perm_skip; exact IH].
Qed.

Lemma insertLatestFirst_sorted (d : stored IEvent) :
  forall l : list (stored IEvent),
    latestFirst l -> latestFirst (insertLatestFirst d l).
Proof.
  induction l as [|x t IH]; cbn [insertLatestFirst latestFirst]; intro H.
  - split; [intros b []|exact I].
  - destruct H as [Hx Ht].
    destruct (N.ltb_spec (createdAt d) (createdAt x)) as [Hlt|Hge];
      cbn [latestFirst].
    + split; [|exact (IH Ht)]. intros b Hb.
      apply (Permutation_in _ (insertLatestFirst_perm d t)) in Hb.
      destruct Hb as [<-|Hb]; [lia | exact (Hx b Hb)].
    + split; [|split; assumption]. intros b [<-|Hb]; [exact Hge|].
      specialize (Hx b Hb). lia.
Qed.

Lemma sortLatestFirst_sorted (l : list (stored IEvent)) :
  latestFirst (sortLatestFirst l).
Proof.
  induction l as [|x t IH]; [exact I|].
  cbn [sortLatestFirst fold_right]. fold (sortLatestFirst t).
  apply insertLatestFirst_sorted. exact IH.
Qed.

(** A document later than all the others is listed first. *)
Lemma sortLatestFirst_latest (d : stored IEvent) :
  forall l : list (stored IEvent),
    (forall x, In x l -> (createdAt x < createdAt d)%N) ->
    sortLatestFirst (l ++ [d]) = d :: sortLatestFirst l.
Proof.
  induction l as [|x t IH]; intro H; [reflexivity|].
  cbn [app sortLatestFirst fold_right]. fold (sortLatestFirst (t ++ [d])).
  fold (sortLatestFirst t).
  rewrite IH by (intros y Hy; apply H; right; exact Hy).
  cbn [insertLatestFirst].
  destruct (N.ltb_spec (createdAt x) (createdAt d)) as [_|Hge];
    [reflexivity|].
  specialize (H x (or_introl eq_refl)). lia.
Qed.

(** X18.  In every store that requests have built from an empty
    database, no two events have the same slug, and no two bookings have
    the same event and address: the two unique indexes of the schemas
    hold of every store, whatever the requests were and however the
    hosts answered. *)
Theorem store_keys_unique (rs : list (Host * request)) :
  NoDup (map slugKey (events (after rs initial)))
  /\ NoDup (map bookingKey (bookings (after rs initial))).
Proof.
  pose proof (reachable_wellFormed rs) as W.
  split; [exact (slugsUnique W) | exact (bookingsUnique W)].
Qed.

(** X19.  In every store that requests have built from an empty
    database, each booking refers to an event of the store: the code has
    no request that stores a booking of an event that does not exist, and
    none that removes an event. *)
Theorem bookings_refer_to_events (rs : list (Host * request))
        (b : stored IBooking) :
  In b (bookings (after rs initial)) ->
  exists x, In x (events (after rs initial)) /\ _id x = eventId (fields b).
Proof.
  intro Hb. pose proof (references (reachable_wellFormed rs) b Hb) as H.
  unfold eventExists in H. apply existsb_exists in H.
  destruct H as (x & Hx & E). exists x. apply N.eqb_eq in E. auto.
Qed.

Lemma bookings_refer_to_events_witness :
  exists x, In x (events (after session initial))
            /\ _id x = eventId (fields adasBooking).
Proof.
  apply (@bookings_refer_to_events session adasBooking).
  vm_compute. left. reflexivity.
Defined.

(** X20.  In every store that requests have built from an empty
    database, each event passes the validators of the schema, has a title
    that is not empty, the slug that generateSlug gives its title, a date
    that is the UTC calendar date of an instant, and a time in the form
    HH:MM. *)
Theorem stored_events_canonical (rs : list (Host * request))
        (d : stored IEvent) :
  In d (events (after rs initial)) -> canonicalEvent (fields d).
Proof. exact (eventsCanonical (reachable_wellFormed rs) d). Qed.

Lemma stored_events_canonical_witness : canonicalEvent (fields launchDay).
Proof.
  apply (@stored_events_canonical session launchDay).
  vm_compute. left. reflexivity.
Defined.

(** X21.  In every store that requests have built from an empty
    database, each booking carries an address that the pattern of the
    validator describes. *)
Theorem stored_bookings_valid (rs : list (Host * request))
        (b : stored IBooking) :
  In b (bookings (after rs initial)) -> emailShape (email (fields b)).
Proof. exact (emailsValid (reachable_wellFormed rs) b). Qed.

Lemma stored_bookings_valid_witness : emailShape (email (fields adasBooking)).
Proof.
  apply (@stored_bookings_valid session adasBooking).
  vm_compute. left. reflexivity.
Defined.

(** X22.  GET never throws and changes nothing in the store, whatever
    the store holds: it records the connection and nothing else.  When
    connectDB or the query rejects, it answers 500 with the value that
    was thrown; otherwise it answers 200 with the events of the
    collection, each of them once, none of them later than one listed
    before it. *)
Theorem GET_lists_latest_first (host : Host) (finding : exc unit) (w : world) :
  exists resp,
    GET host finding w = (Return resp, logged w [Connected])
    /\ match connecting host, finding with
       | Throw e, _ => resp = fetchingFailed e
       | Return _, Throw e => resp = fetchingFailed e
       | Return _, Return _ =>
           exists found,
             resp = fetched found /\ Permutation found (events w)
             /\ latestFirst found
       end.
Proof.
  rewrite GET_run. eexists. split; [reflexivity|].
  destruct (connecting host) as [[]|e]; [|reflexivity].
  destruct finding as [[]|e]; [|reflexivity].
  exists (sortLatestFirst (events w)).
  split; [reflexivity|].
  split; [apply sortLatestFirst_perm | apply sortLatestFirst_sorted].
Qed.

(** X23.  An event that POST has created, when its time stamp is later
    than that of every event stored before, is the first of the list that
    the next GET answers with; the events stored before follow it, each
    once, none later than one listed before it. *)
Theorem POST_then_GET (host host' : Host) (req : NextRequest) (w : world)
        (d : stored IEvent) :
  fst (POST host req w) = Return (created d) ->
  (forall x, In x (events w) -> (createdAt x < createdAt d)%N) ->
  connecting host' = Return tt ->
  exists others,
    fst (GET host' (Return tt) (snd (POST host req w)))
    = Return (fetched (d :: others))
    /\ Permutation others (events w) /\ latestFirst others.
Proof.
  intros Hp Hd Hc. rewrite GET_run, Hc. cbn [fst].
  exists (sortLatestFirst (events w)).
  split; [|split; [apply sortLatestFirst_perm | apply sortLatestFirst_sorted]].
  destruct (POST_run host req w)
    as [(resp & tr & E & Hs & _)
       |(fd & jt & ja & buffer & r & _ & _ & _ & _ & _ & E)];
    rewrite E in Hp |- *.
  - cbn [fst] in Hp. injection Hp as ->. cbn in Hs.
    destruct Hs; discriminate.
  - pose proof (Event_create_spec host (eventObject host fd jt ja r)
                  (uploaded w buffer)) as S.
    destruct (Event_create host _ _) as [[d'|e] w']; [|discriminate].
    cbn [fst snd] in Hp |- *. injection Hp as ->.
    destruct S as (-> & _). cbn [events uploaded].
    rewrite (sortLatestFirst_latest d (events w) Hd). reflexivity.
Qed.

Lemma POST_then_GET_witness :
  exists others,
    fst (GET node (Return tt)
           (snd (POST node helloRequest
                   (after [(node, Post launchRequest)] initial))))
    = Return (fetched (helloWorld :: others))
    /\ Permutation others (events (after [(node, Post launchRequest)] initial))
    /\ latestFirst others.
Proof.
  apply (@POST_then_GET node node helloRequest
           (after [(node, Post launchRequest)] initial) helloWorld).
  - vm_compute. reflexivity.
  - intros x Hx. vm_compute in Hx. destruct Hx as [<-|[]]. vm_compute.
    reflexivity.
  - reflexivity.
Defined.

(** ** POST, the form and the image host *)

Lemma eqs_refl (a : jsstring) : eqs a a = true.
Proof. apply eqs_eq. reflexivity. Qed.

Lemma getProp_setProp (key key' : jsstring) (v : value) (o : object) :
  getProp key' (setProp key v o)
  = if eqs key key' then Some v else getProp key' o.
Proof.
  induction o as [|[k x] t IH]; cbn [setProp getProp]; [reflexivity|].
  destruct (eqs k key) eqn:E1.
  - apply eqs_eq in E1. subst k. cbn [getProp].
    destruct (eqs key key'); reflexivity.
  - cbn [getProp]. destruct (eqs k key') eqn:E2; [|exact IH].
    apply eqs_eq in E2. subst k.
    destruct (eqs key key') eqn:E3; [|reflexivity].
    apply eqs_eq in E3. subst key'. rewrite eqs_refl in E1. discriminate.
Qed.

(** What new Event(o) reads from the object. *)
Lemma castEvent_inv (host : Host) (o : object) (e : IEvent) :
  castEvent host o = Return e ->
  castString "image" o = Return (image e)
  /\ castArray host "agenda" o = Return (agenda e)
  /\ castArray host "tags" o = Return (tags e).
Proof.
  unfold castEvent. intro H.
  repeat (apply andThen_Return in H; destruct H as (? & ? & H)).
  injection H as <-. cbn [image agenda tags]. auto.
Qed.

Lemma prepared_inv (host : Host) (fd : FormData) (tags agenda : json)
      (buffer : list N) :
  prepared host fd = Return (tags, agenda, buffer) ->
  jsonParse host (entryString (get "tags" fd)) = Return tags
  /\ jsonParse host (entryString (get "agenda" fd)) = Return agenda
  /\ arrayBuffer (get "image" fd) = Return buffer.
Proof.
  unfold prepared. intro H.
  repeat (apply andThen_Return in H; destruct H as (? & ? & H)).
  injection H as <- <- <-. auto.
Qed.

(** The event that Event.create makes of the object of POST. *)
Lemma eventObject_stored (host : Host) (fd : FormData) (jt ja : json)
      (r : UploadResult) (w w' : world) (d : stored IEvent) :
  Event_create host (eventObject host fd jt ja r) w = (Return d, w') ->
  image (fields d) = option_map trim (secure_url r)
  /\ castStrings host jt = Return (tags (fields d))
  /\ castStrings host ja = Return (agenda (fields d)).
Proof.
  intro H. pose proof (Event_create_spec host (eventObject host fd jt ja r) w)
    as S.
  rewrite H in S. destruct S as (_ & _ & input & Ei & _ & Eh & _).
  apply eventPreSave_steps in Eh.
  destruct Eh as (sl & da & ti & -> & _).
  cbn [doc image tags agenda withTime withDate withSlug eventSetters].
  clear H. unfold eventObject, fromEntries in Ei.
  apply castEvent_inv in Ei. destruct Ei as (Hi & Ha & Ht).
  unfold castString in Hi. unfold castArray in Ha, Ht.
  rewrite !getProp_setProp in Hi, Ha, Ht.
  change (eqs (js "agenda") (js "image")) with false in Hi.
  change (eqs (js "tags") (js "image")) with false in Hi.
  change (eqs (js "image") (js "image")) with true in Hi.
  change (eqs (js "agenda") (js "agenda")) with true in Ha.
  change (eqs (js "agenda") (js "tags")) with false in Ht.
  change (eqs (js "tags") (js "tags")) with true in Ht.
  cbv beta iota in Hi, Ha, Ht.
  split; [|split; assumption].
  destruct (secure_url r) as [u|]; cbn [ofOption] in Hi;
    injection Hi as <-; reflexivity.
Qed.

(** X24.  The event that POST has created takes its image from the image
    host and not from the form: the image is the URL that the upload of
    the file's bytes returned, trimmed; its tags and its agenda are what
    the fields of those names hold as JSON text. *)
Theorem POST_created_event (host : Host) (req : NextRequest) (w : world)
        (d : stored IEvent) :
  fst (POST host req w) = Return (created d) ->
  exists fd buffer r jt ja,
    formData req = Return fd
    /\ arrayBuffer (get "image" fd) = Return buffer
    /\ uploading host buffer = Return r
    /\ image (fields d) = option_map trim (secure_url r)
    /\ jsonParse host (entryString (get "tags" fd)) = Return jt
    /\ castStrings host jt = Return (tags (fields d))
    /\ jsonParse host (entryString (get "agenda" fd)) = Return ja
    /\ castStrings host ja = Return (agenda (fields d)).
Proof.
  intro Hp.
  destruct (POST_run host req w)
    as [(resp & tr & E & Hs & _)
       |(fd & jt & ja & buffer & r & _ & Hf & _ & Hprep & Hup & E)];
    rewrite E in Hp.
  - cbn [fst] in Hp. injection Hp as ->. cbn in Hs. destruct Hs; discriminate.
  - destruct (Event_create host _ _) as [[d'|e] w'] eqn:Ec; [|discriminate].
    cbn [fst] in Hp. injection Hp as ->.
    destruct (prepared_inv _ _ Hprep) as (Ht & Ha & Hb).
    destruct (eventObject_stored _ _ _ _ _ _ Ec) as (Hi & Hct & Hca).
    exists fd, buffer, r, jt, ja. repeat split; assumption.
Qed.

Lemma POST_created_event_witness :
  exists fd buffer r jt ja,
    formData launchRequest = Return fd
    /\ arrayBuffer (get "image" fd) = Return buffer
    /\ uploading node buffer = Return r
    /\ image (fields launchDay) = option_map trim (secure_url r)
    /\ jsonParse node (entryString (get "tags" fd)) = Return jt
    /\ castStrings node jt = Return (tags (fields launchDay))
    /\ jsonParse node (entryString (get "agenda" fd)) = Return ja
    /\ castStrings node ja = Return (agenda (fields launchDay)).
Proof.
  apply (@POST_created_event node launchRequest initial launchDay).
  vm_compute. reflexivity.
Defined.

(** X25.  POST does not take back an upload: when the image host has
    accepted the file and Event.create then throws, the answer is the
    failure, no event is stored, and the image host keeps the file. *)
Theorem POST_failed_save_keeps_upload (host : Host) (req : NextRequest)
        (w : world) (fd : FormData) (jt ja : json) (buffer : list N)
        (r : UploadResult) (e : error) :
  connecting host = Return tt -> formData req = Return fd ->
  falsy (get "image" fd) = false ->
  prepared host fd = Return (jt, ja, buffer) ->
  uploading host buffer = Return r ->
  fst (Event_create host (eventObject host fd jt ja r) (uploaded w buffer))
  = Throw e ->
  fst (POST host req w) = Return (failed e)
  /\ events (snd (POST host req w)) = events w
  /\ assets (snd (POST host req w)) = assets w ++ [buffer].
Proof.
  intros H1 H2 H3 H4 H5 H6.
  rewrite (@POST_uploaded host req w fd jt ja buffer r H1 H2 H3 H4 H5).
  pose proof (Event_create_spec host (eventObject host fd jt ja r)
                (uploaded w buffer)) as S.
  destruct (Event_create host _ _) as [[d|e'] w']; [discriminate|].
  cbn [fst] in H6. injection H6 as ->. rewrite S. cbn. auto.
Qed.

Lemma POST_failed_save_keeps_upload_witness :
  fst (POST node launchRequest (after [(node, Post launchRequest)] initial))
  = Return (failed (MongoServerError
                      (js "E11000 duplicate key error index: slug_1")))
  /\ events (snd (POST node launchRequest
                    (after [(node, Post launchRequest)] initial)))
     = events (after [(node, Post launchRequest)] initial)
  /\ assets (snd (POST node launchRequest
                    (after [(node, Post launchRequest)] initial)))
     = assets (after [(node, Post launchRequest)] initial)
       ++ [content Scenario.poster].
Proof.
  apply (@POST_failed_save_keeps_upload node launchRequest
           (after [(node, Post launchRequest)] initial)
           (Scenario.form "Launch day" Scenario.goodTags Scenario.withPoster)
           (JArray [JString (js "cloud"); JString (js "web")])
           (JArray [JString (js "Keynote")])
           (content Scenario.poster)
           {| secure_url :=
                Some (js "https://res.cloudinary.com/demo/image/upload/DevEvent/a.png") |}
           (MongoServerError (js "E11000 duplicate key error index: slug_1")));
    vm_compute; reflexivity.
Defined.

(** X26.  POST never throws, never touches the bookings, and its status
    tells what it did to the events: 201 when the event of the answer has
    been appended to the collection, 400 or 500 when the collection and
    the clock are as they were. *)
Theorem POST_status_tells_store (host : Host) (req : NextRequest) (w : world) :
  exists resp w',
    POST host req w = (Return resp, w')
    /\ bookings w' = bookings w
    /\ ((exists d, resp = created d /\ events w' = events w ++ [d]
                   /\ clock w' = N.succ (clock w))
        \/ ((status resp = 400%N \/ status resp = 500%N)
            /\ events w' = events w /\ clock w' = clock w)).
Proof.
  destruct (POST_run host req w)
    as [(resp & tr & E & Hs & _)
       |(fd & jt & ja & buffer & r & _ & _ & _ & _ & _ & E)];
    rewrite E.
  - exists resp, (logged w tr). split; [reflexivity|]. split; [reflexivity|].
    right. auto.
  - pose proof (Event_create_spec host (eventObject host fd jt ja r)
                  (uploaded w buffer)) as S.
    destruct (Event_create host _ _) as [[d|e] w'].
    + exists (created d), w'. destruct S as (-> & _).
      split; [reflexivity|]. split; [reflexivity|]. left. exists d. cbn. auto.
    + exists (failed e), (logged w' [ConsoleError]). rewrite S.
      split; [reflexivity|]. split; [reflexivity|]. right. cbn. auto.
Qed.

(** ** The booking actions *)

Lemma emailShape_nonempty (s : jsstring) : emailShape s -> s <> [].
Proof.
  intros (local & l & ls & -> & Hne & _) E.
  destruct local; [contradiction Hne; reflexivity | discriminate E].
Qed.

(** Booking.create returns when nothing stands against it. *)
Lemma Booking_create_succeeds (host : Host) (input : BookingInput) (w : world)
      (id : ObjectId) :
  castObjectId host (eventIdArg input) = Some id ->
  test emailRegex (emailSetter (emailArg input)) = true ->
  eventExists id w = true ->
  (forall b, In b (bookings w) -> eventId (fields b) <> id) ->
  exists d w', Booking_create host input w = (Return d, w')
               /\ fields d = mkBooking id (emailSetter (emailArg input)).
Proof.
  intros Hc Ht He Hn.
  pose proof (emailShape_nonempty (proj1 (test_emailRegex _) Ht)) as Hne.
  assert (Hv : validateBooking host input = []).
  { unfold validateBooking. rewrite Hc, Ht.
    destruct (emailSetter (emailArg input));
      [contradiction Hne; reflexivity | reflexivity]. }
  cbv beta iota delta [Booking_create bind emit throw].
  rewrite Hv, Hc. cbv beta iota zeta.
  rewrite bookingPreSave_checked by (left; reflexivity).
  cbn [doc eventId]. unfold eventExists, logged in *.
  cbn [events bookings assets clock trace]. rewrite He.
  unfold insertBooking. cbn [events bookings assets clock trace eventId email].
  replace (existsb _ (bookings w)) with false.
  - eexists. eexists. split; reflexivity.
  - symmetry. apply not_true_is_false. intro H. apply existsb_exists in H.
    destruct H as (b & Hb & H). apply andb_prop in H. destruct H as [H _].
    apply N.eqb_eq in H. exact (Hn b Hb H).
Qed.

(** X27.  The earlier createBooking never throws and its flag tells the
    truth about the store: it answers success: true when one booking of
    the event sent, with the address in lower case and trimmed, has been
    appended, and success: false when the bookings are as they were; the
    events are never touched. *)
Theorem createBooking_earlier_flag (host : Host) (idText address : jsstring)
        (w : world) :
  exists a w',
    Earlier.createBooking host idText address w = (Return a, w')
    /\ events w' = events w
    /\ if Earlier.success a
       then exists d, bookings w' = bookings w ++ [d]
                      /\ castObjectId host idText = Some (eventId (fields d))
                      /\ email (fields d) = emailSetter address
       else bookings w' = bookings w.
Proof.
  rewrite createBooking_earlier_run.
  destruct (connecting host) as [[]|e].
  2: { eexists. eexists. split; [reflexivity|]. cbn. auto. }
  pose proof (Booking_create_spec host
                {| eventIdArg := idText; slugArg := emptyString;
                   emailArg := address |} (logged w [Connected])) as S.
  destruct (Booking_create host _ _) as [[d|e] w'].
  - destruct S as (id & Ec & _ & _ & -> & _ & ->).
    eexists. eexists. split; [reflexivity|]. cbn [Earlier.success events].
    split; [reflexivity|]. eexists. split; [reflexivity|].
    cbn [fields eventId email]. split; [exact Ec | reflexivity].
  - destruct S as (tr & -> & _).
    eexists. eexists. split; [reflexivity|]. cbn. auto.
Qed.

(** X28.  An event that POST has created can be booked at once: on a
    store that requests have built from an empty database, the earlier
    createBooking, given the identifier of the event and an address that
    the validator accepts, answers success: true. *)
Theorem created_event_can_be_booked (rs : list (Host * request))
        (host host' : Host) (req : NextRequest) (d : stored IEvent)
        (idText address : jsstring) :
  fst (POST host req (after rs initial)) = Return (created d) ->
  connecting host' = Return tt ->
  castObjectId host' idText = Some (_id d) ->
  test emailRegex (emailSetter address) = true ->
  fst (Earlier.createBooking host' idText address
         (snd (POST host req (after rs initial))))
  = Return {| Earlier.success := true |}.
Proof.
  intros Hp Hc Hid Ht. set (w := after rs initial) in *.
  pose proof (reachable_wellFormed rs) as W. fold w in W.
  rewrite createBooking_earlier_run, Hc.
  destruct (POST_run host req w)
    as [(resp & tr & E & Hs & _)
       |(fd & jt & ja & buffer & r & _ & _ & _ & _ & _ & E)];
    rewrite E in Hp |- *.
  - cbn [fst] in Hp. injection Hp as ->. cbn in Hs. destruct Hs; discriminate.
  - pose proof (Event_create_spec host (eventObject host fd jt ja r)
                  (uploaded w buffer)) as S.
    destruct (Event_create host _ _) as [[d'|e] w']; [|discriminate].
    cbn [fst snd] in Hp |- *. injection Hp as ->.
    destruct S as (-> & Ed & _).
    assert (Hd : _id d = clock w) by (rewrite Ed; reflexivity).
    destruct (@Booking_create_succeeds host'
                {| eventIdArg := idText; slugArg := emptyString;
                   emailArg := address |}
                (logged (World (events (uploaded w buffer) ++ [d])
                               (bookings (uploaded w buffer))
                               (assets (uploaded w buffer))
                               (N.succ (clock (uploaded w buffer)))
                               (trace (uploaded w buffer)
                                ++ [EventSaveCalled;
                                    EventInserted (clock (uploaded w buffer))]))
                        [Connected])
                (_id d) Hid Ht) as (b & w2 & -> & _).
    + unfold eventExists, logged, uploaded. cbn [events].
      rewrite existsb_app. cbn [existsb]. rewrite N.eqb_refl.
      rewrite orb_true_r. reflexivity.
    + unfold logged, uploaded. cbn [bookings]. intros b Hb Eb.
      pose proof (references W b Hb) as Hr. unfold eventExists in Hr.
      apply existsb_exists in Hr. destruct Hr as (x & Hx & Ex).
      apply N.eqb_eq in Ex. pose proof (eventIds W x Hx) as Hlt. lia.
    + reflexivity.
Qed.

Lemma created_event_can_be_booked_witness :
  fst (Earlier.createBooking node firstId (js " Ada@Example.org ")
         (snd (POST node launchRequest (after [] initial))))
  = Return {| Earlier.success := true |}.
Proof.
  apply (@created_event_can_be_booked [] node node launchRequest launchDay);
    vm_compute; reflexivity.
Defined.

Lemma Booking_create_duplicate (host : Host) (input : BookingInput) (w : world)
      (id : ObjectId) :
  castObjectId host (eventIdArg input) = Some id ->
  validateBooking host input = [] ->
  eventExists id w = true ->
  existsb (fun x => N.eqb (eventId (fields x)) id
                    && eqs (email (fields x)) (emailSetter (emailArg input)))
          (bookings w) = true ->
  Booking_create host input w
  = (Throw (MongoServerError
              (js "E11000 duplicate key error index: uniq_event_email")),
     logged w [BookingSaveCalled; EventLookup id]).
Proof.
  intros Hc Hv He Hd.
  cbv beta iota delta [Booking_create bind emit throw].
  rewrite Hv, Hc. cbv beta iota zeta.
  rewrite bookingPreSave_checked by (left; reflexivity).
  cbn [doc eventId]. unfold eventExists, logged in *.
  cbn [events bookings assets clock trace]. rewrite He.
  unfold insertBooking. cbn [events bookings assets clock trace eventId email].
  rewrite Hd, <- app_assoc. reflexivity.
Qed.

(** X29.  A booking that createBooking has stored and reported as failed
    cannot be sent again: the same call, repeated, is refused by the
    unique index and answers with the duplicate key error. *)
Theorem createBooking_retry_is_duplicate (host : Host) (input : BookingInput)
        (w w1 : world) (d : stored IBooking) :
  connecting host = Return tt ->
  Booking_create host input (logged w [Connected]) = (Return d, w1) ->
  fst (createBooking host input (snd (createBooking host input w)))
  = Return (Failure (MongoServerError
                       (js "E11000 duplicate key error index: uniq_event_email"))).
Proof.
  intros Hc Hb. rewrite !createBooking_run, Hc, Hb. unfold Document_lean.
  cbn [snd].
  pose proof (Booking_create_spec host input (logged w [Connected])) as S.
  rewrite Hb in S. destruct S as (id & Ec & Ev & Ex & Ed & _ & ->).
  rewrite (@Booking_create_duplicate host input _ id Ec Ev).
  - reflexivity.
  - exact Ex.
  - unfold logged. cbn [bookings]. rewrite existsb_app, Ed.
    cbn [existsb fields eventId email]. rewrite N.eqb_refl, eqs_refl.
    rewrite orb_true_r. reflexivity.
Qed.

Lemma createBooking_retry_is_duplicate_witness :
  fst (createBooking node (Scenario.booking firstId)
         (snd (createBooking node (Scenario.booking firstId)
                 (after [(node, Post launchRequest)] initial))))
  = Return (Failure (MongoServerError
                       (js "E11000 duplicate key error index: uniq_event_email"))).
Proof.
  apply (@createBooking_retry_is_duplicate node (Scenario.booking firstId)
           (after [(node, Post launchRequest)] initial)
           (snd (Booking_create node (Scenario.booking firstId)
                   (logged (after [(node, Post launchRequest)] initial)
                           [Connected])))
           (Stored 1%N (mkBooking 0%N (js "ada@example.org")) 1%N 1%N));
    vm_compute; reflexivity.
Defined.
